(** * Petrophysical interpretation engine (las_analysis.py): a shallow embedding

    The development follows [PetrophysicalAnalyzer] of [src/las_analysis.py]:
    the quality assessor, the four lithology methods and the property
    calculator, and states the properties of the specification against them.
    The fallback parser of the loader, the permeability estimate and the
    reservoir-quality block of the report follow, with further properties of
    all of them.

    Numbers.  The program computes on float64 values held in pandas Series.
    Here a value is an extended rational [fval]: a finite rational, one of the
    two infinities that numpy produces on a division by zero, or NaN (which is
    also pandas' marker of a missing reading).  Arithmetic is exact: rounding,
    overflow, underflow and the sign of zero are not modelled.  The functions
    whose values are not rational on rational arguments ([np.sqrt] and [**]
    with a non-integer exponent) are parameters of the sections that use them,
    and so are scikit-learn's scaler and k-means.

    Frames.  A frame is its list of named columns, all numeric, over an index
    of [nrows] rows; a row is identified by its position, the depth labels
    of the index being distinct. *)

From Stdlib Require Import String QArith Qround Qabs Lqa ZArith Lia Bool List Permutation.
Import ListNotations.
Open Scope Q_scope.

(** ** Extended rationals standing for float64 *)

Inductive fval : Type :=
| Fin (q : Q)
| PInf
| NInf
| NaN.

Definition Qlt_bool (a b : Q) : bool := negb (Qle_bool b a).

Lemma Qlt_bool_iff (a b : Q) : Qlt_bool a b = true <-> a < b.
Proof.
  unfold Qlt_bool. rewrite negb_true_iff.
  split; intro H.
  - apply Qnot_le_lt. intro Hle. apply Qle_bool_iff in Hle. congruence.
  - destruct (Qle_bool b a) eqn:E; [|reflexivity].
    apply Qle_bool_iff in E. lra.
Qed.

Lemma Qlt_bool_false_iff (a b : Q) : Qlt_bool a b = false <-> b <= a.
Proof.
  unfold Qlt_bool. rewrite negb_false_iff. apply Qle_bool_iff.
Qed.

Lemma Qle_bool_false_iff (a b : Q) : Qle_bool a b = false <-> b < a.
Proof.
  split; intro H.
  - apply Qnot_le_lt. intro Hle. apply Qle_bool_iff in Hle. congruence.
  - destruct (Qle_bool a b) eqn:E; [|reflexivity].
    apply Qle_bool_iff in E. lra.
Qed.

(** The sign of a value, as a [comparison] with zero ([Eq] also for NaN). *)
Definition fsign (x : fval) : comparison :=
  match x with
  | Fin a => a ?= 0
  | PInf => Gt
  | NInf => Lt
  | NaN => Eq
  end.

Definition sign_mul (s t : comparison) : comparison :=
  match s, t with
  | Eq, _ | _, Eq => Eq
  | Gt, Gt | Lt, Lt => Gt
  | _, _ => Lt
  end.

(** The infinity of a given sign; a zero sign stands for an invalid
    operation ([0/0], [0 * inf]) and gives NaN. *)
Definition inf_of_sign (s : comparison) : fval :=
  match s with
  | Gt => PInf
  | Lt => NInf
  | Eq => NaN
  end.

Definition fneg (x : fval) : fval :=
  match x with
  | Fin a => Fin (- a)
  | PInf => NInf
  | NInf => PInf
  | NaN => NaN
  end.

Definition fadd (x y : fval) : fval :=
  match x, y with
  | NaN, _ | _, NaN => NaN
  | Fin a, Fin b => Fin (a + b)
  | PInf, NInf | NInf, PInf => NaN
  | PInf, _ | _, PInf => PInf
  | NInf, _ | _, NInf => NInf
  end.

Definition fsub (x y : fval) : fval := fadd x (fneg y).

Definition fmul (x y : fval) : fval :=
  match x, y with
  | NaN, _ | _, NaN => NaN
  | Fin a, Fin b => Fin (a * b)
  | _, _ => inf_of_sign (sign_mul (fsign x) (fsign y))
  end.

(** numpy's true division: a finite value over zero is an infinity of the
    sign of the numerator, [0/0] is NaN, nothing is raised. *)
Definition fdiv (x y : fval) : fval :=
  match x, y with
  | NaN, _ | _, NaN => NaN
  | Fin a, Fin b =>
      if Qeq_bool b 0 then inf_of_sign (a ?= 0) else Fin (a / b)
  | Fin _, _ => Fin 0
  | _, Fin b => if Qlt_bool b 0 then fneg x else x
  | _, _ => NaN
  end.

(** Comparisons: every comparison with NaN is false. *)
Definition fltb (x y : fval) : bool :=
  match x, y with
  | NaN, _ | _, NaN => false
  | Fin a, Fin b => Qlt_bool a b
  | NInf, NInf => false
  | NInf, _ => true
  | _, NInf => false
  | PInf, _ => false
  | _, PInf => true
  end.

Definition fleb (x y : fval) : bool :=
  match x, y with
  | NaN, _ | _, NaN => false
  | Fin a, Fin b => Qle_bool a b
  | NInf, _ => true
  | _, NInf => false
  | _, PInf => true
  | PInf, _ => false
  end.

Definition fgtb (x y : fval) : bool := fltb y x.
Definition fgeb (x y : fval) : bool := fleb y x.

Definition isna (x : fval) : bool :=
  match x with NaN => true | _ => false end.


(** [Series.clip(lower, upper)] with scalar bounds: NaN is kept. *)
Definition fclip (lower upper : Q) (x : fval) : fval :=
  if fltb x (Fin lower) then Fin lower
  else if fgtb x (Fin upper) then Fin upper
  else x.

(** ** Series and frames *)

(** A Series over the frame's index: one value per row, by position. *)
Definition Series := list fval.

(** A Series of a sub-index: the rows that survived [dropna], each with the
    position it has in the frame. *)
Definition ISeries (A : Type) := list (nat * A).

Definition indexed (s : Series) : ISeries fval :=
  combine (seq 0 (length s)) s.

Definition dropna (s : Series) : ISeries fval :=
  filter (fun p => negb (isna (snd p))) (indexed s).

Definition values {A : Type} (s : ISeries A) : list A := map snd s.

(** [Series.count()]: the number of non-null values. *)
Definition count (s : Series) : nat := length (dropna s).

(** [lith[mask] = v] on aligned series. *)
Definition assign_mask {A : Type} (lith : list (option A)) (mask : list bool) (v : A)
  : list (option A) :=
  map (fun lm : option A * bool => if snd lm then Some v else fst lm) (combine lith mask).

Record DataFrame : Type := mkDataFrame {
  nrows : nat;
  columns : list (string * Series)
}.

(** Every column has one value per row of the index. *)
Definition wf_frame (df : DataFrame) : Prop :=
  Forall (fun c => length (snd c) = nrows df) (columns df).

Fixpoint lookup_column (cols : list (string * Series)) (name : string) : option Series :=
  match cols with
  | [] => None
  | (n, s) :: rest => if String.eqb n name then Some s else lookup_column rest name
  end.

(** [name in df.columns] *)
Definition has_column (df : DataFrame) (name : string) : bool :=
  match lookup_column (columns df) name with Some _ => true | None => false end.

(** ** Exceptions *)

Inductive exn : Type :=
| KeyError (key : string)
| ValueError (msg : string)
| IndexError (msg : string)
| TypeError (msg : string).

Inductive result (A : Type) : Type :=
| Ok (a : A)
| Raise (e : exn).
Arguments Ok {A} a.
Arguments Raise {A} e.

Definition bind {A B : Type} (m : result A) (k : A -> result B) : result B :=
  match m with
  | Ok a => k a
  | Raise e => Raise e
  end.

Notation "x <- m ;; k" := (bind m (fun x => k))
  (at level 61, m at next level, right associativity).

(** [df[name]]: raises [KeyError] when the column is absent. *)
Definition getitem (df : DataFrame) (name : string) : result Series :=
  match lookup_column (columns df) name with
  | Some s => Ok s
  | None => Raise (KeyError name)
  end.

(** ** Order statistics *)

Fixpoint insert_sorted (x : fval) (l : list fval) : list fval :=
  match l with
  | [] => [x]
  | y :: rest => if fleb x y then x :: l else y :: insert_sorted x rest
  end.

Definition sort (l : list fval) : list fval := fold_right insert_sorted [] l.

Definition Qnat (n : nat) : Q := inject_Z (Z.of_nat n).

(** The linear interpolation of numpy's percentile on the sorted values:
    the virtual position [q * (n - 1)], interpolated between its two
    neighbours. *)
Definition lerp_position (q : Q) (sorted : list fval) : fval :=
  let n := length sorted in
  let pos := q * Qnat (n - 1) in
  let lo := Z.to_nat (Qfloor pos) in
  let hi := Nat.min (lo + 1) (n - 1) in
  let frac := pos - Qnat lo in
  let a := nth lo sorted NaN in
  let b := nth hi sorted NaN in
  fadd a (fmul (fsub b a) (Fin frac)).

(** [Series.quantile(q)] with pandas' default linear interpolation over the
    non-null values; NaN for an empty series. *)
Definition quantile (q : Q) (vals : list fval) : fval :=
  match vals with
  | [] => NaN
  | _ => lerp_position q (sort vals)
  end.

(** [mask.sum()] *)
Definition count_true (mask : list bool) : nat := length (filter (fun b => b) mask).

(** ** Labels

    The program's labels are the strings ['Clean Sandstone'], ['Shaly Sandstone'],
    ['Shale'] (gamma ray); ['Sandstone'], ['Limestone'], ['Dolomite'],
    ['Anhydrite'], ['Gas Sand'] (neutron-density); ['Quartz/Sandstone'],
    ['Calcite/Limestone'], ['Dolomite'], ['Clay/Shale'], ['Anhydrite'], ['Salt'],
    ['Unknown'] (photoelectric factor); ['Facies_<k>'] (clustering). *)
Inductive label : Type :=
| CleanSandstone | ShalySandstone | Shale
| Sandstone | Limestone | Dolomite | Anhydrite | GasSand
| QuartzSandstone | CalciteLimestone | ClayShale | Salt | Unknown
| Facies (k : nat).

Definition GGCE : string := "GGCE"%string.
Definition GR : string := "GR"%string.
Definition NPRL : string := "NPRL"%string.
Definition DEN : string := "DEN"%string.
Definition PDPE : string := "PDPE"%string.
Definition RTAT : string := "RTAT"%string.

(** ** Quality assessor: the outlier pass of [data_quality_assessment] *)

Record OutlierStats : Type := mkOutlierStats {
  Q1 : fval;
  Q3 : fval;
  IQR : fval;
  outliers : nat
}.

(** The body of the loop of [data_quality_assessment] for one column. *)
Definition outlier_stats (col : Series) : OutlierStats :=
  let q1 := quantile (1#4) (values (dropna col)) in
  let q3 := quantile (3#4) (values (dropna col)) in
  let iqr := fsub q3 q1 in
  let mask := map (fun x =>
                fltb x (fsub q1 (fmul (Fin (3#2)) iqr))
                || fgtb x (fadd q3 (fmul (Fin (3#2)) iqr))) col in
  mkOutlierStats q1 q3 iqr (count_true mask).

(** What the assessor prints about the outliers of a column: a line with the
    count and its percentage of the valid values, and only when the count is
    positive.  Nothing else is ever reported for a column. *)
Record OutlierLine : Type := mkOutlierLine {
  ol_column : string;
  ol_outliers : nat;
  ol_percent : fval
}.

Definition outlier_line (c : string * Series) : option OutlierLine :=
  let st := outlier_stats (snd c) in
  if (0 <? outliers st)%nat then
    Some (mkOutlierLine (fst c) (outliers st)
            (fmul (fdiv (Fin (Qnat (outliers st))) (Fin (Qnat (count (snd c)))))
                  (Fin 100)))
  else None.

Record CompletenessLine : Type := mkCompletenessLine {
  cl_column : string;
  cl_valid : nat;
  cl_completeness : fval
}.

Definition completeness_line (total_points : nat) (c : string * Series) : CompletenessLine :=
  let valid_count := count (snd c) in
  mkCompletenessLine (fst c) valid_count
    (fmul (fdiv (Fin (Qnat valid_count)) (Fin (Qnat total_points))) (Fin 100)).

Fixpoint filter_some {A : Type} (l : list (option A)) : list A :=
  match l with
  | [] => []
  | Some a :: rest => a :: filter_some rest
  | None :: rest => filter_some rest
  end.

(** [data_quality_assessment]: the lines printed, in order (the depth
    statistics of the header are left out: the index is not modelled). *)
Definition data_quality_assessment (df : DataFrame)
  : list CompletenessLine * list OutlierLine :=
  (map (completeness_line (nrows df)) (columns df),
   filter_some (map outlier_line (columns df))).

(** ** Photoelectric-factor method *)

Definition pe_ranges : list (label * (Q * Q)) :=
  [ (QuartzSandstone, (18#10, 19#10));
    (CalciteLimestone, (50#10, 52#10));
    (Dolomite, (30#10, 32#10));
    (ClayShale, (28#10, 33#10));
    (Anhydrite, (50#10, 51#10));
    (Salt, (46#10, 48#10)) ].

Definition in_pe_range (x : fval) (r : label * (Q * Q)) : bool :=
  fgeb x (Fin (fst (snd r))) && fleb x (Fin (snd (snd r))).

Record PEResult : Type := mkPEResult {
  pe_lithology : ISeries label;
  pe_data : ISeries fval
}.

Definition fillna (l : list (option label)) (v : label) : list label :=
  map (fun o => match o with Some m => m | None => v end) l.

Definition _photoelectric_lithology (df : DataFrame) (pe_col : string)
  : result PEResult :=
  col <- getitem df pe_col ;;
  let pe_data := dropna col in
  let lithology0 : list (option label) := map (fun _ => None) pe_data in
  let lithology1 :=
    fold_left (fun lithology r =>
                 let mask := map (fun p => in_pe_range (snd p) r) pe_data in
                 assign_mask lithology mask (fst r))
              pe_ranges lithology0 in
  let lithology := fillna lithology1 Unknown in
  Ok (mkPEResult (combine (map fst pe_data) lithology) pe_data).

(** ** Property calculator: porosity and net-to-gross *)

Record PorosityResult : Type := mkPorosityResult {
  phi_density : Series;
  phi_neutron : Series;
  phi_combined : Series;
  phi_corrected : Series;
  gas_flag : list bool
}.

Definition rho_matrix : Q := 265#100.
Definition rho_fluid : Q := 1.

(** One row of [_calculate_porosity]: the five values computed from the
    neutron reading (in percent) and the bulk density of the row. *)
Definition density_porosity (rhob : fval) : fval :=
  fclip 0 (1#2) (fdiv (fsub (Fin rho_matrix) rhob) (Fin (rho_matrix - rho_fluid))).

Definition neutron_porosity (nprl : fval) : fval :=
  fclip 0 (1#2) (fdiv nprl (Fin 100)).

Definition combined_porosity (pd pn : fval) : fval :=
  fdiv (fadd pd pn) (Fin 2).

Definition gas_effect (pd pn : fval) : bool :=
  fltb pn (fsub pd (Fin (4#100))).

Definition corrected_porosity (pd pn : fval) : fval :=
  if gas_effect pd pn then pd else combined_porosity pd pn.

Definition _calculate_porosity (df : DataFrame) : result (option PorosityResult) :=
  if negb (has_column df NPRL) || negb (has_column df DEN) then Ok None
  else
    nprl <- getitem df NPRL ;;
    rhob <- getitem df DEN ;;
    let phi_density := map density_porosity rhob in
    let phi_neutron := map neutron_porosity nprl in
    let rows := combine phi_density phi_neutron in
    let phi_combined := map (fun r => combined_porosity (fst r) (snd r)) rows in
    let gas_flag := map (fun r => gas_effect (fst r) (snd r)) rows in
    let phi_corrected := map (fun r => corrected_porosity (fst r) (snd r)) rows in
    Ok (Some (mkPorosityResult phi_density phi_neutron phi_combined phi_corrected gas_flag)).

Record NetToGross : Type := mkNetToGross {
  net_flag : list bool;
  ntg_ratio : Q;
  net_thickness : Q;
  gross_thickness : Q
}.

Definition gr_cutoff : Q := 75.

Definition _calculate_net_to_gross (df : DataFrame) : result (option NetToGross) :=
  if negb (has_column df GGCE) then Ok None
  else
    gr <- getitem df GGCE ;;
    let net_flag := map (fun x => fltb x (Fin gr_cutoff)) gr in
    let total_thickness := Qnat (length gr) * (1#2) in
    let net_thickness := Qnat (count_true net_flag) * (1#2) in
    let ntg_ratio :=
      if Qlt_bool 0 total_thickness then net_thickness / total_thickness else 0 in
    Ok (Some (mkNetToGross net_flag ntg_ratio net_thickness total_thickness)).

(** ** The methods that call numpy's and scikit-learn's numeric routines *)

Section Analyzer.

(** [2 ** x] on a finite [x]. *)
Variable exp2 : Q -> Q.
(** [np.sqrt x] on a finite [x >= 0]. *)
Variable np_sqrt : Q -> Q.
(** [x ** 0.5] on a finite [x >= 0] (the exponent [1/n] with [n = 2.0]). *)
Variable pow_half : Q -> Q.
(** [StandardScaler().fit_transform] on a finite matrix, one row per sample. *)
Variable standardize : list (list Q) -> list (list Q).
(** [KMeans(n_clusters=k, random_state=42)] on a finite matrix with at least
    [k] rows: the cluster of each row and the inertia of the fit. *)
Variable kmeans : nat -> list (list Q) -> list nat * Q.

Definition fexp2 (x : fval) : fval :=
  match x with
  | Fin a => Fin (exp2 a)
  | PInf => PInf
  | NInf => Fin 0
  | NaN => NaN
  end.

Definition fsqrt (x : fval) : fval :=
  match x with
  | Fin a => if Qlt_bool a 0 then NaN else Fin (np_sqrt a)
  | PInf => PInf
  | NInf => NaN
  | NaN => NaN
  end.

Definition fpow_half (x : fval) : fval :=
  match x with
  | Fin a => if Qlt_bool a 0 then NaN else Fin (pow_half a)
  | PInf => PInf
  | NInf => PInf
  | NaN => NaN
  end.

(** *** Gamma-ray method (Larionov) *)

Record GammaRayResult : Type := mkGammaRayResult {
  gr_lithology : ISeries (option label);
  v_shale_tertiary : ISeries fval;
  v_shale_older : ISeries fval;
  gr_clean : fval;
  gr_shale : fval
}.

Definition larionov_tertiary (g : fval) : fval :=
  fmul (Fin (83#1000)) (fsub (fexp2 (fmul (Fin (37#10)) g)) (Fin 1)).

Definition larionov_older (g : fval) : fval :=
  fmul (Fin (33#100)) (fsub (fexp2 (fmul (Fin 2) g)) (Fin 1)).

Definition _gamma_ray_lithology (df : DataFrame) (gr_col : string)
  : result GammaRayResult :=
  col <- getitem df gr_col ;;
  let gr_data := dropna col in
  let gr_clean := quantile (5#100) (values gr_data) in
  let gr_shale := quantile (95#100) (values gr_data) in
  let gr_normalized :=
    map (fun x => fdiv (fsub x gr_clean) (fsub gr_shale gr_clean)) (values gr_data) in
  let gr_normalized := map (fclip 0 1) gr_normalized in
  let v_shale_tertiary := map larionov_tertiary gr_normalized in
  let v_shale_older := map larionov_older gr_normalized in
  let lithology : list (option label) := map (fun _ => None) gr_data in
  let lithology :=
    assign_mask lithology
      (map (fun v => fltb v (Fin (15#100))) v_shale_tertiary) CleanSandstone in
  let lithology :=
    assign_mask lithology
      (map (fun v => fgeb v (Fin (15#100)) && fltb v (Fin (50#100))) v_shale_tertiary)
      ShalySandstone in
  let lithology :=
    assign_mask lithology
      (map (fun v => fgeb v (Fin (50#100))) v_shale_tertiary) Shale in
  let index := map fst gr_data in
  Ok (mkGammaRayResult (combine index lithology) (combine index v_shale_tertiary)
        (combine index v_shale_older) gr_clean gr_shale).

(** *** Neutron-density method *)

Record Matrix : Type := mkMatrix { m_nphi : Q; m_rhob : Q }.

Definition matrices : list (label * Matrix) :=
  [ (Sandstone, mkMatrix 0 (265#100));
    (Limestone, mkMatrix 0 (271#100));
    (Dolomite, mkMatrix 0 (287#100));
    (Anhydrite, mkMatrix 0 (296#100)) ].

(** [np.sqrt((nphi - m.nphi)**2 + (rhob - m.rhob)**2 * 0.1)] *)
Definition matrix_distance (nphi rhob : fval) (m : Matrix) : fval :=
  let dn := fsub nphi (Fin (m_nphi m)) in
  let dr := fsub rhob (Fin (m_rhob m)) in
  fsqrt (fadd (fmul dn dn) (fmul (fmul dr dr) (Fin (1#10)))).

(** Python's [min(keys, key=...)]: the first key whose value no other key's
    value is strictly below. *)
Fixpoint min_by {A : Type} (key : A -> fval) (best : A) (l : list A) : A :=
  match l with
  | [] => best
  | x :: rest => min_by key (if fltb (key x) (key best) then x else best) rest
  end.

(** The body of the loop over the valid rows: the label of one row. *)
Definition nd_label (nphi rhob : fval) : label :=
  let distances := map (fun km => (fst km, matrix_distance nphi rhob (snd km))) matrices in
  let closest :=
    match distances with
    | [] => Unknown
    | d :: rest => fst (min_by snd d rest)
    end in
  if fltb rhob (Fin (23#10)) && fltb nphi (Fin (15#100)) then GasSand else closest.

Record NDResult : Type := mkNDResult {
  nd_lithology : ISeries label;
  nphi_data : ISeries fval;
  rhob_data : ISeries fval
}.

(** [df[[a, b]].dropna()]: the rows where both readings are present. *)
Definition dropna2 (a b : Series) : ISeries (fval * fval) :=
  filter (fun p => negb (isna (fst (snd p))) && negb (isna (snd (snd p))))
         (combine (seq 0 (length a)) (combine a b)).

Definition _neutron_density_lithology (df : DataFrame) (nphi_col rhob_col : string)
  : result (option NDResult) :=
  a <- getitem df nphi_col ;;
  b <- getitem df rhob_col ;;
  let valid_data := dropna2 a b in
  if (length valid_data =? 0)%nat then Ok None
  else
    let nphi := map (fun p => (fst p, fdiv (fst (snd p)) (Fin 100))) valid_data in
    let rhob := map (fun p => (fst p, snd (snd p))) valid_data in
    let lithology :=
      map (fun p => (fst p, nd_label (fdiv (fst (snd p)) (Fin 100)) (snd (snd p))))
          valid_data in
    Ok (Some (mkNDResult lithology nphi rhob)).

(** *** Unsupervised clustering *)

Definition candidate_curves : list string := [GGCE; NPRL; DEN; PDPE; RTAT].

Fixpoint getitems (df : DataFrame) (names : list string) : result (list Series) :=
  match names with
  | [] => Ok []
  | n :: rest =>
      c <- getitem df n ;;
      cs <- getitems df rest ;;
      Ok (c :: cs)
  end.

(** [df[names].dropna()]: the rows of the index where every selected column
    holds a reading. *)
Definition dropna_rows (n : nat) (cols : list Series) : ISeries (list fval) :=
  filter (fun p => forallb (fun x => negb (isna x)) (snd p))
         (map (fun i => (i, map (fun c => nth i c NaN) cols)) (seq 0 n)).

Definition to_finite (x : fval) : option Q :=
  match x with Fin q => Some q | _ => None end.

Fixpoint all_some {A : Type} (l : list (option A)) : option (list A) :=
  match l with
  | [] => Some []
  | Some a :: rest =>
      match all_some rest with Some r => Some (a :: r) | None => None end
  | None :: _ => None
  end.

Definition finite_matrix (X : list (list fval)) : option (list (list Q)) :=
  all_some (map (fun row => all_some (map to_finite row)) X).

(** scikit-learn validates its input: an infinite entry is a [ValueError]. *)
Definition StandardScaler_fit_transform (X : list (list fval)) : result (list (list Q)) :=
  match finite_matrix X with
  | Some M => Ok (standardize M)
  | None => Raise (ValueError "Input contains infinity")
  end.

(** [KMeans(n_clusters=k, random_state=42).fit(X)]: fewer samples than
    clusters is a [ValueError]. *)
Definition KMeans_fit (k : nat) (X : list (list Q)) : result (list nat * Q) :=
  if (length X <? k)%nat then Raise (ValueError "n_samples should be >= n_clusters")
  else Ok (kmeans k X).

Fixpoint inertias_of (ks : list nat) (X : list (list Q)) : result (list Q) :=
  match ks with
  | [] => Ok []
  | k :: rest =>
      fit <- KMeans_fit k X ;;
      others <- inertias_of rest X ;;
      Ok (snd fit :: others)
  end.

(** [np.diff] *)
Fixpoint diff (l : list Q) : list Q :=
  match l with
  | a :: ((b :: _) as rest) => (b - a) :: diff rest
  | _ => []
  end.

(** [np.argmax] scanning from position [i]: the first position of the largest value. *)
Fixpoint argmax_from (l : list Q) (i : nat) (best : Q) (best_i : nat) : nat :=
  match l with
  | [] => best_i
  | x :: rest =>
      if Qlt_bool best x then argmax_from rest (S i) x i
      else argmax_from rest (S i) best best_i
  end.

Definition argmax (l : list Q) : result nat :=
  match l with
  | [] => Raise (ValueError "attempt to get argmax of an empty sequence")
  | x :: rest => Ok (argmax_from rest 1 x 0)
  end.

(** [range(2, stop)] *)
Definition range2 (stop : nat) : list nat := seq 2 (stop - 2).

Definition range_getitem (r : list nat) (i : nat) : result nat :=
  match nth_error r i with
  | Some k => Ok k
  | None => Raise (IndexError "range object index out of range")
  end.

(** [lithology.iloc[i] = v] for each [(i, v)] of [enumerate(clusters)]. *)
Fixpoint set_iloc {A : Type} (l : list (option A)) (i : nat) (v : A)
  : result (list (option A)) :=
  match l, i with
  | [], _ => Raise (IndexError "iloc cannot enlarge its target object")
  | _ :: rest, O => Ok (Some v :: rest)
  | x :: rest, S j => r <- set_iloc rest j v ;; Ok (x :: r)
  end.

Fixpoint assign_clusters (lith : list (option label)) (i : nat) (clusters : list nat)
  : result (list (option label)) :=
  match clusters with
  | [] => Ok lith
  | c :: rest =>
      lith' <- set_iloc lith i (Facies c) ;;
      assign_clusters lith' (S i) rest
  end.

Record MLResult : Type := mkMLResult {
  ml_lithology : ISeries (option label);
  clusters : list nat;
  features : list string
}.

Definition _ml_lithology_clustering (df : DataFrame) : result (option MLResult) :=
  let analysis_curves := filter (has_column df) candidate_curves in
  if (length analysis_curves <? 2)%nat then Ok None
  else
    cols <- getitems df analysis_curves ;;
    let ml_data := dropna_rows (nrows df) cols in
    if (length ml_data <? 10)%nat then Ok None
    else
      scaled_data <- StandardScaler_fit_transform (values ml_data) ;;
      let k_range := range2 (Nat.min 8 (length ml_data / 5)) in
      inertias <- inertias_of k_range scaled_data ;;
      optimal_k <-
        (if (2 <? length inertias)%nat then
           i <- argmax (diff (diff inertias)) ;;
           range_getitem k_range i
         else Ok 3%nat) ;;
      fit <- KMeans_fit optimal_k scaled_data ;;
      let clusters := fst fit in
      lithology <- assign_clusters (map (fun _ => None) ml_data) 0 clusters ;;
      Ok (Some (mkMLResult (combine (map fst ml_data) lithology) clusters analysis_curves)).

(** *** The classification pass *)

(** The result dictionary: a field is [None] when its key was never set, and
    [Some None] when the method was called and returned [None]. *)
Record LithologyResults : Type := mkLithologyResults {
  gamma_ray : option GammaRayResult;
  neutron_density : option (option NDResult);
  photoelectric : option PEResult;
  ml_clustering : option (option MLResult)
}.

(** [len(df.select_dtypes(include=[np.number]).columns)]: every column of a
    frame of this model is numeric. *)
Definition numeric_columns (df : DataFrame) : nat := length (columns df).

Definition lithology_identification (df : DataFrame) : result LithologyResults :=
  let gr_col :=
    if has_column df GGCE then Some GGCE
    else if has_column df GR then Some GR
    else None in
  r_gamma <-
    match gr_col with
    | Some c => r <- _gamma_ray_lithology df c ;; Ok (Some r)
    | None => Ok None
    end ;;
  r_nd <-
    (if has_column df NPRL && has_column df DEN then
       r <- _neutron_density_lithology df NPRL DEN ;; Ok (Some r)
     else Ok None) ;;
  r_pe <-
    (if has_column df PDPE then
       r <- _photoelectric_lithology df PDPE ;; Ok (Some r)
     else Ok None) ;;
  r_ml <-
    (if (3 <=? numeric_columns df)%nat then
       r <- _ml_lithology_clustering df ;; Ok (Some r)
     else Ok None) ;;
  Ok (mkLithologyResults r_gamma r_nd r_pe r_ml).

(** *** Water saturation (Archie) *)

Record WaterSaturation : Type := mkWaterSaturation {
  sw : Series;
  sh : Series;
  formation_factor : Series
}.

Definition rw : Q := 1#10.
Definition archie_a : Q := 1.

(** [F = a / (phi ** m)] with [m = 2.0]: the power is the exact square. *)
Definition formation_factor_of (phi : fval) : fval :=
  fdiv (Fin archie_a) (fmul phi phi).

(** [sw = (((rw * F) / rt) ** (1/n)).clip(0, 1)] with [n = 2.0]. *)
Definition water_saturation_of (F rt : fval) : fval :=
  fclip 0 1 (fpow_half (fdiv (fmul (Fin rw) F) rt)).

Definition _calculate_water_saturation (df : DataFrame) (porosity_data : option PorosityResult)
  : result (option WaterSaturation) :=
  if negb (has_column df RTAT) then Ok None
  else
    rt <- getitem df RTAT ;;
    match porosity_data with
    | None => Raise (TypeError "'NoneType' object is not subscriptable")
    | Some pd =>
        let phi := phi_corrected pd in
        let F := map formation_factor_of phi in
        let sw := map (fun r => water_saturation_of (fst r) (snd r)) (combine F rt) in
        let sh := map (fun s => fsub (Fin 1) s) sw in
        Ok (Some (mkWaterSaturation sw sh F))
    end.

(** [petrophysical_calculations], without the permeability entry (which
    only reads the porosity result). *)
Record PetroResults : Type := mkPetroResults {
  porosity : option (option PorosityResult);
  water_saturation : option (option WaterSaturation);
  net_to_gross : option (option NetToGross)
}.

Definition petrophysical_calculations (df : DataFrame) : result PetroResults :=
  r_phi <-
    (if has_column df NPRL && has_column df DEN then
       r <- _calculate_porosity df ;; Ok (Some r)
     else Ok None) ;;
  r_sw <-
    (if has_column df RTAT then
       match r_phi with
       | Some pd => r <- _calculate_water_saturation df pd ;; Ok (Some r)
       | None => Ok None
       end
     else Ok None) ;;
  r_ntg <-
    (if has_column df GGCE then
       r <- _calculate_net_to_gross df ;; Ok (Some r)
     else Ok None) ;;
  Ok (mkPetroResults r_phi r_sw r_ntg).

End Analyzer.

(** * Further operations of the analyzer *)

(** ** Permeability: [_estimate_permeability] *)

Record Permeability : Type := mkPermeability {
  k_kozeny : Series;
  k_timur : Series;
  k_average : Series
}.

(** [(1 - phi) ** 2]: the exact square. *)
Definition one_minus_squared (phi : fval) : fval :=
  fmul (fsub (Fin 1) phi) (fsub (Fin 1) phi).

(** [5000 * (phi**3) / ((1-phi)**2)], the power being the exact cube. *)
Definition kozeny_carman (phi : fval) : fval :=
  fdiv (fmul (Fin 5000) (fmul phi (fmul phi phi))) (one_minus_squared phi).

Section PermeabilityModel.

(** [x ** 4.4] on a finite [x >= 0]. *)
Variable pow_4_4 : Q -> Q.

Definition fpow_4_4 (x : fval) : fval :=
  match x with
  | Fin a => if Qlt_bool a 0 then NaN else Fin (pow_4_4 a)
  | PInf => PInf
  | NInf => PInf
  | NaN => NaN
  end.

(** [0.136 * (phi**4.4) / (1 - phi)**2] *)
Definition timur (phi : fval) : fval :=
  fdiv (fmul (Fin (136#1000)) (fpow_4_4 phi)) (one_minus_squared phi).

Definition _estimate_permeability (porosity_data : option PorosityResult)
  : result Permeability :=
  match porosity_data with
  | None => Raise (TypeError "'NoneType' object is not subscriptable")
  | Some pd =>
      let phi := phi_corrected pd in
      let k_kozeny := map kozeny_carman phi in
      let k_timur := map timur phi in
      let k_average :=
        map (fun k => fdiv (fadd (fst k) (snd k)) (Fin 2)) (combine k_kozeny k_timur) in
      Ok (mkPermeability k_kozeny k_timur k_average)
  end.

End PermeabilityModel.

(** ** The reservoir-quality block of [generate_report] *)

Record ReservoirQuality : Type := mkReservoirQuality {
  rq_excellent : nat;
  rq_good : nat;
  rq_fair : nat;
  rq_poor : nat;
  rq_total : nat
}.

(** The four counts taken on [phi_corrected * 100] and their total. *)
Definition reservoir_quality (phi_corrected : Series) : ReservoirQuality :=
  let phi_data := map (fun x => fmul x (Fin 100)) phi_corrected in
  let excellent := count_true (map (fun x => fgtb x (Fin 15)) phi_data) in
  let good := count_true (map (fun x => fgtb x (Fin 10) && fleb x (Fin 15)) phi_data) in
  let fair := count_true (map (fun x => fgtb x (Fin 5) && fleb x (Fin 10)) phi_data) in
  let poor := count_true (map (fun x => fleb x (Fin 5)) phi_data) in
  mkReservoirQuality excellent good fair poor (length phi_data).

(** The figure printed for a class: [k / total * 100]. *)
Definition quality_percent (k total : nat) : fval :=
  fmul (fdiv (Fin (Qnat k)) (Fin (Qnat total))) (Fin 100).

(** ** The property pass with its permeability entry *)

Record PetroResultsAll : Type := mkPetroResultsAll {
  all_porosity : option (option PorosityResult);
  all_water_saturation : option (option WaterSaturation);
  all_permeability : option Permeability;
  all_net_to_gross : option (option NetToGross)
}.

Section PropertyPass.

Variable pow_half : Q -> Q.
Variable pow_4_4 : Q -> Q.

(** [petrophysical_calculations], its four entries in the order of the
    source. *)
Definition petrophysical_calculations_all (df : DataFrame) : result PetroResultsAll :=
  r_phi <-
    (if has_column df NPRL && has_column df DEN then
       r <- _calculate_porosity df ;; Ok (Some r)
     else Ok None) ;;
  r_sw <-
    (if has_column df RTAT then
       match r_phi with
       | Some pd => r <- _calculate_water_saturation pow_half df pd ;; Ok (Some r)
       | None => Ok None
       end
     else Ok None) ;;
  r_k <-
    match r_phi with
    | Some pd => r <- _estimate_permeability pow_4_4 pd ;; Ok (Some r)
    | None => Ok None
    end ;;
  r_ntg <-
    (if has_column df GGCE then
       r <- _calculate_net_to_gross df ;; Ok (Some r)
     else Ok None) ;;
  Ok (mkPetroResultsAll r_phi r_sw r_k r_ntg).

End PropertyPass.

(** ** Ingestion: [_manual_las_parse] and [load_las_file]

    The fallback parser of the analyzer, on the lines that [readlines]
    returns.  Text is ASCII: the white space of [strip] and [split] is that
    of Python on the ASCII range.  [float] is a parameter, and so is nothing
    else: the frame is built as pandas builds it from rows of equal length. *)

Definition is_space (c : Ascii.ascii) : bool :=
  let n := Ascii.nat_of_ascii c in
  ((9 <=? n) && (n <=? 13) || (28 <=? n) && (n <=? 31) || (n =? 32))%nat.





(** [s.split()]: the maximal runs of characters that are not white space;
    [tok] is the run being read, last character first. *)
Fixpoint split_from (s : string) (tok : list Ascii.ascii) : list string :=
  match s with
  | EmptyString =>
      match tok with
      | [] => []
      | _ => [string_of_list_ascii (rev tok)]
      end
  | String c rest =>
      if is_space c then
        match tok with
        | [] => split_from rest []
        | _ => string_of_list_ascii (rev tok) :: split_from rest []
        end
      else split_from rest (c :: tok)
  end.

Definition split (s : string) : list string := split_from s [].






Section LasParse.

(** [float(v)]; [None] stands for its [ValueError]. *)
Variable py_float : string -> option fval.







End LasParse.

(** * Properties *)

(** ** General facts about series *)

Lemma combine_map_r {A B C : Type} (g : B -> C) (l : list A) (d : list B) :
  combine l (map g d) = map (fun p => (fst p, g (snd p))) (combine l d).
Proof.
  revert d. induction l as [|a l IH]; intros [|b d]; simpl; try reflexivity.
  now rewrite IH.
Qed.

Lemma assign_mask_map {A B : Type} (g : B -> bool) (v : A) (lith : list (option A)) (d : list B) :
  assign_mask lith (map g d) v =
  map (fun p => if g (snd p) then Some v else fst p) (combine lith d).
Proof.
  unfold assign_mask. rewrite combine_map_r, map_map. reflexivity.
Qed.

Lemma combine_map_fst_snd {A B C : Type} (f : A * B -> C) (l : list A) (d : list B) :
  length l = length d ->
  combine (map f (combine l d)) d = map (fun p => (f p, snd p)) (combine l d).
Proof.
  revert d. induction l as [|a l IH]; intros [|b d] H; simpl in *; try reflexivity; try discriminate.
  f_equal. apply IH. lia.
Qed.

Lemma combine_const_l {A B : Type} (a : A) (d : list B) :
  combine (map (fun _ => a) d) d = map (fun x => (a, x)) d.
Proof.
  induction d as [|b d IH]; simpl; [reflexivity | now rewrite IH].
Qed.

Lemma combine_fst_map {A B C : Type} (g : A * B -> C) (d : list (A * B)) :
  combine (map fst d) (map g d) = map (fun p => (fst p, g p)) d.
Proof.
  induction d as [|p d IH]; simpl; [reflexivity | now rewrite IH].
Qed.

Lemma indexed_In (s : Series) (i : nat) (x : fval) :
  In (i, x) (indexed s) <-> nth_error s i = Some x.
Proof.
  unfold indexed.
  assert (G : forall (l : Series) (k : nat),
             In (i, x) (combine (seq k (length l)) l) <->
             (k <= i)%nat /\ nth_error l (i - k) = Some x).
  { induction l as [|y l IH]; intro k; simpl.
    - split; [tauto|]. intros [_ H]. destruct (i - k)%nat; discriminate.
    - rewrite IH. split.
      + intros [H | [H1 H2]].
        * inversion H; subst. split; [lia|]. now rewrite Nat.sub_diag.
        * split; [lia|]. replace (i - k)%nat with (S (i - S k)) by lia. exact H2.
      + intros [H1 H2]. destruct (Nat.eq_dec k i) as [->|Hne].
        * rewrite Nat.sub_diag in H2. simpl in H2. left. congruence.
        * right. split; [lia|].
          replace (i - k)%nat with (S (i - S k)) in H2 by lia. exact H2. }
  rewrite G, Nat.sub_0_r. split; [tauto | intro; split; [lia | assumption]].
Qed.

(** A row is in [dropna s] exactly when the series holds a reading there. *)
Lemma dropna_In (s : Series) (i : nat) (x : fval) :
  In (i, x) (dropna s) <-> nth_error s i = Some x /\ isna x = false.
Proof.
  unfold dropna. rewrite filter_In, indexed_In. simpl.
  rewrite negb_true_iff. reflexivity.
Qed.

(** ** C1: photoelectric-factor classification *)

(** The label of the first range of the table, in its declared order, that
    contains the value: the reading of the specification. *)
Definition first_match (x : fval) : label :=
  match find (in_pe_range x) pe_ranges with
  | Some r => fst r
  | None => Unknown
  end.

(** The label of the last range of the table that contains the value. *)
Definition last_match (x : fval) : label :=
  match find (in_pe_range x) (rev pe_ranges) with
  | Some r => fst r
  | None => Unknown
  end.

Definition first_match_wins (df : DataFrame) : Prop :=
  forall r, _photoelectric_lithology df PDPE = Ok r ->
  forall i x, In (i, x) (pe_data r) -> In (i, first_match x) (pe_lithology r).

Lemma find_snoc {A : Type} (p : A -> bool) (l : list A) (a : A) :
  find p (l ++ [a]) =
  match find p l with
  | Some r => Some r
  | None => if p a then Some a else None
  end.
Proof.
  induction l as [|b l IH]; simpl; [reflexivity|].
  destruct (p b); [reflexivity | exact IH].
Qed.

(** A loop of overwriting assignments keeps the last one that applied. *)
Lemma overwrite_loop_last {A L : Type} (p : A -> bool) (name : A -> L) (l : list A) (acc : option L) :
  fold_left (fun acc r => if p r then Some (name r) else acc) l acc =
  match find p (rev l) with
  | Some r => Some (name r)
  | None => acc
  end.
Proof.
  revert acc. induction l as [|a l IH]; intro acc; simpl; [reflexivity|].
  rewrite IH, find_snoc.
  destruct (find p (rev l)); [reflexivity|].
  destruct (p a); reflexivity.
Qed.

(** The masked assignments over the whole series act row by row. *)
Lemma masked_loop_rowwise {A B L : Type} (inr : B -> A -> bool) (name : A -> L)
      (ranges : list A) (data : list B) (lith0 : list (option L)) :
  length lith0 = length data ->
  fold_left (fun lith r => assign_mask lith (map (fun p => inr p r) data) (name r))
            ranges lith0 =
  map (fun lp => fold_left (fun acc r => if inr (snd lp) r then Some (name r) else acc)
                           ranges (fst lp))
      (combine lith0 data).
Proof.
  revert lith0. induction ranges as [|r ranges IH]; intros lith0 Hlen; simpl.
  - revert data Hlen. induction lith0 as [|l lith0 IHl]; intros [|d data] Hlen;
      simpl in *; try reflexivity; try discriminate.
    f_equal. apply IHl. lia.
  - rewrite IH.
    + rewrite assign_mask_map, combine_map_fst_snd by assumption.
      rewrite map_map. reflexivity.
    + rewrite assign_mask_map, length_map, length_combine. lia.
Qed.

Lemma photoelectric_rowwise (df : DataFrame) (col : string) (s : Series) :
  getitem df col = Ok s ->
  _photoelectric_lithology df col =
  Ok (mkPEResult (map (fun p => (fst p, last_match (snd p))) (dropna s)) (dropna s)).
Proof.
  intro Hget. unfold _photoelectric_lithology. rewrite Hget. cbn [bind].
  do 2 f_equal.
  rewrite (masked_loop_rowwise (fun p r => in_pe_range (snd p) r) fst)
    by now rewrite length_map.
  unfold fillna. rewrite combine_const_l, !map_map.
  rewrite <- combine_fst_map. f_equal.
  apply map_ext. intro p. cbn [fst snd].
  rewrite overwrite_loop_last. unfold last_match.
  destruct (find (in_pe_range (snd p)) (rev pe_ranges)); reflexivity.
Qed.

(** C1 (as amended): in the photoelectric-factor classification every valid
    sample gets the label of the LAST range of the table, in its declared
    order, that contains its PE value (each range's assignment overwrites the
    earlier ones), and [Unknown] exactly when no range contains it. *)
Theorem photoelectric_last_match_wins (df : DataFrame) (col : string) (s : Series) :
  getitem df col = Ok s ->
  exists r,
    _photoelectric_lithology df col = Ok r /\
    pe_data r = dropna s /\
    pe_lithology r = map (fun p => (fst p, last_match (snd p))) (dropna s) /\
    (forall i x, In (i, x) (pe_data r) ->
       In (i, last_match x) (pe_lithology r) /\
       (last_match x = Unknown <->
        forall rg, In rg pe_ranges -> in_pe_range x rg = false)).
Proof.
  intro Hget. eexists. split; [apply photoelectric_rowwise; eassumption|].
  cbn [pe_data pe_lithology]. repeat split; try reflexivity.
  - apply in_map_iff. exists (i, x). split; [reflexivity | assumption].
  - unfold last_match. intros Hu rg Hin.
    destruct (find (in_pe_range x) (rev pe_ranges)) as [r0|] eqn:E.
    + apply find_some in E. destruct E as [Hin0 _].
      rewrite <- in_rev in Hin0. simpl in Hin0.
      repeat (destruct Hin0 as [<- | Hin0]; [discriminate Hu|]). contradiction.
    + apply (find_none _ _ E). now rewrite <- in_rev.
  - unfold last_match. intro Hnone.
    destruct (find (in_pe_range x) (rev pe_ranges)) as [r0|] eqn:E; [|reflexivity].
    apply find_some in E. destruct E as [Hin0 Hp].
    rewrite <- in_rev in Hin0. rewrite (Hnone _ Hin0) in Hp. discriminate.
Qed.

Definition frame_c1 : DataFrame := mkDataFrame 3 [(PDPE, [Fin (31#10); NaN; Fin 4])].

Lemma photoelectric_last_match_wins_witness :
  getitem frame_c1 PDPE = Ok [Fin (31#10); NaN; Fin 4] /\
  exists r,
    _photoelectric_lithology frame_c1 PDPE = Ok r /\
    pe_data r = dropna [Fin (31#10); NaN; Fin 4] /\
    pe_lithology r =
      map (fun p => (fst p, last_match (snd p))) (dropna [Fin (31#10); NaN; Fin 4]) /\
    (forall i x, In (i, x) (pe_data r) ->
       In (i, last_match x) (pe_lithology r) /\
       (last_match x = Unknown <->
        forall rg, In rg pe_ranges -> in_pe_range x rg = false)).
Proof.
  split; [reflexivity|].
  apply (photoelectric_last_match_wins frame_c1 PDPE). reflexivity.
Defined.

(** C1 (as stated) fails: a PE value of 3.1 lies in the Dolomite range
    (3.0, 3.2) and in the later Clay/Shale range (2.8, 3.3); the first
    matching range is Dolomite and the sample is labeled Clay/Shale. *)
Lemma photoelectric_first_match_fails :
  _photoelectric_lithology frame_c1 PDPE =
    Ok (mkPEResult [(0%nat, ClayShale); (2%nat, Unknown)]
                   [(0%nat, Fin (31#10)); (2%nat, Fin 4)]) /\
  first_match (Fin (31#10)) = Dolomite /\
  ~ first_match_wins frame_c1.
Proof.
  split; [reflexivity|]. split; [reflexivity|].
  intro H. specialize (H _ eq_refl 0%nat (Fin (31#10))).
  simpl in H. destruct H as [H | [H | []]]; [now left | discriminate | discriminate].
Qed.

(** Under the overwriting loop the Dolomite range, which lies inside the
    later Clay/Shale range, never labels a sample. *)
Lemma photoelectric_never_dolomite (x : fval) : last_match x <> Dolomite.
Proof.
  unfold last_match. simpl.
  destruct x as [q| | |]; simpl; try discriminate.
  unfold in_pe_range, fgeb, fleb; simpl.
  destruct (Qle_bool (46#10) q) eqn:E1, (Qle_bool q (48#10)) eqn:E2; simpl; try discriminate;
  destruct (Qle_bool (50#10) q) eqn:E3, (Qle_bool q (51#10)) eqn:E4; simpl; try discriminate;
  destruct (Qle_bool (28#10) q) eqn:E5, (Qle_bool q (33#10)) eqn:E6; simpl; try discriminate;
  destruct (Qle_bool (30#10) q) eqn:E7, (Qle_bool q (32#10)) eqn:E8; simpl; try discriminate;
  repeat match goal with
         | H : Qle_bool _ _ = true |- _ => apply Qle_bool_iff in H
         | H : Qle_bool _ _ = false |- _ => apply Qle_bool_false_iff in H
         end; try lra;
  destruct (Qle_bool (50#10) q), (Qle_bool q (52#10)); simpl; try discriminate;
  destruct (Qle_bool (18#10) q), (Qle_bool q (19#10)); simpl; discriminate.
Qed.

(** Under a first-match policy it would be the Anhydrite range, which lies
    inside the earlier Calcite/Limestone range, that never labels a sample:
    the table has a shadowed entry under either policy. *)
Lemma first_match_never_anhydrite (x : fval) : first_match x <> Anhydrite.
Proof.
  unfold first_match. simpl.
  destruct x as [q| | |]; simpl; try discriminate.
  unfold in_pe_range, fgeb, fleb; simpl.
  destruct (Qle_bool (18#10) q), (Qle_bool q (19#10)); simpl; try discriminate;
  destruct (Qle_bool (50#10) q) eqn:E1, (Qle_bool q (52#10)) eqn:E2; simpl; try discriminate;
  destruct (Qle_bool (30#10) q), (Qle_bool q (32#10)); simpl; try discriminate;
  destruct (Qle_bool (28#10) q), (Qle_bool q (33#10)); simpl; try discriminate;
  destruct (Qle_bool q (51#10)) eqn:E3; simpl;
  repeat match goal with
         | H : Qle_bool _ _ = true |- _ => apply Qle_bool_iff in H
         | H : Qle_bool _ _ = false |- _ => apply Qle_bool_false_iff in H
         end; try lra;
  destruct (Qle_bool (46#10) q), (Qle_bool q (48#10)); simpl; discriminate.
Qed.

(** ** Facts about the arithmetic of values *)

Lemma fdiv_fin (a b : Q) : ~ b == 0 -> fdiv (Fin a) (Fin b) = Fin (a / b).
Proof.
  intro Hb. unfold fdiv.
  destruct (Qeq_bool b 0) eqn:E; [|reflexivity].
  apply Qeq_bool_iff in E. contradiction.
Qed.

Lemma fltb_fin (a b : Q) : fltb (Fin a) (Fin b) = true <-> a < b.
Proof. apply Qlt_bool_iff. Qed.

Lemma fleb_fin (a b : Q) : fleb (Fin a) (Fin b) = true <-> a <= b.
Proof. apply Qle_bool_iff. Qed.

(** The clip of a finite value is finite, within the bounds, and is the
    value itself when that is within the bounds. *)
Lemma fclip_fin (lower upper q : Q) :
  lower <= upper ->
  exists c, fclip lower upper (Fin q) = Fin c /\ lower <= c <= upper /\
            (q <= lower -> c == lower) /\ (upper <= q -> c == upper) /\
            (lower <= q <= upper -> c == q).
Proof.
  intro Hb. unfold fclip, fgtb, fltb.
  destruct (Qlt_bool q lower) eqn:E1.
  - apply Qlt_bool_iff in E1. exists lower. repeat split; try lra.
  - apply Qlt_bool_false_iff in E1.
    destruct (Qlt_bool upper q) eqn:E2.
    + apply Qlt_bool_iff in E2. exists upper. repeat split; try lra.
    + apply Qlt_bool_false_iff in E2. exists q. repeat split; try lra.
Qed.

(** A clipped value is NaN or within the bounds, whatever the input. *)
Lemma fclip_range (lower upper : Q) (x : fval) :
  lower <= upper ->
  fclip lower upper x = NaN \/
  exists c, fclip lower upper x = Fin c /\ lower <= c <= upper.
Proof.
  intro Hb. destruct x as [q| | |].
  - right. destruct (fclip_fin lower upper q Hb) as (c & Hc & Hr & _). eauto.
  - right. exists upper. split; [reflexivity | lra].
  - right. exists lower. split; [reflexivity | lra].
  - left. reflexivity.
Qed.

Lemma nth_error_combine {A B : Type} (l : list A) (d : list B) (i : nat) (a : A) (b : B) :
  nth_error l i = Some a -> nth_error d i = Some b ->
  nth_error (combine l d) i = Some (a, b).
Proof.
  revert d i. induction l as [|x l IH]; intros [|y d] [|i] Ha Hb;
    simpl in *; try discriminate.
  - congruence.
  - now apply IH.
Qed.

(** ** C4 and C2: porosity *)

Lemma density_porosity_fin (d : Q) :
  exists qd, density_porosity (Fin d) = Fin qd /\ 0 <= qd <= 1#2 /\
             (qd == 0 <-> rho_matrix <= d).
Proof.
  unfold density_porosity. cbn [fsub fneg fadd].
  rewrite fdiv_fin by (unfold rho_matrix, rho_fluid; lra).
  destruct (fclip_fin 0 (1#2) ((rho_matrix + - d) / (rho_matrix - rho_fluid)))
    as (c & Hc & Hr & Hlo & Hhi & Hmid); [lra|].
  exists c. split; [exact Hc|]. split; [exact Hr|].
  unfold rho_matrix, rho_fluid in *.
  assert (E : (265 # 100) - 1 == 165 # 100) by lra.
  assert (Hdiv : ((265 # 100) + - d) / ((265 # 100) - 1) == ((265 # 100) - d) * (100 # 165)).
  { rewrite E. unfold Qdiv. unfold Qminus. apply Qmult_comp; [reflexivity|].
    reflexivity. }
  rewrite Hdiv in Hlo, Hhi, Hmid.
  split.
  - intro H0. destruct (Qlt_le_dec d (265 # 100)) as [Hlt|Hge]; [|exact Hge].
    destruct (Qlt_le_dec (1 # 2) (((265 # 100) - d) * (100 # 165))) as [Hbig|Hsmall].
    + assert (c == 1 # 2) by (apply Hhi; lra). lra.
    + assert (c == ((265 # 100) - d) * (100 # 165)) by (apply Hmid; lra). lra.
  - intro Hge. apply Hlo. lra.
Qed.

Lemma neutron_porosity_fin (n : Q) :
  exists qn, neutron_porosity (Fin n) = Fin qn /\ 0 <= qn <= 1#2 /\
             (qn == 0 <-> n <= 0).
Proof.
  unfold neutron_porosity.
  rewrite fdiv_fin by lra.
  destruct (fclip_fin 0 (1#2) (n / 100)) as (c & Hc & Hr & Hlo & Hhi & Hmid); [lra|].
  exists c. split; [exact Hc|]. split; [exact Hr|].
  assert (Hdiv : n / 100 == n * (1 # 100)) by (unfold Qdiv; reflexivity).
  rewrite Hdiv in Hlo, Hhi, Hmid.
  split.
  - intro H0. destruct (Qlt_le_dec 0 n) as [Hlt|Hge]; [|exact Hge].
    destruct (Qlt_le_dec (1 # 2) (n * (1 # 100))) as [Hbig|Hsmall].
    + assert (c == 1 # 2) by (apply Hhi; lra). lra.
    + assert (c == n * (1 # 100)) by (apply Hmid; lra). lra.
  - intro Hle. apply Hlo. lra.
Qed.

(** One row of the porosity computation on finite readings. *)
Lemma porosity_row (n d : Q) :
  exists qd qn qc qk,
    density_porosity (Fin d) = Fin qd /\
    neutron_porosity (Fin n) = Fin qn /\
    combined_porosity (Fin qd) (Fin qn) = Fin qc /\
    corrected_porosity (Fin qd) (Fin qn) = Fin qk /\
    0 <= qd <= 1#2 /\ 0 <= qn <= 1#2 /\ 0 <= qc <= 1#2 /\ 0 <= qk <= 1#2 /\
    qc == (qd + qn) / 2 /\
    (gas_effect (Fin qd) (Fin qn) = true <-> qn < qd - (4#100)) /\
    (gas_effect (Fin qd) (Fin qn) = true -> qk = qd) /\
    (gas_effect (Fin qd) (Fin qn) = false -> qk = qc) /\
    (qk == 0 <-> rho_matrix <= d /\ n <= 0).
Proof.
  destruct (density_porosity_fin d) as (qd & Hd & Hrd & Hzd).
  destruct (neutron_porosity_fin n) as (qn & Hn & Hrn & Hzn).
  assert (Hc : combined_porosity (Fin qd) (Fin qn) = Fin ((qd + qn) / 2)).
  { unfold combined_porosity. cbn [fadd]. apply fdiv_fin. lra. }
  assert (Hhalf : (qd + qn) / 2 == (qd + qn) * (1 # 2)) by (unfold Qdiv; reflexivity).
  assert (Hg : gas_effect (Fin qd) (Fin qn) = true <-> qn < qd - (4#100)).
  { unfold gas_effect. cbn [fsub fneg fadd]. rewrite fltb_fin.
    split; intro H; lra. }
  destruct (Bool.bool_dec (gas_effect (Fin qd) (Fin qn)) true) as [G|G].
  - assert (Hk : corrected_porosity (Fin qd) (Fin qn) = Fin qd)
      by (unfold corrected_porosity; now rewrite G).
    assert (Hlt : qn < qd - (4#100)) by now apply Hg.
    assert (Hz : qd == 0 <-> rho_matrix <= d /\ n <= 0).
    { split; [intro H0; lra | intros [H1 _]; now apply Hzd]. }
    exists qd, qn, ((qd + qn) / 2), qd.
    split; [exact Hd|]. split; [exact Hn|]. split; [exact Hc|]. split; [exact Hk|].
    split; [exact Hrd|]. split; [exact Hrn|]. split; [lra|]. split; [exact Hrd|].
    split; [reflexivity|]. split; [exact Hg|]. split; [intro; reflexivity|].
    split; [intro; congruence | exact Hz].
  - apply not_true_is_false in G.
    assert (Hk : corrected_porosity (Fin qd) (Fin qn) = Fin ((qd + qn) / 2))
      by (unfold corrected_porosity; now rewrite G).
    assert (Hge : ~ qn < qd - (4#100)) by (rewrite <- Hg; congruence).
    assert (Hz : (qd + qn) / 2 == 0 <-> rho_matrix <= d /\ n <= 0).
    { split.
      - intro H0. split; [apply Hzd | apply Hzn]; lra.
      - intros [H1 H2]. apply Hzd in H1. apply Hzn in H2. lra. }
    exists qd, qn, ((qd + qn) / 2), ((qd + qn) / 2).
    split; [exact Hd|]. split; [exact Hn|]. split; [exact Hc|]. split; [exact Hk|].
    split; [exact Hrd|]. split; [exact Hrn|]. split; [lra|]. split; [lra|].
    split; [reflexivity|]. split; [exact Hg|]. split; [intro; congruence|].
    split; [intro; reflexivity | exact Hz].
Qed.

Lemma getitem_has_column (df : DataFrame) (name : string) (s : Series) :
  getitem df name = Ok s -> has_column df name = true.
Proof.
  unfold getitem, has_column.
  destruct (lookup_column (columns df) name); [reflexivity | discriminate].
Qed.

Lemma has_column_getitem (df : DataFrame) (name : string) :
  has_column df name = true -> exists s, getitem df name = Ok s.
Proof.
  unfold getitem, has_column.
  destruct (lookup_column (columns df) name) as [s|]; [eauto | discriminate].
Qed.

Lemma calculate_porosity_rows (df : DataFrame) (nprl rhob : Series) :
  getitem df NPRL = Ok nprl -> getitem df DEN = Ok rhob ->
  _calculate_porosity df =
  Ok (Some (mkPorosityResult
              (map density_porosity rhob)
              (map neutron_porosity nprl)
              (map (fun r => combined_porosity (fst r) (snd r))
                   (combine (map density_porosity rhob) (map neutron_porosity nprl)))
              (map (fun r => corrected_porosity (fst r) (snd r))
                   (combine (map density_porosity rhob) (map neutron_porosity nprl)))
              (map (fun r => gas_effect (fst r) (snd r))
                   (combine (map density_porosity rhob) (map neutron_porosity nprl))))).
Proof.
  intros Hn Hd. unfold _calculate_porosity.
  rewrite (getitem_has_column _ _ _ Hn), (getitem_has_column _ _ _ Hd), Hn, Hd.
  reflexivity.
Qed.

(** C4: at every sample with finite density and neutron readings the
    density, neutron, combined and gas-corrected porosities all lie in
    [0, 0.5]; the sample is flagged as gas-affected exactly when the neutron
    porosity is below the density porosity minus 0.04, and the corrected
    value is the density porosity at flagged samples and the combined value
    (the mean of the two) elsewhere. *)
Theorem porosity_clip_invariant (df : DataFrame) (nprl rhob : Series) (i : nat) (n d : Q) :
  getitem df NPRL = Ok nprl -> getitem df DEN = Ok rhob ->
  nth_error nprl i = Some (Fin n) -> nth_error rhob i = Some (Fin d) ->
  exists r qd qn qc qk g,
    _calculate_porosity df = Ok (Some r) /\
    nth_error (phi_density r) i = Some (Fin qd) /\
    nth_error (phi_neutron r) i = Some (Fin qn) /\
    nth_error (phi_combined r) i = Some (Fin qc) /\
    nth_error (phi_corrected r) i = Some (Fin qk) /\
    nth_error (gas_flag r) i = Some g /\
    0 <= qd <= 1#2 /\ 0 <= qn <= 1#2 /\ 0 <= qc <= 1#2 /\ 0 <= qk <= 1#2 /\
    qc == (qd + qn) / 2 /\
    (g = true <-> qn < qd - (4#100)) /\
    (g = true -> qk = qd) /\
    (g = false -> qk = qc).
Proof.
  intros Hn Hd Hin Hid.
  destruct (porosity_row n d)
    as (qd & qn & qc & qk & Ed & En & Ec & Ek & Rd & Rn & Rc & Rk & Hc & Hg & Hg1 & Hg0 & _).
  assert (Hrow : nth_error (combine (map density_porosity rhob) (map neutron_porosity nprl)) i
                 = Some (Fin qd, Fin qn)).
  { apply nth_error_combine.
    - rewrite nth_error_map, Hid. simpl. now rewrite Ed.
    - rewrite nth_error_map, Hin. simpl. now rewrite En. }
  eexists _, qd, qn, qc, qk, (gas_effect (Fin qd) (Fin qn)).
  split; [apply calculate_porosity_rows; eassumption|].
  cbn [phi_density phi_neutron phi_combined phi_corrected gas_flag].
  split; [rewrite nth_error_map, Hid; simpl; now rewrite Ed|].
  split; [rewrite nth_error_map, Hin; simpl; now rewrite En|].
  split; [rewrite nth_error_map, Hrow; simpl; now rewrite Ec|].
  split; [rewrite nth_error_map, Hrow; simpl; now rewrite Ek|].
  split; [rewrite nth_error_map, Hrow; reflexivity|].
  repeat (split; [assumption|]). assumption.
Qed.

Definition frame_c4 : DataFrame :=
  mkDataFrame 2 [(NPRL, [Fin 20; Fin 10]); (DEN, [Fin (24#10); Fin (22#10)])].

Lemma porosity_clip_invariant_witness :
  exists r qd qn qc qk g,
    _calculate_porosity frame_c4 = Ok (Some r) /\
    nth_error (phi_density r) 1 = Some (Fin qd) /\
    nth_error (phi_neutron r) 1 = Some (Fin qn) /\
    nth_error (phi_combined r) 1 = Some (Fin qc) /\
    nth_error (phi_corrected r) 1 = Some (Fin qk) /\
    nth_error (gas_flag r) 1 = Some g /\
    0 <= qd <= 1#2 /\ 0 <= qn <= 1#2 /\ 0 <= qc <= 1#2 /\ 0 <= qk <= 1#2 /\
    qc == (qd + qn) / 2 /\
    (g = true <-> qn < qd - (4#100)) /\
    (g = true -> qk = qd) /\
    (g = false -> qk = qc).
Proof.
  apply (porosity_clip_invariant frame_c4 [Fin 20; Fin 10] [Fin (24#10); Fin (22#10)]
           1 10 (22#10)); reflexivity.
Defined.

Lemma calculate_net_to_gross_total (df : DataFrame) :
  exists r, _calculate_net_to_gross df = Ok r.
Proof.
  unfold _calculate_net_to_gross.
  destruct (has_column df GGCE) eqn:E; simpl; [|eauto].
  destruct (has_column_getitem _ _ E) as [s Hs]. rewrite Hs. simpl. eauto.
Qed.

Lemma formation_factor_of_fin (q : Q) :
  (q == 0 -> formation_factor_of (Fin q) = PInf) /\
  (~ q == 0 -> formation_factor_of (Fin q) = Fin (1 / (q * q))).
Proof.
  unfold formation_factor_of, archie_a. cbn [fmul]. unfold fdiv. split; intro H.
  - assert (E : Qeq_bool (q * q) 0 = true) by (apply Qeq_bool_iff; rewrite H; reflexivity).
    rewrite E. reflexivity.
  - destruct (Qeq_bool (q * q) 0) eqn:E; [|reflexivity].
    apply Qeq_bool_iff in E. exfalso. apply H.
    destruct (Qmult_integral _ _ E); assumption.
Qed.

Lemma Qsquare_pos (p : Q) : ~ p == 0 -> 0 < p * p.
Proof.
  intro Hp. destruct (Qlt_le_dec 0 p) as [H|H].
  - apply Qmult_lt_0_compat; assumption.
  - assert (Hn : 0 < - p).
    { destruct (Qle_lt_or_eq _ _ H) as [Hlt|Heq]; [lra | contradiction]. }
    assert (E : p * p == (- p) * (- p)) by ring.
    rewrite E. apply Qmult_lt_0_compat; assumption.
Qed.

Section Saturation.

Variable pow_half : Q -> Q.

Lemma calculate_water_saturation_rows (df : DataFrame) (rt : Series) (pd : PorosityResult) :
  getitem df RTAT = Ok rt ->
  _calculate_water_saturation pow_half df (Some pd) =
  Ok (Some (mkWaterSaturation
              (map (fun r => water_saturation_of pow_half (fst r) (snd r))
                   (combine (map formation_factor_of (phi_corrected pd)) rt))
              (map (fun s => fsub (Fin 1) s)
                   (map (fun r => water_saturation_of pow_half (fst r) (snd r))
                        (combine (map formation_factor_of (phi_corrected pd)) rt)))
              (map formation_factor_of (phi_corrected pd)))).
Proof.
  intro Hrt. unfold _calculate_water_saturation.
  rewrite (getitem_has_column _ _ _ Hrt), Hrt. reflexivity.
Qed.

(** With the three curves present the property pass computes the porosity
    and hands it to the water saturation. *)
Lemma petrophysical_calculations_saturation (df : DataFrame) (nprl rhob rt : Series) :
  getitem df NPRL = Ok nprl -> getitem df DEN = Ok rhob -> getitem df RTAT = Ok rt ->
  exists pr ws ntg,
    _calculate_porosity df = Ok (Some pr) /\
    _calculate_water_saturation pow_half df (Some pr) = Ok (Some ws) /\
    petrophysical_calculations pow_half df = Ok (mkPetroResults (Some (Some pr)) (Some (Some ws)) ntg).
Proof.
  intros Hn Hd Hrt.
  pose proof (calculate_porosity_rows df nprl rhob Hn Hd) as Hp.
  eexists. eexists.
  destruct (calculate_net_to_gross_total df) as [rn Hrn].
  exists (if has_column df GGCE then Some rn else None).
  split; [exact Hp|].
  split; [apply calculate_water_saturation_rows; exact Hrt|].
  unfold petrophysical_calculations.
  rewrite (getitem_has_column _ _ _ Hn), (getitem_has_column _ _ _ Hd),
    (getitem_has_column _ _ _ Hrt), Hp.
  cbn [andb bind].
  rewrite (calculate_water_saturation_rows df rt _ Hrt). cbn [bind].
  destruct (has_column df GGCE); [rewrite Hrn|]; reflexivity.
Qed.

(** The claim of the specification: whenever the water saturation is
    computed, no finite porosity entering [F = a / phi ** m] is zero. *)
Definition porosity_never_zero (df : DataFrame) : Prop :=
  forall res pr ws,
    petrophysical_calculations pow_half df = Ok res ->
    porosity res = Some (Some pr) ->
    water_saturation res = Some (Some ws) ->
    forall i q, nth_error (phi_corrected pr) i = Some (Fin q) -> ~ q == 0.

(** C2 (as amended): whenever the water saturation is computed, the
    corrected porosity entering [F = a / phi ** m] at a sample with finite
    readings lies in [0, 0.5] (the clip keeps 0) and is exactly 0 precisely
    when the bulk density is at least 2.65 and the neutron reading is at most
    0; the division is then by zero and the formation factor is +infinity,
    and it is finite at every other such sample. *)
Theorem corrected_porosity_zero_iff (df : DataFrame) (nprl rhob rt : Series)
        (i : nat) (n d : Q) :
  getitem df NPRL = Ok nprl -> getitem df DEN = Ok rhob -> getitem df RTAT = Ok rt ->
  nth_error nprl i = Some (Fin n) -> nth_error rhob i = Some (Fin d) ->
  exists res pr ws qk,
    petrophysical_calculations pow_half df = Ok res /\
    porosity res = Some (Some pr) /\
    water_saturation res = Some (Some ws) /\
    nth_error (phi_corrected pr) i = Some (Fin qk) /\
    nth_error (formation_factor ws) i = Some (formation_factor_of (Fin qk)) /\
    0 <= qk <= 1#2 /\
    (qk == 0 <-> rho_matrix <= d /\ n <= 0) /\
    (qk == 0 -> formation_factor_of (Fin qk) = PInf) /\
    (~ qk == 0 -> formation_factor_of (Fin qk) = Fin (1 / (qk * qk))).
Proof.
  intros Hn Hd Hrt Hin Hid.
  destruct (petrophysical_calculations_saturation df nprl rhob rt Hn Hd Hrt)
    as (pr & ws & ntg & Hp & Hw & Hres).
  destruct (porosity_row n d)
    as (qd & qn & qc & qk & Ed & En & Ec & Ek & Rd & Rn & Rc & Rk & Hc & Hg & Hg1 & Hg0 & Hz).
  rewrite (calculate_porosity_rows df nprl rhob Hn Hd) in Hp.
  injection Hp as <-.
  rewrite (calculate_water_saturation_rows df rt _ Hrt) in Hw.
  injection Hw as <-.
  assert (Hk : nth_error
                 (map (fun r => corrected_porosity (fst r) (snd r))
                      (combine (map density_porosity rhob) (map neutron_porosity nprl))) i
               = Some (Fin qk)).
  { rewrite nth_error_map.
    rewrite (nth_error_combine _ _ i (Fin qd) (Fin qn)).
    - simpl. now rewrite Ek.
    - rewrite nth_error_map, Hid. simpl. now rewrite Ed.
    - rewrite nth_error_map, Hin. simpl. now rewrite En. }
  eexists _, _, _, qk.
  split; [exact Hres|].
  cbn [porosity water_saturation phi_corrected formation_factor].
  split; [reflexivity|]. split; [reflexivity|].
  split; [exact Hk|].
  split; [cbn [formation_factor]; rewrite nth_error_map, Hk; reflexivity|].
  split; [exact Rk|]. split; [exact Hz|].
  apply formation_factor_of_fin.
Qed.

(** ** C9: water saturation *)

(** One row of the saturation computation: a finite porosity and a finite,
    non-negative resistivity. *)
Lemma water_saturation_row (p r : Q) :
  0 <= r ->
  exists s,
    water_saturation_of pow_half (formation_factor_of (Fin p)) (Fin r) = Fin s /\
    0 <= s <= 1.
Proof.
  intro Hr. unfold water_saturation_of.
  destruct (formation_factor_of_fin p) as [Hz Hnz].
  destruct (Qeq_dec p 0) as [Hp|Hp].
  - rewrite (Hz Hp).
    change (fmul (Fin rw) PInf) with PInf.
    cbn [fdiv fneg].
    assert (E : Qlt_bool r 0 = false) by now apply Qlt_bool_false_iff.
    rewrite E. exists 1. split; [reflexivity | lra].
  - rewrite (Hnz Hp). cbn [fmul].
    pose proof (Qsquare_pos p Hp) as Hsq.
    assert (HF : 0 < rw * (1 / (p * p))).
    { unfold rw. apply Qmult_lt_0_compat; [lra|].
      unfold Qdiv. rewrite Qmult_1_l. now apply Qinv_lt_0_compat. }
    unfold fdiv.
    destruct (Qeq_bool r 0) eqn:Er.
    + assert (Ec : (rw * (1 / (p * p)) ?= 0) = Gt) by (apply Qgt_alt; exact HF).
      rewrite Ec. exists 1. split; [reflexivity | lra].
    + assert (Hrpos : 0 < r).
      { destruct (Qle_lt_or_eq _ _ Hr) as [Hlt|Heq]; [exact Hlt|].
        assert (Qeq_bool r 0 = true) by (apply Qeq_bool_iff; now symmetry).
        congruence. }
      assert (Harg : 0 <= rw * (1 / (p * p)) / r).
      { apply Qlt_le_weak. unfold Qdiv at 1.
        apply Qmult_lt_0_compat; [exact HF | now apply Qinv_lt_0_compat]. }
      unfold fpow_half.
      assert (E : Qlt_bool (rw * (1 / (p * p)) / r) 0 = false)
        by now apply Qlt_bool_false_iff.
      rewrite E.
      destruct (fclip_fin 0 1 (pow_half (rw * (1 / (p * p)) / r))) as (c & Hc & Hrange & _);
        [lra|].
      exists c. split; assumption.
Qed.

(** C9: at every sample where the porosity is a finite value and the true
    resistivity a finite, non-negative reading, the water saturation is a
    finite value in [0, 1], the hydrocarbon saturation is returned next to
    it, and the two sum to exactly 1. *)
Theorem saturations_sum_to_one (df : DataFrame) (rt : Series) (pd : PorosityResult)
        (i : nat) (p r : Q) :
  getitem df RTAT = Ok rt ->
  nth_error (phi_corrected pd) i = Some (Fin p) ->
  nth_error rt i = Some (Fin r) ->
  0 <= r ->
  exists ws s h,
    _calculate_water_saturation pow_half df (Some pd) = Ok (Some ws) /\
    nth_error (sw ws) i = Some (Fin s) /\
    nth_error (sh ws) i = Some (Fin h) /\
    0 <= s <= 1 /\
    s + h == 1.
Proof.
  intros Hrt Hp Hr Hpos.
  destruct (water_saturation_row p r Hpos) as (s & Hs & Hrange).
  assert (Hsw : nth_error
                  (map (fun x => water_saturation_of pow_half (fst x) (snd x))
                       (combine (map formation_factor_of (phi_corrected pd)) rt)) i
                = Some (Fin s)).
  { rewrite nth_error_map.
    rewrite (nth_error_combine _ _ i (formation_factor_of (Fin p)) (Fin r)).
    - simpl. now rewrite Hs.
    - now rewrite nth_error_map, Hp.
    - exact Hr. }
  eexists _, s, (1 + - s).
  split; [apply calculate_water_saturation_rows; exact Hrt|].
  split; [cbn [sw]; exact Hsw|].
  split; [cbn [sh]; rewrite nth_error_map, Hsw; reflexivity|].
  split; [exact Hrange | ring].
Qed.

(** A negative resistivity next to a positive porosity leaves the domain
    of the power: the saturation is NaN there. *)
Lemma water_saturation_negative_resistivity (p r : Q) :
  ~ p == 0 -> r < 0 ->
  water_saturation_of pow_half (formation_factor_of (Fin p)) (Fin r) = NaN.
Proof.
  intros Hp Hr. unfold water_saturation_of.
  destruct (formation_factor_of_fin p) as [_ Hnz]. rewrite (Hnz Hp). cbn [fmul].
  rewrite fdiv_fin by lra.
  pose proof (Qsquare_pos p Hp) as Hsq.
  assert (HF : 0 < rw * (1 / (p * p))).
  { unfold rw. apply Qmult_lt_0_compat; [lra|].
    unfold Qdiv. rewrite Qmult_1_l. now apply Qinv_lt_0_compat. }
  assert (Hneg : rw * (1 / (p * p)) / r < 0).
  { assert (Hi : 0 < / (- r)) by (apply Qinv_lt_0_compat; lra).
    assert (E : rw * (1 / (p * p)) / r == - (rw * (1 / (p * p)) * / (- r))).
    { field. lra. }
    rewrite E.
    assert (0 < rw * (1 / (p * p)) * / (- r)) by (apply Qmult_lt_0_compat; assumption).
    lra. }
  unfold fpow_half.
  assert (E : Qlt_bool (rw * (1 / (p * p)) / r) 0 = true) by now apply Qlt_bool_iff.
  rewrite E. reflexivity.
Qed.

End Saturation.

(** ** C10: net-to-gross *)

Lemma values_dropna (s : Series) :
  values (dropna s) = filter (fun x => negb (isna x)) s.
Proof.
  unfold values, dropna, indexed. generalize 0%nat.
  induction s as [|x s IH]; intro k; simpl; [reflexivity|].
  destruct (isna x); simpl; now rewrite IH.
Qed.

Lemma count_true_map {A : Type} (f : A -> bool) (l : list A) :
  count_true (map f l) = length (filter f l).
Proof.
  unfold count_true. induction l as [|a l IH]; simpl; [reflexivity|].
  destruct (f a); simpl; now rewrite IH.
Qed.

(** The valid gamma-ray readings strictly below the cutoff. *)
Definition below_cutoff (gr : Series) : nat :=
  length (filter (fun x => fltb x (Fin gr_cutoff)) (values (dropna gr))).

Lemma below_cutoff_all (gr : Series) :
  below_cutoff gr = length (filter (fun x => fltb x (Fin gr_cutoff)) gr).
Proof.
  unfold below_cutoff. rewrite values_dropna.
  induction gr as [|x gr IH]; simpl; [reflexivity|].
  destruct x; simpl; try (destruct (Qlt_bool q gr_cutoff); simpl); now rewrite IH.
Qed.

Lemma below_cutoff_le_count (gr : Series) :
  (below_cutoff gr <= count gr <= length gr)%nat.
Proof.
  unfold below_cutoff, count. split.
  - unfold values. rewrite <- (length_map snd (dropna gr)). apply filter_length_le.
  - unfold dropna. etransitivity; [apply filter_length_le|].
    unfold indexed. rewrite length_combine, length_seq. lia.
Qed.

Lemma Qnat_pos (n : nat) : (0 < n)%nat -> 0 < Qnat n.
Proof.
  intro H. unfold Qnat. change 0 with (inject_Z 0). rewrite <- Zlt_Qlt. lia.
Qed.

(** C10: a null gamma-ray reading is never flagged as net, yet it counts in
    the gross thickness: the gross thickness is half the number N of
    samples, the net thickness half the number b of valid readings strictly
    below 75, and the ratio is b/N (0 for an empty store), where b is at
    most the number v of valid readings and v at most N. *)
Theorem net_to_gross_counts_nulls_in_gross (df : DataFrame) (gr : Series) :
  getitem df GGCE = Ok gr ->
  exists r,
    _calculate_net_to_gross df = Ok (Some r) /\
    length (net_flag r) = length gr /\
    (forall i, nth_error gr i = Some NaN -> nth_error (net_flag r) i = Some false) /\
    (forall i q, nth_error gr i = Some (Fin q) ->
                 nth_error (net_flag r) i = Some (Qlt_bool q 75)) /\
    gross_thickness r == Qnat (length gr) * (1#2) /\
    net_thickness r == Qnat (below_cutoff gr) * (1#2) /\
    (below_cutoff gr <= count gr <= length gr)%nat /\
    (length gr = 0%nat -> ntg_ratio r == 0) /\
    (length gr <> 0%nat -> ntg_ratio r == Qnat (below_cutoff gr) / Qnat (length gr)).
Proof.
  intro Hget. unfold _calculate_net_to_gross.
  rewrite (getitem_has_column _ _ _ Hget), Hget. cbn [negb bind].
  eexists. split; [reflexivity|].
  cbn [net_flag gross_thickness net_thickness ntg_ratio].
  rewrite count_true_map, <- below_cutoff_all.
  split; [apply length_map|].
  split; [intros i Hi; rewrite nth_error_map, Hi; reflexivity|].
  split; [intros i q Hi; rewrite nth_error_map, Hi; reflexivity|].
  split; [reflexivity|]. split; [reflexivity|].
  split; [apply below_cutoff_le_count|].
  split.
  - intro H0. rewrite H0. reflexivity.
  - intro Hne.
    assert (Hpos : 0 < Qnat (length gr)) by (apply Qnat_pos; lia).
    assert (E : Qlt_bool 0 (Qnat (length gr) * (1 # 2)) = true).
    { apply Qlt_bool_iff. lra. }
    rewrite E. field. lra.
Qed.

Definition frame_c10 : DataFrame :=
  mkDataFrame 4 [(GGCE, [Fin 50; NaN; Fin 80; NaN])].

Lemma net_to_gross_counts_nulls_in_gross_witness :
  exists r,
    _calculate_net_to_gross frame_c10 = Ok (Some r) /\
    length (net_flag r) = 4%nat /\
    (forall i, nth_error [Fin 50; NaN; Fin 80; NaN] i = Some NaN ->
               nth_error (net_flag r) i = Some false) /\
    (forall i q, nth_error [Fin 50; NaN; Fin 80; NaN] i = Some (Fin q) ->
                 nth_error (net_flag r) i = Some (Qlt_bool q 75)) /\
    gross_thickness r == Qnat 4 * (1#2) /\
    net_thickness r == Qnat (below_cutoff [Fin 50; NaN; Fin 80; NaN]) * (1#2) /\
    (below_cutoff [Fin 50; NaN; Fin 80; NaN] <= count [Fin 50; NaN; Fin 80; NaN] <= 4)%nat /\
    (4%nat = 0%nat -> ntg_ratio r == 0) /\
    (4%nat <> 0%nat ->
     ntg_ratio r == Qnat (below_cutoff [Fin 50; NaN; Fin 80; NaN]) / Qnat 4).
Proof.
  apply (net_to_gross_counts_nulls_in_gross frame_c10 [Fin 50; NaN; Fin 80; NaN]).
  reflexivity.
Defined.

(** On that store b = 1, v = 2 and N = 4: the ratio is 1/4, not b/v = 1/2. *)
Lemma net_to_gross_not_over_valid :
  exists r,
    _calculate_net_to_gross frame_c10 = Ok (Some r) /\
    ntg_ratio r == 1#4 /\
    ~ ntg_ratio r ==
      Qnat (below_cutoff [Fin 50; NaN; Fin 80; NaN]) / Qnat (count [Fin 50; NaN; Fin 80; NaN]).
Proof.
  eexists. split; [reflexivity|]. split; [reflexivity|]. discriminate.
Qed.

(** ** C6 and C7: neutron-density method *)

Lemma combine_seq_In {A : Type} (l : list A) (n k i : nat) (x : A) :
  (length l <= n)%nat ->
  In (i, x) (combine (seq k n) l) <-> (k <= i)%nat /\ nth_error l (i - k) = Some x.
Proof.
  revert n k. induction l as [|y l IH]; intros n k Hn.
  - destruct (seq k n); simpl; (split; [tauto|]); intros [_ H];
      destruct (i - k)%nat; discriminate.
  - destruct n as [|n]; [simpl in Hn; lia|]. simpl.
    rewrite IH by (simpl in Hn; lia). split.
    + intros [H | [H1 H2]].
      * inversion H; subst. split; [lia|]. now rewrite Nat.sub_diag.
      * split; [lia|]. replace (i - k)%nat with (S (i - S k)) by lia. exact H2.
    + intros [H1 H2]. destruct (Nat.eq_dec k i) as [->|Hne].
      * rewrite Nat.sub_diag in H2. simpl in H2. left. congruence.
      * right. split; [lia|].
        replace (i - k)%nat with (S (i - S k)) in H2 by lia. exact H2.
Qed.

Lemma nth_error_combine_iff {A B : Type} (l : list A) (d : list B) (i : nat) (a : A) (b : B) :
  nth_error (combine l d) i = Some (a, b) <->
  nth_error l i = Some a /\ nth_error d i = Some b.
Proof.
  revert d i. induction l as [|x l IH]; intros [|y d] [|i]; simpl;
    try (split; [discriminate | intros [H1 H2]; discriminate]).
  - split; [intro H; inversion H; tauto | intros [H1 H2]; congruence].
  - apply IH.
Qed.

(** A row is in [df[[a, b]].dropna()] exactly when both columns hold a
    reading there. *)
Lemma dropna2_In (a b : Series) (i : nat) (x y : fval) :
  In (i, (x, y)) (dropna2 a b) <->
  nth_error a i = Some x /\ nth_error b i = Some y /\ isna x = false /\ isna y = false.
Proof.
  unfold dropna2. rewrite filter_In. cbn [fst snd].
  rewrite combine_seq_In by (rewrite length_combine; lia).
  rewrite Nat.sub_0_r, nth_error_combine_iff, andb_true_iff, !negb_true_iff.
  split; [tauto | intros (H1 & H2 & H3 & H4); repeat split; auto; lia].
Qed.

(** [min] with a key returns an element whose key no other element's key is
    below, when the keys are finite. *)
Lemma min_by_minimal {A : Type} (key : A -> fval) (kq : A -> Q) (l : list A) (best : A) :
  (forall x, In x (best :: l) -> key x = Fin (kq x)) ->
  In (min_by key best l) (best :: l) /\
  (forall x, In x (best :: l) -> kq (min_by key best l) <= kq x).
Proof.
  revert best. induction l as [|y l IH]; intros best Hk.
  - simpl. split; [now left|]. intros x [<- | []]. lra.
  - cbn [min_by].
    assert (Hy : key y = Fin (kq y)) by (apply Hk; right; now left).
    assert (Hb : key best = Fin (kq best)) by (apply Hk; now left).
    rewrite Hy, Hb. cbn [fltb].
    destruct (Qlt_bool (kq y) (kq best)) eqn:E.
    + apply Qlt_bool_iff in E.
      destruct (IH y) as [Hin Hmin].
      { intros x Hx. apply Hk. right. exact Hx. }
      split.
      * right. exact Hin.
      * intros x [<- | Hx]; [|now apply Hmin].
        specialize (Hmin y (or_introl eq_refl)). lra.
    + apply Qlt_bool_false_iff in E.
      destruct (IH best) as [Hin Hmin].
      { intros x [<- | Hx]; apply Hk; [now left | right; now right]. }
      split.
      * destruct Hin as [<- | Hin]; [now left | right; now right].
      * intros x [<- | [<- | Hx]].
        -- apply Hmin. now left.
        -- specialize (Hmin best (or_introl eq_refl)). lra.
        -- apply Hmin. now right.
Qed.

Definition finite_key (x : label * fval) : Q :=
  match snd x with Fin q => q | _ => 0 end.

Section NeutronDensity.

Variable np_sqrt : Q -> Q.

(** The label of a valid row is the one [nd_label] computes, and a row has
    one label only. *)
Lemma neutron_density_rowwise (df : DataFrame) (nphi_col rhob_col : string)
      (a b : Series) (i : nat) (x y : fval) :
  getitem df nphi_col = Ok a -> getitem df rhob_col = Ok b ->
  nth_error a i = Some x -> nth_error b i = Some y ->
  isna x = false -> isna y = false ->
  exists r,
    _neutron_density_lithology np_sqrt df nphi_col rhob_col = Ok (Some r) /\
    In (i, nd_label np_sqrt (fdiv x (Fin 100)) y) (nd_lithology r) /\
    (forall l, In (i, l) (nd_lithology r) -> l = nd_label np_sqrt (fdiv x (Fin 100)) y).
Proof.
  intros Ha Hb Hx Hy Nx Ny.
  assert (Hin : In (i, (x, y)) (dropna2 a b)) by (apply dropna2_In; tauto).
  unfold _neutron_density_lithology. rewrite Ha, Hb. cbn [bind].
  assert (Hlen : (length (dropna2 a b) =? 0)%nat = false)
    by (destruct (dropna2 a b); [contradiction | reflexivity]).
  rewrite Hlen.
  eexists. split; [reflexivity|]. cbn [nd_lithology]. split.
  - apply in_map_iff. exists (i, (x, y)). split; [reflexivity | exact Hin].
  - intros l Hl. apply in_map_iff in Hl. destruct Hl as ([j [x' y']] & Heq & Hin').
    cbn [fst snd] in Heq. inversion Heq; subst j l.
    apply dropna2_In in Hin'. destruct Hin' as (Hx' & Hy' & _).
    congruence.
Qed.

(** C6: in the neutron-density method every sample with both readings
    present whose bulk density is below 2.3 and whose neutron fraction
    (the reading over 100) is below 0.15 is labeled GasSand, whichever
    reference point is nearest. *)
Theorem gas_sand_override (df : DataFrame) (nphi_col rhob_col : string) (a b : Series)
        (i : nat) (qn qd : Q) :
  getitem df nphi_col = Ok a -> getitem df rhob_col = Ok b ->
  nth_error a i = Some (Fin qn) -> nth_error b i = Some (Fin qd) ->
  qd < 23#10 -> qn / 100 < 15#100 ->
  exists r,
    _neutron_density_lithology np_sqrt df nphi_col rhob_col = Ok (Some r) /\
    In (i, GasSand) (nd_lithology r) /\
    (forall l, In (i, l) (nd_lithology r) -> l = GasSand).
Proof.
  intros Ha Hb Hx Hy Hd Hn.
  destruct (neutron_density_rowwise df nphi_col rhob_col a b i (Fin qn) (Fin qd)
              Ha Hb Hx Hy eq_refl eq_refl) as (r & Hr & Hin & Huniq).
  assert (E : nd_label np_sqrt (fdiv (Fin qn) (Fin 100)) (Fin qd) = GasSand).
  { unfold nd_label. rewrite fdiv_fin by lra.
    assert (E1 : fltb (Fin qd) (Fin (23#10)) = true) by now apply fltb_fin.
    assert (E2 : fltb (Fin (qn / 100)) (Fin (15#100)) = true) by now apply fltb_fin.
    rewrite E1, E2. reflexivity. }
  rewrite E in Hin, Huniq. exists r. repeat split; assumption.
Qed.

(** The distance of the program from a sample to a reference point:
    [np.sqrt((nphi - m.nphi)**2 + (rhob - m.rhob)**2 * 0.1)]. *)
Definition weighted_distance (nphi rhob : Q) (m : Matrix) : Q :=
  np_sqrt ((nphi - m_nphi m) * (nphi - m_nphi m)
           + (rhob - m_rhob m) * (rhob - m_rhob m) * (1#10)).

Lemma matrix_distance_fin (nphi rhob : Q) (m : Matrix) :
  matrix_distance np_sqrt (Fin nphi) (Fin rhob) m = Fin (weighted_distance nphi rhob m).
Proof.
  unfold matrix_distance, weighted_distance. cbn [fsub fneg fadd fmul fsqrt].
  assert (Hsq : forall z : Q, 0 <= z * z).
  { intro z. destruct (Qeq_dec z 0) as [Hz|Hz].
    - rewrite Hz. lra.
    - apply Qlt_le_weak. now apply Qsquare_pos. }
  assert (E : Qlt_bool
                ((nphi + - m_nphi m) * (nphi + - m_nphi m)
                 + (rhob + - m_rhob m) * (rhob + - m_rhob m) * (1 # 10)) 0 = false).
  { apply Qlt_bool_false_iff.
    pose proof (Hsq (nphi + - m_nphi m)). pose proof (Hsq (rhob + - m_rhob m)). lra. }
  rewrite E. reflexivity.
Qed.

(** The label of a row with finite readings that the gas rule leaves
    alone: a reference point at the least distance. *)
Lemma nd_label_nearest (nphi rhob : Q) :
  ~ (rhob < 23#10 /\ nphi < 15#100) ->
  exists m,
    In (nd_label np_sqrt (Fin nphi) (Fin rhob), m) matrices /\
    (forall l' m', In (l', m') matrices ->
       weighted_distance nphi rhob m <= weighted_distance nphi rhob m').
Proof.
  intro Hgas. unfold nd_label.
  assert (G : fltb (Fin rhob) (Fin (23#10)) && fltb (Fin nphi) (Fin (15#100)) = false).
  { apply not_true_is_false. intro H. apply andb_true_iff in H.
    rewrite !fltb_fin in H. contradiction. }
  rewrite G.
  set (f := fun km : label * Matrix => (fst km, matrix_distance np_sqrt (Fin nphi) (Fin rhob) (snd km))).
  set (D := map f matrices).
  destruct D as [|d0 rest] eqn:ED; [discriminate ED|].
  assert (Hk : forall x, In x (d0 :: rest) -> snd x = Fin (finite_key x)).
  { intros x Hx. rewrite <- ED in Hx. apply in_map_iff in Hx.
    destruct Hx as (km & <- & _). unfold f, finite_key. cbn [snd].
    now rewrite matrix_distance_fin. }
  destruct (min_by_minimal snd finite_key rest d0 Hk) as [Hin Hmin].
  rewrite <- ED in Hin, Hmin.
  apply in_map_iff in Hin. destruct Hin as ([l m] & Hf & Hm).
  exists m. rewrite <- Hf. cbn [f fst snd]. split; [exact Hm|].
  intros l' m' Hm'.
  specialize (Hmin (f (l', m')) (in_map f _ _ Hm')).
  rewrite <- Hf in Hmin. unfold f, finite_key in Hmin. cbn [fst snd] in Hmin.
  now rewrite !matrix_distance_fin in Hmin.
Qed.

(** C7: in the neutron-density method a sample with finite readings that is
    not subject to the gas override gets the label of a reference point
    (Sandstone, Limestone, Dolomite, Anhydrite) whose distance
    sqrt((nphi - nphi_ref)^2 + 0.1 * (rhob - rhob_ref)^2) to the sample, the
    density term down-weighted by 0.1, is the least of the four. *)
Theorem nearest_matrix_label (df : DataFrame) (nphi_col rhob_col : string) (a b : Series)
        (i : nat) (qn qd : Q) :
  getitem df nphi_col = Ok a -> getitem df rhob_col = Ok b ->
  nth_error a i = Some (Fin qn) -> nth_error b i = Some (Fin qd) ->
  ~ (qd < 23#10 /\ qn / 100 < 15#100) ->
  exists r l m,
    _neutron_density_lithology np_sqrt df nphi_col rhob_col = Ok (Some r) /\
    In (i, l) (nd_lithology r) /\
    (forall l', In (i, l') (nd_lithology r) -> l' = l) /\
    In (l, m) matrices /\
    (forall l' m', In (l', m') matrices ->
       weighted_distance (qn / 100) qd m <= weighted_distance (qn / 100) qd m').
Proof.
  intros Ha Hb Hx Hy Hgas.
  destruct (neutron_density_rowwise df nphi_col rhob_col a b i (Fin qn) (Fin qd)
              Ha Hb Hx Hy eq_refl eq_refl) as (r & Hr & Hin & Huniq).
  rewrite fdiv_fin in Hin, Huniq by lra.
  destruct (nd_label_nearest (qn / 100) qd Hgas) as (m & Hm & Hmin).
  exists r, (nd_label np_sqrt (Fin (qn / 100)) (Fin qd)), m.
  repeat split; assumption.
Qed.

(** When the square root is strictly increasing the nearest reference point
    is the one nearest in density alone, the four points sharing their
    neutron coordinate: the weight of the density term, 0.1 on the square as
    the program has it or on the difference itself, does not change it. *)
Lemma nearest_matrix_nearest_density (nphi rhob : Q) (l : label) (m : Matrix) :
  (forall x y, 0 <= x -> x < y -> np_sqrt x < np_sqrt y) ->
  In (l, m) matrices ->
  (forall l' m', In (l', m') matrices ->
     weighted_distance nphi rhob m <= weighted_distance nphi rhob m') ->
  forall l' m', In (l', m') matrices ->
    (rhob - m_rhob m) * (rhob - m_rhob m) <= (rhob - m_rhob m') * (rhob - m_rhob m').
Proof.
  intros Hmono Hm Hmin l' m' Hm'.
  specialize (Hmin l' m' Hm').
  assert (Hn : m_nphi m = 0 /\ m_nphi m' = 0).
  { simpl in Hm, Hm'.
    split; [ repeat (destruct Hm as [Hm | Hm]; [inversion Hm; reflexivity|]); contradiction
           | repeat (destruct Hm' as [Hm' | Hm']; [inversion Hm'; reflexivity|]); contradiction ]. }
  destruct Hn as [Hn Hn']. unfold weighted_distance in Hmin. rewrite Hn, Hn' in Hmin.
  destruct (Qlt_le_dec ((rhob - m_rhob m') * (rhob - m_rhob m'))
                       ((rhob - m_rhob m) * (rhob - m_rhob m))) as [Hlt|Hle]; [|exact Hle].
  exfalso.
  assert (Hsq : forall z : Q, 0 <= z * z).
  { intro z. destruct (Qeq_dec z 0) as [Hz|Hz].
    - rewrite Hz. lra.
    - apply Qlt_le_weak. now apply Qsquare_pos. }
  pose proof (Hsq (nphi - 0)) as H1. pose proof (Hsq (rhob - m_rhob m')) as H2.
  assert (Hs : np_sqrt ((nphi - 0) * (nphi - 0) + (rhob - m_rhob m') * (rhob - m_rhob m') * (1 # 10))
               < np_sqrt ((nphi - 0) * (nphi - 0) + (rhob - m_rhob m) * (rhob - m_rhob m) * (1 # 10))).
  { apply Hmono; lra. }
  lra.
Qed.

(** With a square root that is increasing the nearest reference point stays
    the nearest under every positive weight [w] of the density term. *)
Lemma nearest_matrix_any_weight (nphi rhob w : Q) (l : label) (m : Matrix) :
  (forall x y, 0 <= x -> x < y -> np_sqrt x < np_sqrt y) ->
  (forall x y, x == y -> np_sqrt x == np_sqrt y) ->
  0 < w ->
  In (l, m) matrices ->
  (forall l' m', In (l', m') matrices ->
     weighted_distance nphi rhob m <= weighted_distance nphi rhob m') ->
  forall l' m', In (l', m') matrices ->
    np_sqrt ((nphi - m_nphi m) * (nphi - m_nphi m)
             + (rhob - m_rhob m) * (rhob - m_rhob m) * w)
    <= np_sqrt ((nphi - m_nphi m') * (nphi - m_nphi m')
                + (rhob - m_rhob m') * (rhob - m_rhob m') * w).
Proof.
  intros Hmono Hext Hw Hm Hmin l' m' Hm'.
  pose proof (nearest_matrix_nearest_density nphi rhob l m Hmono Hm Hmin l' m' Hm') as Hd.
  assert (Hn : m_nphi m = 0 /\ m_nphi m' = 0).
  { simpl in Hm, Hm'.
    split; [ repeat (destruct Hm as [Hm | Hm]; [inversion Hm; reflexivity|]); contradiction
           | repeat (destruct Hm' as [Hm' | Hm']; [inversion Hm'; reflexivity|]); contradiction ]. }
  destruct Hn as [-> ->].
  assert (Hsq : forall z : Q, 0 <= z * z).
  { intro z. destruct (Qeq_dec z 0) as [Hz|Hz].
    - rewrite Hz. lra.
    - apply Qlt_le_weak. now apply Qsquare_pos. }
  pose proof (Hsq (nphi - 0)) as H1. pose proof (Hsq (rhob - m_rhob m)) as H2.
  set (A := (rhob - m_rhob m) * (rhob - m_rhob m)) in *.
  set (B := (rhob - m_rhob m') * (rhob - m_rhob m')) in *.
  set (N := (nphi - 0) * (nphi - 0)) in *.
  assert (HAw : 0 <= A * w) by (apply Qmult_le_0_compat; lra).
  assert (HABw : A * w <= B * w) by (apply Qmult_le_compat_r; lra).
  destruct (Qle_lt_or_eq _ _ HABw) as [Hlt|Heq].
  - apply Qlt_le_weak. apply Hmono; lra.
  - rewrite (Hext (N + A * w) (N + B * w)); [lra|]. rewrite Heq. reflexivity.
Qed.

End NeutronDensity.

(** ** C5: gamma-ray method *)

Definition flt (x y : fval) : Prop := fltb x y = true.
Definition fle (x y : fval) : Prop := fleb x y = true.

(** The label the three masked assignments leave on a sample whose
    tertiary shale fraction is [v]. *)
Definition shale_class (v : fval) : option label :=
  if fgeb v (Fin (50#100)) then Some Shale
  else if fgeb v (Fin (15#100)) && fltb v (Fin (50#100)) then Some ShalySandstone
  else if fltb v (Fin (15#100)) then Some CleanSandstone
  else None.

Lemma assign_mask_same {A B : Type} (h : B -> option A) (g : B -> bool) (v : A) (d : list B) :
  assign_mask (map h d) (map g d) v = map (fun p => if g p then Some v else h p) d.
Proof.
  unfold assign_mask. induction d as [|b d IH]; simpl; [reflexivity|]. now rewrite IH.
Qed.

Lemma shale_class_thresholds (v : fval) :
  (shale_class v = Some CleanSandstone <-> flt v (Fin (15#100))) /\
  (shale_class v = Some ShalySandstone <->
     fle (Fin (15#100)) v /\ flt v (Fin (50#100))) /\
  (shale_class v = Some Shale <-> fle (Fin (50#100)) v).
Proof.
  unfold shale_class, flt, fle, fgeb.
  destruct v as [q| | |]; cbn [fleb fltb andb].
  - destruct (Qle_bool (50#100) q) eqn:E1, (Qle_bool (15#100) q) eqn:E2,
             (Qlt_bool q (50#100)) eqn:E3, (Qlt_bool q (15#100)) eqn:E4;
      cbn [andb];
      repeat match goal with
             | H : Qle_bool _ _ = true |- _ => apply Qle_bool_iff in H
             | H : Qle_bool _ _ = false |- _ => apply Qle_bool_false_iff in H
             | H : Qlt_bool _ _ = true |- _ => apply Qlt_bool_iff in H
             | H : Qlt_bool _ _ = false |- _ => apply Qlt_bool_false_iff in H
             end;
      try lra;
      (split; [|split]); split; try discriminate; try reflexivity;
      try (intros [? ?]; discriminate); try tauto.
  - repeat split; try discriminate; try reflexivity; intros [? ?]; discriminate.
  - repeat split; try discriminate; try reflexivity; intros [? ?]; discriminate.
  - repeat split; try discriminate; try reflexivity; intros [? ?]; discriminate.
Qed.

(** The normalized gamma-ray value of a reading [x] of the series [s]. *)
Definition gr_index (s : Series) (x : fval) : fval :=
  let gr_clean := quantile (5#100) (values (dropna s)) in
  let gr_shale := quantile (95#100) (values (dropna s)) in
  fclip 0 1 (fdiv (fsub x gr_clean) (fsub gr_shale gr_clean)).

Section GammaRay.

Variable exp2 : Q -> Q.

Lemma gamma_ray_rowwise (df : DataFrame) (col : string) (s : Series) :
  getitem df col = Ok s ->
  _gamma_ray_lithology exp2 df col =
  Ok (mkGammaRayResult
        (map (fun p => (fst p, shale_class (larionov_tertiary exp2 (gr_index s (snd p))))) (dropna s))
        (map (fun p => (fst p, larionov_tertiary exp2 (gr_index s (snd p)))) (dropna s))
        (map (fun p => (fst p, larionov_older exp2 (gr_index s (snd p)))) (dropna s))
        (quantile (5#100) (values (dropna s)))
        (quantile (95#100) (values (dropna s)))).
Proof.
  intro Hget. unfold _gamma_ray_lithology. rewrite Hget. cbn [bind].
  unfold values. rewrite !map_map.
  rewrite !assign_mask_same, !combine_fst_map.
  reflexivity.
Qed.

(** C5: in the gamma-ray method, for every valid sample, with G the value
    normalized between the 5th and 95th percentiles of the valid readings and
    clipped to [0, 1], and V = 0.083 (2^(3.7 G) - 1), the sample is labeled
    CleanSandstone iff V < 0.15, ShalySandstone iff 0.15 <= V < 0.50 and
    Shale iff V >= 0.50; the older-rock estimate 0.33 (2^(2 G) - 1) is
    returned next to V and the label is a function of V alone. *)
Theorem gamma_ray_thresholds (df : DataFrame) (col : string) (s : Series)
        (i : nat) (x : fval) :
  getitem df col = Ok s ->
  nth_error s i = Some x -> isna x = false ->
  exists r l,
    _gamma_ray_lithology exp2 df col = Ok r /\
    gr_clean r = quantile (5#100) (values (dropna s)) /\
    gr_shale r = quantile (95#100) (values (dropna s)) /\
    let G := fclip 0 1 (fdiv (fsub x (gr_clean r)) (fsub (gr_shale r) (gr_clean r))) in
    let V := fmul (Fin (83#1000)) (fsub (fexp2 exp2 (fmul (Fin (37#10)) G)) (Fin 1)) in
    let V_older := fmul (Fin (33#100)) (fsub (fexp2 exp2 (fmul (Fin 2) G)) (Fin 1)) in
    (G = NaN \/ exists g, G = Fin g /\ 0 <= g <= 1) /\
    In (i, V) (v_shale_tertiary r) /\
    In (i, V_older) (v_shale_older r) /\
    In (i, l) (gr_lithology r) /\
    (forall l', In (i, l') (gr_lithology r) -> l' = l) /\
    l = shale_class V /\
    (l = Some CleanSandstone <-> flt V (Fin (15#100))) /\
    (l = Some ShalySandstone <-> fle (Fin (15#100)) V /\ flt V (Fin (50#100))) /\
    (l = Some Shale <-> fle (Fin (50#100)) V).
Proof.
  intros Hget Hx Hna.
  assert (Hin : In (i, x) (dropna s)) by (apply dropna_In; tauto).
  eexists. exists (shale_class (larionov_tertiary exp2 (gr_index s x))).
  split; [apply gamma_ray_rowwise; exact Hget|].
  cbn [gr_clean gr_shale v_shale_tertiary v_shale_older gr_lithology].
  split; [reflexivity|]. split; [reflexivity|].
  cbv zeta. fold (gr_index s x).
  change (fmul (Fin (83#1000)) (fsub (fexp2 exp2 (fmul (Fin (37#10)) (gr_index s x))) (Fin 1)))
    with (larionov_tertiary exp2 (gr_index s x)).
  change (fmul (Fin (33#100)) (fsub (fexp2 exp2 (fmul (Fin 2) (gr_index s x))) (Fin 1)))
    with (larionov_older exp2 (gr_index s x)).
  split; [apply fclip_range; lra|].
  split; [apply in_map_iff; exists (i, x); split; [reflexivity | exact Hin]|].
  split; [apply in_map_iff; exists (i, x); split; [reflexivity | exact Hin]|].
  split; [apply in_map_iff; exists (i, x); split; [reflexivity | exact Hin]|].
  split.
  - intros l' Hl'. apply in_map_iff in Hl'. destruct Hl' as ([j y] & Heq & Hy).
    cbn [fst snd] in Heq. inversion Heq; subst j l'.
    apply dropna_In in Hy. destruct Hy as [Hy _].
    assert (y = x) by congruence. subst y. reflexivity.
  - split; [reflexivity|]. apply shale_class_thresholds.
Qed.

End GammaRay.

(** ** C3: the outlier pass on a curve with few valid values *)

Definition is_finite (x : fval) : bool :=
  match x with Fin _ => true | _ => false end.

(** A reading as ingested: a finite value or the null marker. *)
Definition finite_or_nan (x : fval) : bool :=
  match x with Fin _ | NaN => true | _ => false end.

Fixpoint sortedb (l : list fval) : bool :=
  match l with
  | x :: ((y :: _) as rest) => fleb x y && sortedb rest
  | _ => true
  end.

Lemma fleb_total_finite (x y : fval) :
  is_finite x = true -> is_finite y = true -> fleb x y = false -> fleb y x = true.
Proof.
  destruct x as [a| | |], y as [b| | |]; try discriminate. intros _ _ H.
  cbn [fleb] in *. apply Qle_bool_false_iff in H. apply Qle_bool_iff. lra.
Qed.

Lemma insert_sorted_perm (x : fval) (l : list fval) :
  Permutation (insert_sorted x l) (x :: l).
Proof.
  induction l as [|y l IH]; simpl; [reflexivity|].
  destruct (fleb x y); [reflexivity|].
  rewrite IH. apply perm_swap.
Qed.

Lemma sort_perm (l : list fval) : Permutation (sort l) l.
Proof.
  induction l as [|x l IH]; simpl; [reflexivity|].
  rewrite insert_sorted_perm. now constructor.
Qed.

Lemma insert_sorted_sortedb (x : fval) (l : list fval) :
  is_finite x = true -> forallb is_finite l = true ->
  sortedb l = true -> sortedb (insert_sorted x l) = true.
Proof.
  intros Hx. induction l as [|y l IH]; intros Hf Hs; [reflexivity|].
  cbn [forallb] in Hf. apply andb_true_iff in Hf. destruct Hf as [Hy Hf].
  cbn [insert_sorted]. destruct (fleb x y) eqn:E.
  - cbn [sortedb]. now rewrite E.
  - pose proof (fleb_total_finite x y Hx Hy E) as Hyx.
    destruct l as [|z l].
    + cbn [insert_sorted sortedb]. now rewrite Hyx.
    + cbn [sortedb] in Hs. apply andb_true_iff in Hs. destruct Hs as [Hyz Hs].
      assert (IH' : sortedb (insert_sorted x (z :: l)) = true).
      { apply IH; [exact Hf|]. exact Hs. }
      cbn [insert_sorted] in *. destruct (fleb x z) eqn:E2.
      * cbn [sortedb] in *. now rewrite Hyx, E2.
      * cbn [sortedb]. cbn [sortedb] in IH'. now rewrite Hyz, IH'.
Qed.

Lemma forallb_perm {A : Type} (p : A -> bool) (l l' : list A) :
  Permutation l l' -> forallb p l = forallb p l'.
Proof.
  intro H. induction H; simpl.
  - reflexivity.
  - now rewrite IHPermutation.
  - destruct (p x), (p y); reflexivity.
  - congruence.
Qed.

Lemma sort_sortedb (l : list fval) :
  forallb is_finite l = true -> sortedb (sort l) = true.
Proof.
  induction l as [|x l IH]; intro Hf; [reflexivity|].
  cbn [forallb] in Hf. apply andb_true_iff in Hf. destruct Hf as [Hx Hf].
  cbn [sort fold_right]. apply insert_sorted_sortedb; [exact Hx | | now apply IH].
  rewrite (forallb_perm _ _ _ (sort_perm l)). exact Hf.
Qed.

(** Sorting a sorted list leaves it as it is. *)
Lemma sort_sorted_id (l : list fval) : sortedb l = true -> sort l = l.
Proof.
  induction l as [|x l IH]; intro Hs; [reflexivity|].
  cbn [sort fold_right]. fold (sort l).
  destruct l as [|y l]; [reflexivity|].
  cbn [sortedb] in Hs. apply andb_true_iff in Hs. destruct Hs as [Hxy Hs].
  rewrite (IH Hs). cbn [insert_sorted]. now rewrite Hxy.
Qed.

Lemma quantile_sort (q : Q) (l : list fval) :
  forallb is_finite l = true -> quantile q (sort l) = quantile q l.
Proof.
  intro Hf. unfold quantile.
  rewrite (sort_sorted_id (sort l)) by now apply sort_sortedb.
  destruct l as [|x l]; [reflexivity|].
  destruct (sort (x :: l)) eqn:E; [|reflexivity].
  pose proof (Permutation_length (sort_perm (x :: l))) as Hlen.
  rewrite E in Hlen. discriminate.
Qed.

(** The test of the outlier mask on one value. *)
Definition is_outlier (q1 q3 x : fval) : bool :=
  fltb x (fsub q1 (fmul (Fin (3#2)) (fsub q3 q1)))
  || fgtb x (fadd q3 (fmul (Fin (3#2)) (fsub q3 q1))).

Ltac to_Q :=
  repeat match goal with
         | H : Qle_bool _ _ = true |- _ => apply Qle_bool_iff in H
         | H : Qle_bool _ _ = false |- _ => apply Qle_bool_false_iff in H
         | H : Qlt_bool _ _ = true |- _ => apply Qlt_bool_iff in H
         | H : Qlt_bool _ _ = false |- _ => apply Qlt_bool_false_iff in H
         end.

(** The two quartiles of one, two and three sorted values. *)
Lemma quartiles_of_one (x : fval) :
  lerp_position (1#4) [x] = fadd x (fmul (fsub x x) (Fin (0#4))) /\
  lerp_position (3#4) [x] = fadd x (fmul (fsub x x) (Fin (0#4))).
Proof. split; reflexivity. Qed.

Lemma quartiles_of_two (x y : fval) :
  lerp_position (1#4) [x; y] = fadd x (fmul (fsub y x) (Fin (1#4))) /\
  lerp_position (3#4) [x; y] = fadd x (fmul (fsub y x) (Fin (3#4))).
Proof. split; reflexivity. Qed.

Lemma quartiles_of_three (x y z : fval) :
  lerp_position (1#4) [x; y; z] = fadd x (fmul (fsub y x) (Fin (2#4))) /\
  lerp_position (3#4) [x; y; z] = fadd y (fmul (fsub z y) (Fin (2#4))).
Proof. split; reflexivity. Qed.

Lemma small_sorted_no_outlier (l : list fval) (x : fval) :
  forallb is_finite l = true -> sortedb l = true -> (length l < 4)%nat ->
  In x l ->
  is_outlier (quantile (1#4) l) (quantile (3#4) l) x = false.
Proof.
  intros Hf Hs Hlen Hx. unfold quantile.
  rewrite (sort_sorted_id l Hs).
  destruct l as [|[a| | |] [|[b| | |] [|[c| | |] [|d l]]]]; try discriminate Hf;
    try (simpl in Hlen; lia); try contradiction.
  - destruct (quartiles_of_one (Fin a)) as [-> ->].
    destruct Hx as [<- | []].
    unfold is_outlier, fgtb. cbn [fadd fsub fneg fmul fltb].
    apply orb_false_iff. split; apply Qlt_bool_false_iff; lra.
  - destruct (quartiles_of_two (Fin a) (Fin b)) as [-> ->].
    cbn [sortedb fleb andb] in Hs. rewrite andb_true_r in Hs. to_Q.
    unfold is_outlier, fgtb.
    destruct Hx as [<- | [<- | []]]; cbn [fadd fsub fneg fmul fltb];
      apply orb_false_iff; split; apply Qlt_bool_false_iff; lra.
  - destruct (quartiles_of_three (Fin a) (Fin b) (Fin c)) as [-> ->].
    cbn [sortedb fleb andb] in Hs. rewrite andb_true_r in Hs.
    apply andb_true_iff in Hs. destruct Hs as [H1 H2]. to_Q.
    unfold is_outlier, fgtb.
    destruct Hx as [<- | [<- | [<- | []]]]; cbn [fadd fsub fneg fmul fltb];
      apply orb_false_iff; split; apply Qlt_bool_false_iff; lra.
Qed.

Lemma fltb_nan_r (y : fval) : fltb y NaN = false.
Proof. destruct y; reflexivity. Qed.

Lemma valid_values_finite (col : Series) :
  forallb finite_or_nan col = true ->
  forallb is_finite (values (dropna col)) = true.
Proof.
  rewrite values_dropna. induction col as [|x col IH]; intro H; [reflexivity|].
  cbn [forallb] in H. apply andb_true_iff in H. destruct H as [Hx H].
  destruct x; try discriminate Hx; cbn [filter isna negb forallb is_finite andb]; auto.
Qed.

Lemma filter_nil_iff {A : Type} (p : A -> bool) (l : list A) :
  (forall x, In x l -> p x = false) -> filter p l = [].
Proof.
  induction l as [|a l IH]; intro H; [reflexivity|].
  simpl. rewrite (H a (or_introl eq_refl)). apply IH. intros x Hx. apply H. now right.
Qed.

(** The claim of the specification, by two of its consequences: on a curve
    with fewer than 4 valid values the outlier pass reports something about
    the curve, and it holds no computed quartile. *)
Definition insufficient_data_handled (c : string * Series) : Prop :=
  (count (snd c) < 4)%nat ->
  outlier_line c <> None /\
  Q1 (outlier_stats (snd c)) = NaN /\
  Q3 (outlier_stats (snd c)) = NaN.

(** A curve of finite or null readings with fewer than 4 valid values has
    no outlier under the IQR rule. *)
Lemma small_curve_no_outliers (col : Series) :
  forallb finite_or_nan col = true ->
  (count col < 4)%nat ->
  outliers (outlier_stats col) = 0%nat.
Proof.
  intros Hfin Hcount.
  set (vs := values (dropna col)).
  assert (Hlen : length vs = count col) by (unfold vs, values, count; apply length_map).
  pose proof (valid_values_finite col Hfin) as Hvs. fold vs in Hvs.
  assert (Hsl : length (sort vs) = count col)
    by (rewrite (Permutation_length (sort_perm vs)); exact Hlen).
  pose proof (sort_sortedb vs Hvs) as Hss.
  assert (Hsf : forallb is_finite (sort vs) = true)
    by (rewrite (forallb_perm _ _ _ (sort_perm vs)); exact Hvs).
  unfold outlier_stats. cbn [outliers]. fold vs.
  change (count_true (map (is_outlier (quantile (1#4) vs) (quantile (3#4) vs)) col) = 0%nat).
  rewrite count_true_map, filter_nil_iff; [reflexivity|].
  intros x Hx. destruct x as [a| | |].
  - rewrite <- (quantile_sort (1#4) vs Hvs), <- (quantile_sort (3#4) vs Hvs).
    apply small_sorted_no_outlier; try assumption; [lia|].
    apply (Permutation_in _ (Permutation_sym (sort_perm vs))).
    unfold vs. rewrite values_dropna. apply filter_In. split; [exact Hx | reflexivity].
  - rewrite forallb_forall in Hfin. specialize (Hfin _ Hx). discriminate.
  - rewrite forallb_forall in Hfin. specialize (Hfin _ Hx). discriminate.
  - unfold is_outlier, fgtb. cbn [fltb]. now rewrite fltb_nan_r.
Qed.

(** C3 (as amended): the quality assessor has no minimum number of valid
    values: for every curve of finite or null readings with fewer than 4
    valid values it computes the quartiles by the same interpolation (they
    are finite as soon as one value is valid, and NaN on a fully-null curve),
    counts the outliers, finds none, and reports nothing about the curve. *)
Theorem few_values_no_outlier_report (c : string * Series) :
  forallb finite_or_nan (snd c) = true ->
  (count (snd c) < 4)%nat ->
  Q1 (outlier_stats (snd c)) = quantile (1#4) (values (dropna (snd c))) /\
  Q3 (outlier_stats (snd c)) = quantile (3#4) (values (dropna (snd c))) /\
  (count (snd c) = 0%nat ->
     Q1 (outlier_stats (snd c)) = NaN /\ Q3 (outlier_stats (snd c)) = NaN) /\
  ((0 < count (snd c))%nat ->
     exists q1 q3, Q1 (outlier_stats (snd c)) = Fin q1 /\
                   Q3 (outlier_stats (snd c)) = Fin q3) /\
  outliers (outlier_stats (snd c)) = 0%nat /\
  outlier_line c = None.
Proof.
  destruct c as [name col]. cbn [snd]. intros Hfin Hcount.
  set (vs := values (dropna col)).
  assert (Hlen : length vs = count col) by (unfold vs, values, count; apply length_map).
  pose proof (valid_values_finite col Hfin) as Hvs. fold vs in Hvs.
  assert (Hsf : forallb is_finite (sort vs) = true)
    by (rewrite (forallb_perm _ _ _ (sort_perm vs)); exact Hvs).
  pose proof (sort_sortedb vs Hvs) as Hss.
  assert (Hsl : length (sort vs) = count col)
    by (rewrite (Permutation_length (sort_perm vs)); exact Hlen).
  pose proof (small_curve_no_outliers col Hfin Hcount) as Hout.
  split; [reflexivity|]. split; [reflexivity|].
  split; [|split; [|split]].
  - intro H0. unfold outlier_stats. cbn [Q1 Q3]. fold vs.
    destruct vs; [split; reflexivity | simpl in Hlen; lia].
  - intro Hpos. unfold outlier_stats. cbn [Q1 Q3]. fold vs.
    rewrite <- (quantile_sort (1#4) vs Hvs), <- (quantile_sort (3#4) vs Hvs).
    unfold quantile. rewrite (sort_sorted_id _ Hss).
    destruct (sort vs) as [|[a| | |] [|[b| | |] [|[cc| | |] [|d l]]]];
      try discriminate Hsf; try (simpl in Hsl; lia).
    + destruct (quartiles_of_one (Fin a)) as [-> ->]. cbn. eauto.
    + destruct (quartiles_of_two (Fin a) (Fin b)) as [-> ->]. cbn. eauto.
    + destruct (quartiles_of_three (Fin a) (Fin b) (Fin cc)) as [-> ->]. cbn. eauto.
  - exact Hout.
  - unfold outlier_line. cbn [snd]. rewrite Hout. reflexivity.
Qed.

Definition curve_c3 : string * Series := (GGCE, [Fin 1; NaN; Fin 3; Fin 2]).

Lemma few_values_no_outlier_report_witness :
  Q1 (outlier_stats (snd curve_c3)) = quantile (1#4) (values (dropna (snd curve_c3))) /\
  Q3 (outlier_stats (snd curve_c3)) = quantile (3#4) (values (dropna (snd curve_c3))) /\
  (count (snd curve_c3) = 0%nat ->
     Q1 (outlier_stats (snd curve_c3)) = NaN /\ Q3 (outlier_stats (snd curve_c3)) = NaN) /\
  ((0 < count (snd curve_c3))%nat ->
     exists q1 q3, Q1 (outlier_stats (snd curve_c3)) = Fin q1 /\
                   Q3 (outlier_stats (snd curve_c3)) = Fin q3) /\
  outliers (outlier_stats (snd curve_c3)) = 0%nat /\
  outlier_line curve_c3 = None.
Proof.
  apply (few_values_no_outlier_report curve_c3); [reflexivity | vm_compute; lia].
Defined.

(** C3 (as stated) fails: a curve with three valid values gets its quartiles
    computed (1.5 and 2.5) and an outlier count (0), and nothing at all is
    reported about it. *)
Lemma insufficient_data_not_reported :
  count (snd curve_c3) = 3%nat /\
  outlier_stats (snd curve_c3) = mkOutlierStats (Fin (6#4)) (Fin (10#4)) (Fin (16#16)) 0 /\
  outlier_line curve_c3 = None /\
  ~ insufficient_data_handled curve_c3.
Proof.
  split; [reflexivity|]. split; [reflexivity|]. split; [reflexivity|].
  intro H. destruct H as [H _]; [vm_compute; lia|]. apply H. reflexivity.
Qed.

(** On a frame all of whose curves have fewer than 4 valid values the
    outlier pass of the assessor prints nothing. *)
Lemma quality_assessment_small_curves_silent (df : DataFrame) :
  (forall c, In c (columns df) ->
     forallb finite_or_nan (snd c) = true /\ (count (snd c) < 4)%nat) ->
  snd (data_quality_assessment df) = [].
Proof.
  intro H. unfold data_quality_assessment. cbn [snd].
  induction (columns df) as [|c cols IH]; [reflexivity|].
  cbn [map filter_some].
  destruct (H c (or_introl eq_refl)) as [Hf Hc].
  unfold outlier_line at 1. rewrite (small_curve_no_outliers (snd c) Hf Hc).
  cbn [Nat.ltb Nat.leb]. apply IH. intros c' Hc'. apply H. now right.
Qed.

(** ** C8: the skip policy of the classification pass *)

Definition present_candidates (df : DataFrame) : list string :=
  filter (has_column df) candidate_curves.

Definition select_columns (df : DataFrame) (names : list string) : list Series :=
  filter_some (map (lookup_column (columns df)) names).

(** The joint valid samples of the candidate curves that are present. *)
Definition joint_rows (df : DataFrame) : ISeries (list fval) :=
  dropna_rows (nrows df) (select_columns df (present_candidates df)).

(** The readings of a frame as ingested: finite values and null markers. *)
Definition frame_finite (df : DataFrame) : Prop :=
  forall c, In c (columns df) -> forallb finite_or_nan (snd c) = true.

Lemma getitems_present (df : DataFrame) (names : list string) :
  getitems df (filter (has_column df) names) =
  Ok (select_columns df (filter (has_column df) names)).
Proof.
  unfold select_columns. induction names as [|n names IH]; [reflexivity|].
  cbn [filter]. destruct (has_column df n) eqn:E; [|exact IH].
  cbn [getitems map]. unfold getitem, has_column in *.
  destruct (lookup_column (columns df) n) as [s|]; [|discriminate].
  cbn [bind filter_some]. rewrite IH. reflexivity.
Qed.

Lemma lookup_column_In (cols : list (string * Series)) (name : string) (s : Series) :
  lookup_column cols name = Some s -> exists n, In (n, s) cols.
Proof.
  induction cols as [|[n c] cols IH]; [discriminate|]. cbn [lookup_column].
  destruct (String.eqb n name).
  - intro H. inversion H; subst. exists n. now left.
  - intro H. destruct (IH H) as [n' Hn']. exists n'. now right.
Qed.

Lemma select_columns_In (df : DataFrame) (names : list string) (s : Series) :
  In s (select_columns df names) -> exists n, In (n, s) (columns df).
Proof.
  unfold select_columns. induction names as [|n names IH]; [contradiction|].
  cbn [map filter_some].
  destruct (lookup_column (columns df) n) as [c|] eqn:E; [|exact IH].
  intros [<- | H]; [eapply lookup_column_In; eassumption | now apply IH].
Qed.

Lemma nth_finite_or_nan (c : Series) (i : nat) :
  forallb finite_or_nan c = true -> finite_or_nan (nth i c NaN) = true.
Proof.
  intro H. destruct (nth_in_or_default i c NaN) as [Hin | ->]; [|reflexivity].
  rewrite forallb_forall in H. now apply H.
Qed.

(** A joint valid row of a finite frame holds finite values only. *)
Lemma dropna_rows_finite (n : nat) (cols : list Series) (p : nat * list fval) :
  (forall c, In c cols -> forallb finite_or_nan c = true) ->
  In p (dropna_rows n cols) -> forallb is_finite (snd p) = true.
Proof.
  intros Hc Hp. unfold dropna_rows in Hp. apply filter_In in Hp.
  destruct Hp as [Hin Hna]. apply in_map_iff in Hin.
  destruct Hin as (i & <- & _). cbn [snd] in *.
  rewrite forallb_forall in *. intros x Hx.
  specialize (Hna x Hx). apply in_map_iff in Hx. destruct Hx as (c & <- & Hcin).
  pose proof (nth_finite_or_nan c i (Hc c Hcin)) as Hf.
  destruct (nth i c NaN); try discriminate; reflexivity.
Qed.

Lemma all_some_map_total {A B : Type} (f : A -> option B) (l : list A) :
  (forall x, In x l -> exists y, f x = Some y) ->
  exists r, all_some (map f l) = Some r /\ length r = length l.
Proof.
  induction l as [|a l IH]; intro H; [exists []; split; reflexivity|].
  destruct (H a (or_introl eq_refl)) as [y Hy].
  destruct IH as (r & Hr & Hlen); [intros x Hx; apply H; now right|].
  exists (y :: r). cbn [map all_some]. rewrite Hy, Hr. split; [reflexivity|].
  simpl. now rewrite Hlen.
Qed.

Lemma finite_matrix_total (X : list (list fval)) :
  (forall row, In row X -> forallb is_finite row = true) ->
  exists M, finite_matrix X = Some M /\ length M = length X.
Proof.
  intro H. unfold finite_matrix. apply all_some_map_total.
  intros row Hrow.
  destruct (all_some_map_total to_finite row) as (r & Hr & _); [|eauto].
  intros x Hx. specialize (H row Hrow). rewrite forallb_forall in H.
  specialize (H x Hx). destruct x; try discriminate. cbn. eauto.
Qed.

Lemma range2_In (stop k : nat) : In k (range2 stop) -> (2 <= k < stop)%nat.
Proof. unfold range2. rewrite in_seq. lia. Qed.

Lemma diff_length (l : list Q) : length (diff l) = (length l - 1)%nat.
Proof.
  induction l as [|a [|b l] IH]; try reflexivity.
  cbn [diff length] in *. rewrite IH. lia.
Qed.

Lemma argmax_from_bound (l : list Q) (i : nat) (best : Q) (best_i : nat) :
  (best_i < i)%nat -> (argmax_from l i best best_i < i + length l)%nat.
Proof.
  revert i best best_i. induction l as [|x l IH]; intros i best best_i H.
  - simpl. lia.
  - cbn [argmax_from length]. destruct (Qlt_bool best x).
    + specialize (IH (S i) x i). lia.
    + specialize (IH (S i) best best_i). lia.
Qed.

Lemma argmax_total (l : list Q) :
  l <> [] -> exists i, argmax l = Ok i /\ (i < length l)%nat.
Proof.
  destruct l as [|x l]; [congruence|]. intros _. cbn [argmax].
  eexists. split; [reflexivity|].
  pose proof (argmax_from_bound l 1 x 0). simpl. lia.
Qed.

Lemma set_iloc_total {A : Type} (l : list (option A)) (i : nat) (v : A) :
  (i < length l)%nat -> exists l', set_iloc l i v = Ok l' /\ length l' = length l.
Proof.
  revert i. induction l as [|x l IH]; intros i Hi; [simpl in Hi; lia|].
  destruct i as [|i]; cbn [set_iloc].
  - eexists. split; reflexivity.
  - destruct (IH i) as (l' & Hl' & Hlen); [simpl in Hi; lia|].
    rewrite Hl'. cbn [bind]. eexists. split; [reflexivity|]. simpl. now rewrite Hlen.
Qed.

Lemma assign_clusters_total (cs : list nat) (lith : list (option label)) (i : nat) :
  (i + length cs <= length lith)%nat ->
  exists l', assign_clusters lith i cs = Ok l' /\ length l' = length lith.
Proof.
  revert lith i. induction cs as [|c cs IH]; intros lith i H.
  - eexists. split; reflexivity.
  - cbn [assign_clusters].
    destruct (set_iloc_total lith i (Facies c)) as (l1 & Hl1 & Hlen1); [simpl in H; lia|].
    rewrite Hl1. cbn [bind].
    destruct (IH l1 (S i)) as (l2 & Hl2 & Hlen2); [simpl in H; lia|].
    exists l2. split; [exact Hl2 | congruence].
Qed.

Lemma photoelectric_total (df : DataFrame) (col : string) :
  has_column df col = true -> exists r, _photoelectric_lithology df col = Ok r.
Proof.
  intro H. destruct (has_column_getitem _ _ H) as [s Hs].
  eexists. apply photoelectric_rowwise. exact Hs.
Qed.

Section SkipPolicy.

Variables exp2 np_sqrt : Q -> Q.
Variable standardize : list (list Q) -> list (list Q).
Variable kmeans : nat -> list (list Q) -> list nat * Q.

(** scikit-learn's contract: one output row, and one cluster, per sample. *)
Hypothesis standardize_length : forall M, length (standardize M) = length M.
Hypothesis kmeans_length : forall k X, length (fst (kmeans k X)) = length X.

Lemma inertias_of_total (ks : list nat) (X : list (list Q)) :
  (forall k, In k ks -> (k <= length X)%nat) ->
  exists l, inertias_of kmeans ks X = Ok l /\ length l = length ks.
Proof.
  induction ks as [|k ks IH]; intro H; [exists []; split; reflexivity|].
  destruct IH as (l & Hl & Hlen); [intros k' Hk'; apply H; now right|].
  assert (Hk : (length X <? k)%nat = false).
  { apply Nat.ltb_ge. apply H. now left. }
  cbn [inertias_of]. unfold KMeans_fit. rewrite Hk. cbn [bind]. rewrite Hl. cbn [bind].
  eexists. split; [reflexivity|]. simpl. now rewrite Hlen.
Qed.

Lemma optimal_k_total (n : nat) (inertias : list Q) :
  (10 <= n)%nat ->
  length inertias = length (range2 (Nat.min 8 (n / 5))) ->
  exists k,
    (if (2 <? length inertias)%nat then
       i <- argmax (diff (diff inertias)) ;;
       range_getitem (range2 (Nat.min 8 (n / 5))) i
     else Ok 3%nat) = Ok k /\ (k <= n)%nat.
Proof.
  intros Hn Hlen. destruct (2 <? length inertias)%nat eqn:E.
  - apply Nat.ltb_lt in E.
    destruct (argmax_total (diff (diff inertias))) as (i & Hi & Hbound).
    { intro H0. apply (f_equal (@length Q)) in H0.
      rewrite !diff_length in H0. simpl in H0. lia. }
    rewrite Hi. cbn [bind]. rewrite !diff_length in Hbound.
    unfold range_getitem.
    destruct (nth_error (range2 (Nat.min 8 (n / 5))) i) as [k|] eqn:Ek.
    + exists k. split; [reflexivity|].
      apply nth_error_In, range2_In in Ek.
      pose proof (Nat.div_mod_eq n 5). lia.
    + apply nth_error_None in Ek. lia.
  - exists 3%nat. split; [reflexivity | lia].
Qed.

(** The clustering method never raises on a finite frame, and it returns a
    result exactly when two candidate curves are present and ten joint valid
    samples exist. *)
Lemma ml_clustering_total (df : DataFrame) :
  frame_finite df ->
  exists m,
    _ml_lithology_clustering standardize kmeans df = Ok m /\
    ((exists res, m = Some res) <->
     (2 <= length (present_candidates df))%nat /\ (10 <= length (joint_rows df))%nat).
Proof.
  intro Hfin. unfold _ml_lithology_clustering. fold (present_candidates df).
  destruct (length (present_candidates df) <? 2)%nat eqn:E1.
  { apply Nat.ltb_lt in E1. exists None. split; [reflexivity|].
    split; [intros [res H]; discriminate | lia]. }
  apply Nat.ltb_ge in E1.
  unfold present_candidates at 1. rewrite getitems_present. cbn [bind].
  fold (present_candidates df). fold (joint_rows df).
  destruct (length (joint_rows df) <? 10)%nat eqn:E2.
  { apply Nat.ltb_lt in E2. exists None. split; [reflexivity|].
    split; [intros [res H]; discriminate | lia]. }
  apply Nat.ltb_ge in E2.
  destruct (finite_matrix_total (values (joint_rows df))) as (M & HM & HlenM).
  { intros row Hrow. unfold values in Hrow. apply in_map_iff in Hrow.
    destruct Hrow as (p & <- & Hp).
    apply (dropna_rows_finite (nrows df) (select_columns df (present_candidates df))).
    - intros c Hc. apply select_columns_In in Hc. destruct Hc as [n Hc].
      apply (Hfin _ Hc).
    - exact Hp. }
  unfold values in HlenM. rewrite length_map in HlenM.
  unfold StandardScaler_fit_transform. rewrite HM. cbn [bind].
  assert (Hscaled : length (standardize M) = length (joint_rows df))
    by (rewrite standardize_length; exact HlenM).
  destruct (inertias_of_total (range2 (Nat.min 8 (length (joint_rows df) / 5)))
                              (standardize M)) as (inertias & Hi & Hleni).
  { intros k Hk. apply range2_In in Hk. rewrite Hscaled.
    pose proof (Nat.div_mod_eq (length (joint_rows df)) 5). lia. }
  rewrite Hi. cbn [bind].
  destruct (optimal_k_total (length (joint_rows df)) inertias E2 Hleni) as (k & Hk & Hkn).
  rewrite Hk. cbn [bind].
  assert (Hfit : KMeans_fit kmeans k (standardize M) = Ok (kmeans k (standardize M))).
  { unfold KMeans_fit.
    assert (E : (length (standardize M) <? k)%nat = false) by (apply Nat.ltb_ge; lia).
    now rewrite E. }
  rewrite Hfit. cbn [bind].
  destruct (assign_clusters_total (fst (kmeans k (standardize M)))
              (map (fun _ => None) (joint_rows df)) 0) as (lith & Hl & _).
  { rewrite kmeans_length, length_map, Hscaled. lia. }
  rewrite Hl. cbn [bind].
  eexists. split; [reflexivity|]. split; [intros _; lia | intros _; eauto].
Qed.

Lemma gamma_ray_total (df : DataFrame) (col : string) :
  has_column df col = true -> exists r, _gamma_ray_lithology exp2 df col = Ok r.
Proof.
  intro H. destruct (has_column_getitem _ _ H) as [s Hs].
  eexists. apply gamma_ray_rowwise. exact Hs.
Qed.

Lemma neutron_density_total (df : DataFrame) (a b : string) :
  has_column df a = true -> has_column df b = true ->
  exists r, _neutron_density_lithology np_sqrt df a b = Ok r.
Proof.
  intros Ha Hb.
  destruct (has_column_getitem _ _ Ha) as [sa Hsa].
  destruct (has_column_getitem _ _ Hb) as [sb Hsb].
  unfold _neutron_density_lithology. rewrite Hsa, Hsb. cbn [bind].
  destruct (length (dropna2 sa sb) =? 0)%nat; eauto.
Qed.

(** The claim of the specification about the pass: the clustering entry
    holds a result exactly when two candidate curves are present and ten
    joint valid samples exist. *)
Definition clustering_runs_when_applicable (df : DataFrame) : Prop :=
  forall r, lithology_identification exp2 np_sqrt standardize kmeans df = Ok r ->
    ((exists res, ml_clustering r = Some (Some res)) <->
     (2 <= length (present_candidates df))%nat /\ (10 <= length (joint_rows df))%nat).

(** C8 (as amended): on a frame of finite or null readings the
    classification pass never raises.  The clustering method itself returns
    a result exactly when at least two candidate curves are present and at
    least 10 joint valid samples exist, and None otherwise; the pass calls it
    only on a frame of at least three numeric columns, so its entry holds a
    result exactly when that gate holds too.  The entry of every other
    method is absent exactly when its curves are (GGCE and GR; NPRL or DEN;
    PDPE). *)
Theorem classification_pass_skips (df : DataFrame) :
  frame_finite df ->
  exists r m,
    lithology_identification exp2 np_sqrt standardize kmeans df = Ok r /\
    _ml_lithology_clustering standardize kmeans df = Ok m /\
    ((exists res, m = Some res) <->
     (2 <= length (present_candidates df))%nat /\ (10 <= length (joint_rows df))%nat) /\
    ((exists res, ml_clustering r = Some (Some res)) <->
     (3 <= numeric_columns df)%nat /\
     (2 <= length (present_candidates df))%nat /\ (10 <= length (joint_rows df))%nat) /\
    (gamma_ray r = None <-> has_column df GGCE = false /\ has_column df GR = false) /\
    (neutron_density r = None <-> has_column df NPRL = false \/ has_column df DEN = false) /\
    (photoelectric r = None <-> has_column df PDPE = false).
Proof.
  intro Hfin.
  destruct (ml_clustering_total df Hfin) as (m & Hm & Hiff).
  unfold lithology_identification.
  assert (Hg : exists rg,
             match (if has_column df GGCE then Some GGCE
                    else if has_column df GR then Some GR else None) with
             | Some c => r <- _gamma_ray_lithology exp2 df c ;; Ok (Some r)
             | None => Ok None
             end = Ok rg /\
             (rg = None <-> has_column df GGCE = false /\ has_column df GR = false)).
  { destruct (has_column df GGCE) eqn:E1.
    - destruct (gamma_ray_total df GGCE E1) as [r Hr]. rewrite Hr. cbn [bind].
      eexists. split; [reflexivity|]. split; [discriminate | intros [? _]; discriminate].
    - destruct (has_column df GR) eqn:E2.
      + destruct (gamma_ray_total df GR E2) as [r Hr]. rewrite Hr. cbn [bind].
        eexists. split; [reflexivity|]. split; [discriminate | intros [_ ?]; discriminate].
      + eexists. split; [reflexivity|]. tauto. }
  destruct Hg as (rg & -> & Hgiff). cbn [bind].
  assert (Hn : exists rn,
             (if has_column df NPRL && has_column df DEN
              then r <- _neutron_density_lithology np_sqrt df NPRL DEN ;; Ok (Some r)
              else Ok None) = Ok rn /\
             (rn = None <-> has_column df NPRL = false \/ has_column df DEN = false)).
  { destruct (has_column df NPRL) eqn:E1, (has_column df DEN) eqn:E2; cbn [andb];
      try (eexists; split; [reflexivity|]; tauto).
    destruct (neutron_density_total df NPRL DEN E1 E2) as [r Hr]. rewrite Hr. cbn [bind].
    eexists. split; [reflexivity|]. split; [discriminate | intros [?|?]; discriminate]. }
  destruct Hn as (rn & -> & Hniff). cbn [bind].
  assert (Hp : exists rp,
             (if has_column df PDPE
              then r <- _photoelectric_lithology df PDPE ;; Ok (Some r)
              else Ok None) = Ok rp /\
             (rp = None <-> has_column df PDPE = false)).
  { destruct (has_column df PDPE) eqn:E1.
    - destruct (photoelectric_total df PDPE E1) as [r Hr]. rewrite Hr. cbn [bind].
      eexists. split; [reflexivity|]. split; discriminate.
    - eexists. split; [reflexivity|]. tauto. }
  destruct Hp as (rp & -> & Hpiff). cbn [bind].
  rewrite Hm.
  destruct (3 <=? numeric_columns df)%nat eqn:E3; cbn [bind].
  - apply Nat.leb_le in E3.
    eexists _, m. split; [reflexivity|]. split; [reflexivity|].
    cbn [gamma_ray neutron_density photoelectric ml_clustering].
    split; [exact Hiff|]. split; [|tauto].
    split.
    + intros [res H]. inversion H; subst. split; [exact E3|]. apply Hiff. eauto.
    + intros [_ H]. apply Hiff in H. destruct H as [res ->]. eauto.
  - apply Nat.leb_gt in E3.
    eexists _, m. split; [reflexivity|]. split; [reflexivity|].
    cbn [gamma_ray neutron_density photoelectric ml_clustering].
    split; [exact Hiff|]. split; [|tauto].
    split; [intros [res H]; discriminate | lia].
Qed.

End SkipPolicy.

(** * Instances of the numeric routines

    Rational stand-ins for the routines of numpy and scikit-learn, on which
    the statements above are run on concrete stores. *)

(** The square root rounded down to a multiple of [1/den]: exact on the
    squares of rationals. *)
Definition sqrt_floor (q : Q) : Q :=
  Z.sqrt (Qnum q * Zpos (Qden q)) # Qden q.

(** [2 ** x] interpolated linearly between the integer exponents. *)
Definition exp2_interp (x : Q) : Q :=
  Qpower 2 (Qfloor x) * (1 + (x - inject_Z (Qfloor x))).

(** A scaler that leaves the matrix as it is, and a fit that puts every
    sample in cluster 0. *)
Definition unscaled (M : list (list Q)) : list (list Q) := M.

Definition single_cluster (k : nat) (X : list (list Q)) : list nat * Q :=
  (map (fun _ => 0%nat) X, 0).

Definition ten (x : fval) : Series := repeat x 10.

Definition frame_c2 : DataFrame :=
  mkDataFrame 2 [(NPRL, [Fin 0; Fin 20]); (DEN, [Fin (265#100); Fin (24#10)]);
                 (RTAT, [Fin 1; Fin 5])].

Lemma corrected_porosity_zero_iff_witness :
  exists res pr ws qk,
    petrophysical_calculations sqrt_floor frame_c2 = Ok res /\
    porosity res = Some (Some pr) /\
    water_saturation res = Some (Some ws) /\
    nth_error (phi_corrected pr) 1 = Some (Fin qk) /\
    nth_error (formation_factor ws) 1 = Some (formation_factor_of (Fin qk)) /\
    0 <= qk <= 1#2 /\
    (qk == 0 <-> rho_matrix <= 24#10 /\ 20 <= 0) /\
    (qk == 0 -> formation_factor_of (Fin qk) = PInf) /\
    (~ qk == 0 -> formation_factor_of (Fin qk) = Fin (1 / (qk * qk))).
Proof.
  apply (corrected_porosity_zero_iff sqrt_floor frame_c2
           [Fin 0; Fin 20] [Fin (265#100); Fin (24#10)] [Fin 1; Fin 5] 1 20 (24#10));
    reflexivity.
Defined.

(** C2 (as stated) fails: at a sample of bulk density 2.65 and neutron
    reading 0 both porosities clip to 0, the corrected porosity handed to the
    water saturation is exactly 0, and [F = a / phi ** m] divides by zero. *)
Lemma corrected_porosity_can_be_zero :
  (exists res pr ws q,
     petrophysical_calculations sqrt_floor frame_c2 = Ok res /\
     porosity res = Some (Some pr) /\
     water_saturation res = Some (Some ws) /\
     nth_error (phi_corrected pr) 0 = Some (Fin q) /\ q == 0 /\
     nth_error (formation_factor ws) 0 = Some PInf) /\
  ~ porosity_never_zero sqrt_floor frame_c2.
Proof.
  split.
  - do 4 eexists. repeat (split; [reflexivity|]). reflexivity.
  - intro H.
    apply (H _ _ _ eq_refl eq_refl eq_refl 0%nat _ eq_refl). reflexivity.
Qed.

Definition frame_c9 : DataFrame := mkDataFrame 1 [(RTAT, [Fin (4#10)])].

Definition porosity_c9 : PorosityResult :=
  mkPorosityResult [Fin (1#2)] [Fin (1#2)] [Fin (1#2)] [Fin (1#2)] [false].

Lemma saturations_sum_to_one_witness :
  exists ws s h,
    _calculate_water_saturation sqrt_floor frame_c9 (Some porosity_c9) = Ok (Some ws) /\
    nth_error (sw ws) 0 = Some (Fin s) /\
    nth_error (sh ws) 0 = Some (Fin h) /\
    0 <= s <= 1 /\
    s + h == 1.
Proof.
  apply (saturations_sum_to_one sqrt_floor frame_c9 [Fin (4#10)] porosity_c9 0 (1#2) (4#10));
    [reflexivity | reflexivity | reflexivity | lra].
Defined.

Definition frame_c6 : DataFrame :=
  mkDataFrame 2 [(NPRL, [Fin 10; Fin 30]); (DEN, [Fin (22#10); Fin (27#10)])].

Lemma gas_sand_override_witness :
  exists r,
    _neutron_density_lithology sqrt_floor frame_c6 NPRL DEN = Ok (Some r) /\
    In (0%nat, GasSand) (nd_lithology r) /\
    (forall l, In (0%nat, l) (nd_lithology r) -> l = GasSand).
Proof.
  apply (gas_sand_override sqrt_floor frame_c6 NPRL DEN
           [Fin 10; Fin 30] [Fin (22#10); Fin (27#10)] 0 10 (22#10));
    [reflexivity | reflexivity | reflexivity | reflexivity | reflexivity | reflexivity].
Defined.

Lemma nearest_matrix_label_witness :
  exists r l m,
    _neutron_density_lithology sqrt_floor frame_c6 NPRL DEN = Ok (Some r) /\
    In (1%nat, l) (nd_lithology r) /\
    (forall l', In (1%nat, l') (nd_lithology r) -> l' = l) /\
    In (l, m) matrices /\
    (forall l' m', In (l', m') matrices ->
       weighted_distance sqrt_floor (30 / 100) (27#10) m
       <= weighted_distance sqrt_floor (30 / 100) (27#10) m').
Proof.
  apply (nearest_matrix_label sqrt_floor frame_c6 NPRL DEN
           [Fin 10; Fin 30] [Fin (22#10); Fin (27#10)] 1 30 (27#10));
    [reflexivity | reflexivity | reflexivity | reflexivity |].
  intros [_ H]. vm_compute in H. discriminate H.
Defined.

Definition frame_c5 : DataFrame :=
  mkDataFrame 4 [(GGCE, [Fin 20; Fin 60; NaN; Fin 120])].

Lemma gamma_ray_thresholds_witness :
  exists r l,
    _gamma_ray_lithology exp2_interp frame_c5 GGCE = Ok r /\
    gr_clean r = quantile (5#100) (values (dropna [Fin 20; Fin 60; NaN; Fin 120])) /\
    gr_shale r = quantile (95#100) (values (dropna [Fin 20; Fin 60; NaN; Fin 120])) /\
    let G := fclip 0 1 (fdiv (fsub (Fin 60) (gr_clean r))
                             (fsub (gr_shale r) (gr_clean r))) in
    let V := fmul (Fin (83#1000))
                  (fsub (fexp2 exp2_interp (fmul (Fin (37#10)) G)) (Fin 1)) in
    let V_older := fmul (Fin (33#100))
                        (fsub (fexp2 exp2_interp (fmul (Fin 2) G)) (Fin 1)) in
    (G = NaN \/ exists g, G = Fin g /\ 0 <= g <= 1) /\
    In (1%nat, V) (v_shale_tertiary r) /\
    In (1%nat, V_older) (v_shale_older r) /\
    In (1%nat, l) (gr_lithology r) /\
    (forall l', In (1%nat, l') (gr_lithology r) -> l' = l) /\
    l = shale_class V /\
    (l = Some CleanSandstone <-> flt V (Fin (15#100))) /\
    (l = Some ShalySandstone <-> fle (Fin (15#100)) V /\ flt V (Fin (50#100))) /\
    (l = Some Shale <-> fle (Fin (50#100)) V).
Proof.
  apply (gamma_ray_thresholds exp2_interp frame_c5 GGCE [Fin 20; Fin 60; NaN; Fin 120]
           1 (Fin 60)); reflexivity.
Defined.

(** Three curves, two of them candidates, over ten complete samples. *)
Definition frame_c8 : DataFrame :=
  mkDataFrame 10 [(GGCE, ten (Fin 60)); (DEN, ten (Fin (25#10)));
                  ("SPCG"%string, ten (Fin 1))].

(** The two candidate curves alone over the same ten samples. *)
Definition frame_c8_two : DataFrame :=
  mkDataFrame 10 [(GGCE, ten (Fin 60)); (DEN, ten (Fin (25#10)))].

Lemma frame_c8_finite : frame_finite frame_c8.
Proof.
  intros c Hc. simpl in Hc.
  repeat (destruct Hc as [<- | Hc]; [reflexivity|]). contradiction.
Qed.

Lemma classification_pass_skips_witness :
  frame_finite frame_c8 /\
  exists r m,
    lithology_identification exp2_interp sqrt_floor unscaled single_cluster frame_c8 = Ok r /\
    _ml_lithology_clustering unscaled single_cluster frame_c8 = Ok m /\
    ((exists res, m = Some res) <->
     (2 <= length (present_candidates frame_c8))%nat /\
     (10 <= length (joint_rows frame_c8))%nat) /\
    ((exists res, ml_clustering r = Some (Some res)) <->
     (3 <= numeric_columns frame_c8)%nat /\
     (2 <= length (present_candidates frame_c8))%nat /\
     (10 <= length (joint_rows frame_c8))%nat) /\
    (gamma_ray r = None <->
     has_column frame_c8 GGCE = false /\ has_column frame_c8 GR = false) /\
    (neutron_density r = None <->
     has_column frame_c8 NPRL = false \/ has_column frame_c8 DEN = false) /\
    (photoelectric r = None <-> has_column frame_c8 PDPE = false).
Proof.
  split; [exact frame_c8_finite|].
  apply (classification_pass_skips exp2_interp sqrt_floor unscaled single_cluster).
  - intro M. reflexivity.
  - intros k X. apply length_map.
  - exact frame_c8_finite.
Defined.

(** C8 (as stated) fails: on a frame that holds two candidate curves and
    ten joint valid samples, and no third column, the pass does not call the
    clustering method and its entry is absent. *)
Lemma clustering_skipped_on_two_columns :
  length (present_candidates frame_c8_two) = 2%nat /\
  length (joint_rows frame_c8_two) = 10%nat /\
  numeric_columns frame_c8_two = 2%nat /\
  (exists r,
     lithology_identification exp2_interp sqrt_floor unscaled single_cluster frame_c8_two = Ok r /\
     ml_clustering r = None) /\
  (exists res,
     _ml_lithology_clustering unscaled single_cluster frame_c8_two = Ok (Some res)) /\
  ~ clustering_runs_when_applicable exp2_interp sqrt_floor unscaled single_cluster frame_c8_two.
Proof.
  split; [reflexivity|]. split; [reflexivity|]. split; [reflexivity|].
  split; [eexists; split; reflexivity|].
  split; [eexists; reflexivity|].
  intro H. specialize (H _ eq_refl). destruct H as [_ H].
  destruct H as [res Hres]; [split; vm_compute; lia|]. discriminate Hres.
Qed.

(** * Properties of the further operations *)

(** ** Permeability *)

(** The Kozeny-Carman value of a finite porosity: the formula has its pole
    at porosity 1, where the division by zero gives +infinity. *)
Lemma kozeny_carman_fin (p : Q) :
  (p == 1 -> kozeny_carman (Fin p) = PInf) /\
  (~ p == 1 ->
   kozeny_carman (Fin p) = Fin (5000 * (p * (p * p)) / ((1 + - p) * (1 + - p))) /\
   0 < (1 + - p) * (1 + - p)).
Proof.
  unfold kozeny_carman, one_minus_squared. cbn [fsub fneg fadd fmul]. split; intro H.
  - unfold fdiv.
    assert (E : Qeq_bool ((1 + - p) * (1 + - p)) 0 = true).
    { apply Qeq_bool_iff. rewrite H. reflexivity. }
    rewrite E.
    assert (Ec : (5000 * (p * (p * p)) ?= 0) = Gt).
    { apply Qgt_alt. rewrite H. reflexivity. }
    rewrite Ec. reflexivity.
  - assert (Hne : ~ 1 + - p == 0) by (intro E; apply H; lra).
    pose proof (Qsquare_pos _ Hne) as Hpos.
    split; [|exact Hpos]. apply fdiv_fin. lra.
Qed.

Lemma Qcube_nonneg (p : Q) : 0 <= p -> 0 <= p * (p * p).
Proof.
  intro H. apply Qmult_le_0_compat; [exact H|]. now apply Qmult_le_0_compat.
Qed.

Lemma Qcube_pos (p : Q) : 0 < p -> 0 < p * (p * p).
Proof.
  intro H. apply Qmult_lt_0_compat; [exact H|]. now apply Qmult_lt_0_compat.
Qed.

Lemma Qmult_le_mono_nonneg (a b c d : Q) :
  0 <= a -> a <= b -> 0 <= c -> c <= d -> a * c <= b * d.
Proof.
  intros Ha Hab Hc Hcd.
  apply Qle_trans with (b * c).
  - apply Qmult_le_compat_r; assumption.
  - rewrite (Qmult_comm b c), (Qmult_comm b d).
    apply Qmult_le_compat_r; [assumption | lra].
Qed.

Lemma Qcube_le (p q : Q) : 0 <= p -> p <= q -> p * (p * p) <= q * (q * q).
Proof.
  intros Hp Hpq.
  apply Qmult_le_mono_nonneg; try assumption.
  - now apply Qmult_le_0_compat.
  - apply Qmult_le_mono_nonneg; assumption.
Qed.

(** On porosities in [0, 0.5], the range of the porosity calculator, the
    Kozeny-Carman value is finite, between 0 and 2500 mD, and 0 only at
    porosity 0. *)
Lemma kozeny_carman_range (p : Q) :
  0 <= p <= 1#2 ->
  exists k, kozeny_carman (Fin p) = Fin k /\ 0 <= k <= 2500 /\ (k == 0 <-> p == 0).
Proof.
  intros [Hlo Hhi].
  destruct (kozeny_carman_fin p) as [_ Hfin].
  destruct Hfin as [Hk Hden]; [lra|].
  eexists. split; [exact Hk|].
  set (den := (1 + - p) * (1 + - p)) in *.
  pose proof (Qcube_nonneg p Hlo) as Hc.
  assert (Hc8 : p * (p * p) <= 1 # 8).
  { pose proof (Qcube_le p (1#2) Hlo Hhi) as H. 
    assert (E : (1 # 2) * ((1 # 2) * (1 # 2)) == 1 # 8) by reflexivity.
    lra. }
  assert (Hden4 : 1 # 4 <= den).
  { unfold den.
    pose proof (Qmult_le_mono_nonneg (1#2) (1 + - p) (1#2) (1 + - p)) as H.
    assert (E : (1 # 2) * (1 # 2) == 1 # 4) by reflexivity.
    rewrite <- E. apply H; lra. }
  split; [split|].
  - apply Qle_shift_div_l; [exact Hden|]. lra.
  - apply Qle_shift_div_r; [exact Hden|]. lra.
  - split.
    + intro H0.
      destruct (Qle_lt_or_eq _ _ Hlo) as [Hpos|Heq]; [|now symmetry].
      exfalso. pose proof (Qcube_pos p Hpos) as Hcp.
      assert (Hq : 0 < 5000 * (p * (p * p)) / den).
      { apply Qlt_shift_div_l; [exact Hden|]. lra. }
      lra.
    + intro H0. rewrite H0. unfold Qdiv. ring.
Qed.

(** The Kozeny-Carman value does not decrease with porosity on [0, 1). *)
Lemma kozeny_carman_monotone (p q : Q) :
  0 <= p -> p <= q -> q < 1 ->
  exists kp kq,
    kozeny_carman (Fin p) = Fin kp /\ kozeny_carman (Fin q) = Fin kq /\ kp <= kq.
Proof.
  intros Hp Hpq Hq.
  destruct (kozeny_carman_fin p) as [_ Hfp]. destruct Hfp as [Ekp Hdp]; [lra|].
  destruct (kozeny_carman_fin q) as [_ Hfq]. destruct Hfq as [Ekq Hdq]; [lra|].
  do 2 eexists. split; [exact Ekp|]. split; [exact Ekq|].
  set (dp := (1 + - p) * (1 + - p)) in *. set (dq := (1 + - q) * (1 + - q)) in *.
  assert (Hd : dq <= dp).
  { unfold dp, dq. apply Qmult_le_mono_nonneg; lra. }
  pose proof (Qcube_le p q Hp Hpq) as Hc.
  pose proof (Qcube_nonneg p Hp) as Hcp.
  apply Qle_shift_div_r; [exact Hdp|].
  assert (Hkq : 0 <= 5000 * (q * (q * q)) / dq).
  { apply Qle_shift_div_l; [exact Hdq|]. lra. }
  assert (E : 5000 * (q * (q * q)) / dq * dq == 5000 * (q * (q * q))).
  { field. lra. }
  apply Qle_trans with (5000 * (q * (q * q)) / dq * dq); [lra|].
  rewrite !(Qmult_comm (5000 * (q * (q * q)) / dq)).
  apply Qmult_le_compat_r; assumption.
Qed.

Section PermeabilityProperties.

Variable pow_4_4 : Q -> Q.

Lemma estimate_permeability_rows (pd : PorosityResult) :
  _estimate_permeability pow_4_4 (Some pd) =
  Ok (mkPermeability
        (map kozeny_carman (phi_corrected pd))
        (map (timur pow_4_4) (phi_corrected pd))
        (map (fun k => fdiv (fadd (fst k) (snd k)) (Fin 2))
             (combine (map kozeny_carman (phi_corrected pd))
                      (map (timur pow_4_4) (phi_corrected pd))))).
Proof. reflexivity. Qed.

(** The Timur value of a porosity in [0, 1) is finite. *)
Lemma timur_fin (p : Q) :
  0 <= p -> ~ p == 1 ->
  timur pow_4_4 (Fin p) = Fin ((136#1000) * pow_4_4 p / ((1 + - p) * (1 + - p))).
Proof.
  intros Hp Hne. unfold timur, one_minus_squared, fpow_4_4.
  assert (E : Qlt_bool p 0 = false) by now apply Qlt_bool_false_iff.
  rewrite E. cbn [fsub fneg fadd fmul].
  apply fdiv_fin.
  assert (Hne' : ~ 1 + - p == 0) by (intro H; apply Hne; lra).
  pose proof (Qsquare_pos _ Hne'). lra.
Qed.

(** X1: at every sample with finite density and neutron readings the
    permeability estimate never meets the pole of its formulas: the
    Kozeny-Carman value of the corrected porosity is finite and within
    [0, 2500] mD, it is 0 exactly when the corrected porosity is 0 (bulk
    density at least 2.65 and neutron reading at most 0), the Timur value is
    finite, and the reported value is the mean of the two. *)
Theorem permeability_of_calculated_porosity (df : DataFrame) (nprl rhob : Series)
        (i : nat) (n d : Q) :
  getitem df NPRL = Ok nprl -> getitem df DEN = Ok rhob ->
  nth_error nprl i = Some (Fin n) -> nth_error rhob i = Some (Fin d) ->
  exists pr perm k t,
    _calculate_porosity df = Ok (Some pr) /\
    _estimate_permeability pow_4_4 (Some pr) = Ok perm /\
    nth_error (k_kozeny perm) i = Some (Fin k) /\
    nth_error (k_timur perm) i = Some (Fin t) /\
    nth_error (k_average perm) i = Some (Fin ((k + t) / 2)) /\
    0 <= k <= 2500 /\
    (k == 0 <-> rho_matrix <= d /\ n <= 0).
Proof.
  intros Hn Hd Hin Hid.
  destruct (porosity_row n d)
    as (qd & qn & qc & qk & Ed & En & Ec & Ek & Rd & Rn & Rc & Rk & Hc & Hg & Hg1 & Hg0 & Hz).
  destruct (kozeny_carman_range qk Rk) as (k & Hk & Hkr & Hk0).
  assert (Ht : timur pow_4_4 (Fin qk) =
               Fin ((136#1000) * pow_4_4 qk / ((1 + - qk) * (1 + - qk))))
    by (apply timur_fin; lra).
  set (rows := combine (map density_porosity rhob) (map neutron_porosity nprl)).
  assert (Hphi : nth_error (map (fun r => corrected_porosity (fst r) (snd r)) rows) i
                 = Some (Fin qk)).
  { rewrite nth_error_map. unfold rows.
    rewrite (nth_error_combine _ _ i (Fin qd) (Fin qn)).
    - simpl. now rewrite Ek.
    - rewrite nth_error_map, Hid. simpl. now rewrite Ed.
    - rewrite nth_error_map, Hin. simpl. now rewrite En. }
  eexists _, _, k, _.
  split; [apply calculate_porosity_rows; eassumption|].
  split; [apply estimate_permeability_rows|].
  cbn [k_kozeny k_timur k_average phi_corrected]. fold rows.
  assert (Hkz : nth_error (map kozeny_carman
                  (map (fun r => corrected_porosity (fst r) (snd r)) rows)) i = Some (Fin k))
    by (rewrite nth_error_map, Hphi; simpl; now rewrite Hk).
  assert (Htm : nth_error (map (timur pow_4_4)
                  (map (fun r => corrected_porosity (fst r) (snd r)) rows)) i
                = Some (Fin ((136#1000) * pow_4_4 qk / ((1 + - qk) * (1 + - qk)))))
    by (rewrite nth_error_map, Hphi; simpl; now rewrite Ht).
  split; [exact Hkz|]. split; [exact Htm|].
  split.
  - rewrite nth_error_map, (nth_error_combine _ _ i _ _ Hkz Htm). cbn [option_map fst snd fadd].
    rewrite fdiv_fin by lra. reflexivity.
  - split; [exact Hkr|]. rewrite Hk0. exact Hz.
Qed.


(** X22: the Kozeny-Carman permeability does not decrease with porosity:
    of two samples with corrected porosities p <= q in [0, 1) the second
    gets at least the permeability of the first. *)
Theorem kozeny_carman_increasing (pd : PorosityResult) (i j : nat) (p q : Q) :
  nth_error (phi_corrected pd) i = Some (Fin p) ->
  nth_error (phi_corrected pd) j = Some (Fin q) ->
  0 <= p -> p <= q -> q < 1 ->
  exists perm kp kq,
    _estimate_permeability pow_4_4 (Some pd) = Ok perm /\
    nth_error (k_kozeny perm) i = Some (Fin kp) /\
    nth_error (k_kozeny perm) j = Some (Fin kq) /\
    kp <= kq.
Proof.
  intros Hi Hj Hp Hpq Hq.
  destruct (kozeny_carman_monotone p q Hp Hpq Hq) as (kp & kq & Ekp & Ekq & Hle).
  eexists _, kp, kq. split; [apply estimate_permeability_rows|].
  cbn [k_kozeny]. rewrite !nth_error_map, Hi, Hj. cbn [option_map].
  rewrite Ekp, Ekq. repeat split; exact Hle.
Qed.

End PermeabilityProperties.

(** ** The quality assessor: completeness and the outlier lines *)

Lemma count_filter (col : Series) :
  count col = length (filter (fun x => negb (isna x)) col).
Proof.
  unfold count. rewrite <- values_dropna. unfold values. now rewrite length_map.
Qed.

Lemma filter_length_le_impl {A : Type} (f g : A -> bool) (l : list A) :
  (forall x, In x l -> f x = true -> g x = true) ->
  (length (filter f l) <= length (filter g l))%nat.
Proof.
  induction l as [|a l IH]; intro H; [reflexivity|].
  assert (IH' : (length (filter f l) <= length (filter g l))%nat)
    by (apply IH; intros x Hx; apply H; now right).
  cbn [filter]. destruct (f a) eqn:Ef.
  - rewrite (H a (or_introl eq_refl) Ef). simpl. lia.
  - destruct (g a); simpl; lia.
Qed.

Lemma filter_length_all {A : Type} (f : A -> bool) (l : list A) :
  length (filter f l) = length l <-> forall x, In x l -> f x = true.
Proof.
  induction l as [|a l IH]; [simpl; tauto|].
  cbn [filter]. pose proof (filter_length_le f l) as Hle.
  destruct (f a) eqn:Ef; cbn [length].
  - split.
    + intros H x [<- | Hx]; [exact Ef|]. apply IH; [lia | exact Hx].
    + intro H. f_equal. apply IH. intros x Hx. apply H. now right.
  - split; [lia|]. intro H. specialize (H a (or_introl eq_refl)). congruence.
Qed.

Lemma filter_length_none {A : Type} (f : A -> bool) (l : list A) :
  length (filter f l) = 0%nat <-> forall x, In x l -> f x = false.
Proof.
  induction l as [|a l IH]; [simpl; tauto|].
  cbn [filter]. destruct (f a) eqn:Ef; cbn [length].
  - split; [lia|]. intro H. specialize (H a (or_introl eq_refl)). congruence.
  - rewrite IH. split.
    + intros H x [<- | Hx]; [exact Ef | now apply H].
    + intros H x Hx. apply H. now right.
Qed.

Lemma Qnat_le (n m : nat) : (n <= m)%nat -> Qnat n <= Qnat m.
Proof. intro H. unfold Qnat. rewrite <- Zle_Qle. lia. Qed.

Lemma Qnat_inj (n m : nat) : Qnat n == Qnat m -> n = m.
Proof.
  unfold Qnat. intro H. rewrite inject_Z_injective in H. lia.
Qed.

(** The completeness figure of a ratio [k / n * 100] of counts. *)
Lemma percent_of_counts (k n : nat) :
  (0 < n)%nat -> (k <= n)%nat ->
  exists q,
    fmul (fdiv (Fin (Qnat k)) (Fin (Qnat n))) (Fin 100) = Fin q /\
    q == Qnat k / Qnat n * 100 /\
    0 <= q <= 100 /\
    (q == 100 <-> k = n) /\
    (q == 0 <-> k = 0%nat).
Proof.
  intros Hn Hk.
  pose proof (Qnat_pos n Hn) as Hpos.
  pose proof (Qnat_le k n Hk) as Hle.
  assert (H0 : 0 <= Qnat k) by (apply (Qnat_le 0 k); lia).
  rewrite fdiv_fin by lra. cbn [fmul].
  eexists. split; [reflexivity|]. split; [reflexivity|].
  assert (Hr : 0 <= Qnat k / Qnat n <= 1).
  { split.
    - apply Qle_shift_div_l; [exact Hpos | lra].
    - apply Qle_shift_div_r; [exact Hpos | lra]. }
  assert (Hmul : Qnat k / Qnat n * Qnat n == Qnat k) by (field; lra).
  split; [lra|]. split; split; intro H.
  - apply Qnat_inj. assert (Qnat k / Qnat n == 1) by lra. 
    rewrite <- Hmul. rewrite H1. ring.
  - subst k. assert (E : Qnat n / Qnat n == 1) by (field; lra). rewrite E. reflexivity.
  - apply (Qnat_inj k 0). assert (E : Qnat k / Qnat n == 0) by lra.
    rewrite <- Hmul, E. reflexivity.
  - subst k. unfold Qnat. simpl. unfold Qdiv. ring.
Qed.

(** X3: on a well-formed frame with at least one sample the completeness
    reported for a curve is 100 * k / N, with k its valid count and N the
    number of samples: a value in [0, 100], 100 exactly when the curve has no
    null and 0 exactly when it is fully null. *)
Theorem completeness_range (df : DataFrame) (c : string * Series) :
  wf_frame df -> (0 < nrows df)%nat -> In c (columns df) ->
  exists line q,
    In line (fst (data_quality_assessment df)) /\
    cl_column line = fst c /\
    cl_valid line = count (snd c) /\
    cl_completeness line = Fin q /\
    q == Qnat (count (snd c)) / Qnat (nrows df) * 100 /\
    0 <= q <= 100 /\
    (q == 100 <-> forall x, In x (snd c) -> isna x = false) /\
    (q == 0 <-> forall x, In x (snd c) -> isna x = true).
Proof.
  intros Hwf Hn Hc.
  assert (Hlen : length (snd c) = nrows df).
  { unfold wf_frame in Hwf. rewrite Forall_forall in Hwf. now apply Hwf. }
  assert (Hle : (count (snd c) <= nrows df)%nat).
  { rewrite count_filter, <- Hlen. apply filter_length_le. }
  destruct (percent_of_counts (count (snd c)) (nrows df) Hn Hle)
    as (q & Hq & Heq & Hr & H100 & H0).
  exists (completeness_line (nrows df) c), q.
  split; [unfold data_quality_assessment; cbn [fst]; now apply in_map|].
  unfold completeness_line. cbn [cl_column cl_valid cl_completeness].
  repeat (split; [first [reflexivity | assumption]|]).
  split.
  - rewrite H100, count_filter, <- Hlen, filter_length_all.
    split; intros H x Hx; specialize (H x Hx); destruct (isna x); 
      simpl in *; congruence.
  - rewrite H0, count_filter, filter_length_none.
    split; intros H x Hx; specialize (H x Hx); destruct (isna x);
      simpl in *; congruence.
Qed.

(** The outlier test is never true of a null. *)
Lemma outlier_count_le_valid (col : Series) :
  (outliers (outlier_stats col) <= count col)%nat.
Proof.
  unfold outlier_stats. cbn [outliers].
  rewrite count_true_map, count_filter.
  apply filter_length_le_impl. intros x _ H.
  destruct x; try reflexivity. cbn [fltb fgtb] in H. unfold fgtb in H.
  rewrite fltb_nan_r in H. discriminate.
Qed.

(** X4: an outlier line is printed for a curve only when it has a valid
    value, so its percentage never divides by zero: the count is at least 1
    and at most the number of valid values (nulls are never outliers), and
    the percentage is finite, above 0 and at most 100. *)
Theorem outlier_line_percent (c : string * Series) (line : OutlierLine) :
  outlier_line c = Some line ->
  ol_column line = fst c /\
  ol_outliers line = outliers (outlier_stats (snd c)) /\
  (0 < ol_outliers line <= count (snd c))%nat /\
  exists p, ol_percent line = Fin p /\ 0 < p <= 100.
Proof.
  unfold outlier_line. intro H.
  pose proof (outlier_count_le_valid (snd c)) as Hle.
  set (o := outliers (outlier_stats (snd c))) in *.
  set (v := count (snd c)) in *.
  destruct (0 <? o)%nat eqn:E; [|discriminate].
  apply Nat.ltb_lt in E. injection H as <-.
  cbn [ol_column ol_outliers ol_percent].
  split; [reflexivity|]. split; [reflexivity|]. split; [lia|].
  destruct (percent_of_counts o v) as (q & Hq & _ & Hr & _ & H0); [lia | lia |].
  exists q. split; [exact Hq|]. split; [|lra].
  destruct (Qle_lt_or_eq _ _ (proj1 Hr)) as [Hlt|Heq]; [exact Hlt|].
  symmetry in Heq. apply H0 in Heq. lia.
Qed.

Definition curve_x4 : string * Series :=
  (GGCE, [Fin 1; Fin 2; NaN; Fin 3; Fin 4; Fin 100]).

Lemma outlier_line_percent_witness :
  ol_column (mkOutlierLine GGCE 1 (Fin (100#5))) = fst curve_x4 /\
  ol_outliers (mkOutlierLine GGCE 1 (Fin (100#5))) = outliers (outlier_stats (snd curve_x4)) /\
  (0 < ol_outliers (mkOutlierLine GGCE 1 (Fin (100#5))) <= count (snd curve_x4))%nat /\
  exists p, ol_percent (mkOutlierLine GGCE 1 (Fin (100#5))) = Fin p /\ 0 < p <= 100.
Proof.
  apply (outlier_line_percent curve_x4). reflexivity.
Defined.

Definition frame_x3 : DataFrame :=
  mkDataFrame 4 [(GGCE, [Fin 50; NaN; Fin 80; NaN]); (DEN, [Fin 2; Fin 2; Fin 2; Fin 2])].

Lemma frame_x3_wf : wf_frame frame_x3.
Proof. repeat constructor. Qed.

Lemma completeness_range_witness :
  exists line q,
    In line (fst (data_quality_assessment frame_x3)) /\
    cl_column line = GGCE /\
    cl_valid line = count [Fin 50; NaN; Fin 80; NaN] /\
    cl_completeness line = Fin q /\
    q == Qnat (count [Fin 50; NaN; Fin 80; NaN]) / Qnat 4 * 100 /\
    0 <= q <= 100 /\
    (q == 100 <-> forall x, In x [Fin 50; NaN; Fin 80; NaN] -> isna x = false) /\
    (q == 0 <-> forall x, In x [Fin 50; NaN; Fin 80; NaN] -> isna x = true).
Proof.
  apply (completeness_range frame_x3 (GGCE, [Fin 50; NaN; Fin 80; NaN]));
    [exact frame_x3_wf | simpl; lia | now left].
Defined.

(** ** The reservoir-quality block and net-to-gross *)

(** A value that is not null falls in exactly one of the four classes, a
    null in none. *)
Lemma quality_class_partition (x : fval) :
  let y := fmul x (Fin 100) in
  (Nat.b2n (fgtb y (Fin 15)) + Nat.b2n (fgtb y (Fin 10) && fleb y (Fin 15))
   + Nat.b2n (fgtb y (Fin 5) && fleb y (Fin 10)) + Nat.b2n (fleb y (Fin 5)))%nat
  = Nat.b2n (negb (isna x)).
Proof.
  destruct x as [q| | |]; try reflexivity.
  cbn [fmul]. unfold fgtb. cbn [fltb fleb isna negb].
  set (z := q * 100).
  destruct (Qlt_bool 15 z) eqn:E1, (Qlt_bool 10 z) eqn:E2, (Qlt_bool 5 z) eqn:E3,
           (Qle_bool z 15) eqn:E4, (Qle_bool z 10) eqn:E5, (Qle_bool z 5) eqn:E6;
    try reflexivity; exfalso; to_Q; lra.
Qed.

Lemma count_true_cons (b : bool) (l : list bool) :
  count_true (b :: l) = (Nat.b2n b + count_true l)%nat.
Proof. unfold count_true. destruct b; reflexivity. Qed.

Lemma reservoir_quality_counts (phi : Series) :
  (rq_excellent (reservoir_quality phi) + rq_good (reservoir_quality phi)
   + rq_fair (reservoir_quality phi) + rq_poor (reservoir_quality phi))%nat
  = count phi.
Proof.
  unfold reservoir_quality. cbn [rq_excellent rq_good rq_fair rq_poor].
  rewrite count_filter.
  induction phi as [|x phi IH]; [reflexivity|].
  cbn [map]. rewrite !count_true_cons.
  pose proof (quality_class_partition x) as Hx. cbv zeta in Hx.
  cbn [filter]. destruct (negb (isna x)); cbn [Nat.b2n length] in *; lia.
Qed.

(** X5: the four reservoir-quality classes of the report (above 15, 10 to
    15, 5 to 10, at most 5 percent porosity) count every non-null sample
    exactly once and no null sample, while the total they are divided by
    counts the nulls too: on a non-empty series the four percentages add up
    to 100 * v / N, which is 100 exactly when no porosity is null. *)
Theorem reservoir_quality_partition (phi : Series) :
  (0 < length phi)%nat ->
  let rq := reservoir_quality phi in
  rq_total rq = length phi /\
  (rq_excellent rq + rq_good rq + rq_fair rq + rq_poor rq)%nat = count phi /\
  exists pe pg pf pp,
    quality_percent (rq_excellent rq) (rq_total rq) = Fin pe /\
    quality_percent (rq_good rq) (rq_total rq) = Fin pg /\
    quality_percent (rq_fair rq) (rq_total rq) = Fin pf /\
    quality_percent (rq_poor rq) (rq_total rq) = Fin pp /\
    pe + pg + pf + pp == Qnat (count phi) / Qnat (length phi) * 100 /\
    (pe + pg + pf + pp == 100 <-> forall x, In x phi -> isna x = false).
Proof.
  intro Hn. cbv zeta.
  pose proof (reservoir_quality_counts phi) as Hsum.
  assert (Htot : rq_total (reservoir_quality phi) = length phi)
    by (unfold reservoir_quality; cbn [rq_total]; apply length_map).
  split; [exact Htot|]. split; [exact Hsum|].
  rewrite Htot.
  set (e := rq_excellent (reservoir_quality phi)) in *.
  set (g := rq_good (reservoir_quality phi)) in *.
  set (f := rq_fair (reservoir_quality phi)) in *.
  set (p := rq_poor (reservoir_quality phi)) in *.
  pose proof (Qnat_pos _ Hn) as Hpos.
  unfold quality_percent. rewrite !fdiv_fin by lra. cbn [fmul].
  do 4 eexists. repeat (split; [reflexivity|]).
  assert (Hq : Qnat e + Qnat g + Qnat f + Qnat p == Qnat (count phi)).
  { rewrite <- Hsum. unfold Qnat. rewrite !Nat2Z.inj_add, !inject_Z_plus. reflexivity. }
  assert (Hs : Qnat e / Qnat (length phi) * 100 + Qnat g / Qnat (length phi) * 100
               + Qnat f / Qnat (length phi) * 100 + Qnat p / Qnat (length phi) * 100
               == Qnat (count phi) / Qnat (length phi) * 100).
  { rewrite <- Hq. field. lra. }
  split; [exact Hs|]. rewrite Hs.
  assert (Hle : (count phi <= length phi)%nat)
    by (rewrite count_filter; apply filter_length_le).
  destruct (percent_of_counts (count phi) (length phi) Hn Hle) as (q & Hq' & Heq & _ & H100 & _).
  rewrite <- Heq, H100, count_filter, filter_length_all.
  split; intros H x Hx; specialize (H x Hx); destruct (isna x); simpl in *; congruence.
Qed.

Lemma reservoir_quality_partition_witness :
  let phi := [Fin (20#100); NaN; Fin (7#100); Fin (2#100)] in
  let rq := reservoir_quality phi in
  rq_total rq = length phi /\
  (rq_excellent rq + rq_good rq + rq_fair rq + rq_poor rq)%nat = count phi /\
  exists pe pg pf pp,
    quality_percent (rq_excellent rq) (rq_total rq) = Fin pe /\
    quality_percent (rq_good rq) (rq_total rq) = Fin pg /\
    quality_percent (rq_fair rq) (rq_total rq) = Fin pf /\
    quality_percent (rq_poor rq) (rq_total rq) = Fin pp /\
    pe + pg + pf + pp == Qnat (count phi) / Qnat (length phi) * 100 /\
    (pe + pg + pf + pp == 100 <-> forall x, In x phi -> isna x = false).
Proof.
  apply (reservoir_quality_partition [Fin (20#100); NaN; Fin (7#100); Fin (2#100)]).
  simpl. lia.
Defined.

(** ** Net-to-gross: the range of the ratio *)

Lemma calculate_net_to_gross_rows (df : DataFrame) (gr : Series) :
  getitem df GGCE = Ok gr ->
  _calculate_net_to_gross df =
  Ok (Some (mkNetToGross
              (map (fun x => fltb x (Fin gr_cutoff)) gr)
              (if Qlt_bool 0 (Qnat (length gr) * (1#2))
               then Qnat (count_true (map (fun x => fltb x (Fin gr_cutoff)) gr)) * (1#2)
                    / (Qnat (length gr) * (1#2))
               else 0)
              (Qnat (count_true (map (fun x => fltb x (Fin gr_cutoff)) gr)) * (1#2))
              (Qnat (length gr) * (1#2)))).
Proof.
  intro Hget. unfold _calculate_net_to_gross.
  rewrite (getitem_has_column _ _ _ Hget), Hget. reflexivity.
Qed.

(** X6: the net-to-gross ratio lies in [0, 1]; it is 1 exactly when the
    store is not empty and every sample has a gamma-ray reading below 75,
    and 0 exactly when no sample has one (an empty store included). *)
Theorem net_to_gross_ratio_range (df : DataFrame) (gr : Series) :
  getitem df GGCE = Ok gr ->
  exists r,
    _calculate_net_to_gross df = Ok (Some r) /\
    0 <= ntg_ratio r <= 1 /\
    (ntg_ratio r == 1 <->
     gr <> [] /\ forall x, In x gr -> fltb x (Fin gr_cutoff) = true) /\
    (ntg_ratio r == 0 <-> forall x, In x gr -> fltb x (Fin gr_cutoff) = false).
Proof.
  intro Hget. eexists. split; [apply calculate_net_to_gross_rows; exact Hget|].
  cbn [ntg_ratio]. rewrite count_true_map.
  set (f := fun x => fltb x (Fin gr_cutoff)).
  set (b := length (filter f gr)). set (n := length gr).
  assert (Hbn : (b <= n)%nat) by apply filter_length_le.
  destruct (Nat.eq_dec n 0) as [Hz|Hnz].
  - assert (Hnil : gr = []) by (destruct gr; [reflexivity | discriminate Hz]).
    rewrite Hz. cbn. split; [lra|]. split.
    + split; [intro H; discriminate H | intros [H _]; contradiction].
    + split; [intros _ x Hx; rewrite Hnil in Hx; contradiction | reflexivity].
  - assert (Hpos : 0 < Qnat n) by (apply Qnat_pos; lia).
    assert (E : Qlt_bool 0 (Qnat n * (1 # 2)) = true) by (apply Qlt_bool_iff; lra).
    rewrite E.
    assert (Er : Qnat b * (1 # 2) / (Qnat n * (1 # 2)) == Qnat b / Qnat n) by (field; lra).
    rewrite Er.
    pose proof (Qnat_le b n Hbn) as Hle.
    assert (H0 : 0 <= Qnat b) by (apply (Qnat_le 0 b); lia).
    assert (Hmul : Qnat b / Qnat n * Qnat n == Qnat b) by (field; lra).
    split; [split|split].
    + apply Qle_shift_div_l; [exact Hpos | lra].
    + apply Qle_shift_div_r; [exact Hpos | lra].
    + split.
      * intro H1. split; [intro Hnil; apply Hnz; unfold n; now rewrite Hnil|].
        apply filter_length_all. apply Qnat_inj. change (Qnat b == Qnat n).
        rewrite H1 in Hmul. lra.
      * intros [_ Hall]. apply filter_length_all in Hall.
        change (b = n) in Hall. rewrite Hall. field. lra.
    + split.
      * intro H1. apply filter_length_none. apply (Qnat_inj b 0).
        rewrite H1 in Hmul. change (Qnat 0) with 0. lra.
      * intro Hnone. apply filter_length_none in Hnone.
        change (b = 0%nat) in Hnone. rewrite Hnone. unfold Qnat. simpl. unfold Qdiv. ring.
Qed.

Lemma net_to_gross_ratio_range_witness :
  exists r,
    _calculate_net_to_gross frame_c10 = Ok (Some r) /\
    0 <= ntg_ratio r <= 1 /\
    (ntg_ratio r == 1 <->
     [Fin 50; NaN; Fin 80; NaN] <> [] /\
     forall x, In x [Fin 50; NaN; Fin 80; NaN] -> fltb x (Fin gr_cutoff) = true) /\
    (ntg_ratio r == 0 <->
     forall x, In x [Fin 50; NaN; Fin 80; NaN] -> fltb x (Fin gr_cutoff) = false).
Proof.
  apply (net_to_gross_ratio_range frame_c10 [Fin 50; NaN; Fin 80; NaN]). reflexivity.
Defined.

(** ** The property pass *)

Section PropertyPassProperties.

Variable pow_half : Q -> Q.
Variable pow_4_4 : Q -> Q.

(** X7: the property pass never raises, whatever the frame, and its
    dependency chain is by curve presence alone: porosity and permeability
    are present exactly when NPRL and DEN are, water saturation exactly when
    RTAT is present as well, net-to-gross exactly when GGCE is; a present
    entry always holds a result (never None), and the first, second and last
    entries are those of the pass without permeability. *)
Theorem property_pass_entries (df : DataFrame) :
  exists res,
    petrophysical_calculations_all pow_half pow_4_4 df = Ok res /\
    ((exists pr, all_porosity res = Some (Some pr)) <->
     has_column df NPRL = true /\ has_column df DEN = true) /\
    (all_porosity res = None <-> ~ (has_column df NPRL = true /\ has_column df DEN = true)) /\
    ((exists k, all_permeability res = Some k) <->
     has_column df NPRL = true /\ has_column df DEN = true) /\
    ((exists ws, all_water_saturation res = Some (Some ws)) <->
     has_column df RTAT = true /\ has_column df NPRL = true /\ has_column df DEN = true) /\
    (all_water_saturation res = None <->
     ~ (has_column df RTAT = true /\ has_column df NPRL = true /\ has_column df DEN = true)) /\
    ((exists n, all_net_to_gross res = Some (Some n)) <-> has_column df GGCE = true) /\
    (all_net_to_gross res = None <-> has_column df GGCE = false) /\
    petrophysical_calculations pow_half df =
      Ok (mkPetroResults (all_porosity res) (all_water_saturation res) (all_net_to_gross res)).
Proof.
  unfold petrophysical_calculations_all, petrophysical_calculations.
  assert (Hntg : exists rn,
             (if has_column df GGCE
              then r <- _calculate_net_to_gross df ;; Ok (Some r) else Ok None) = Ok rn /\
             ((exists n, rn = Some (Some n)) <-> has_column df GGCE = true) /\
             (rn = None <-> has_column df GGCE = false)).
  { destruct (has_column df GGCE) eqn:E.
    - destruct (has_column_getitem _ _ E) as [gr Hgr].
      rewrite (calculate_net_to_gross_rows df gr Hgr). cbn [bind].
      eexists. split; [reflexivity|]. split; split; eauto; discriminate.
    - eexists. split; [reflexivity|].
      split; split; try reflexivity; try discriminate. intros [n H]. discriminate. }
  destruct Hntg as (rn & Hrn & Hn1 & Hn2).
  assert (Hphi : exists rp,
             (if has_column df NPRL && has_column df DEN
              then r <- _calculate_porosity df ;; Ok (Some r) else Ok None) = Ok rp /\
             ((exists pr, rp = Some (Some pr)) <->
              has_column df NPRL = true /\ has_column df DEN = true) /\
             (rp = None <-> ~ (has_column df NPRL = true /\ has_column df DEN = true))).
  { destruct (has_column df NPRL) eqn:E1, (has_column df DEN) eqn:E2; cbn [andb].
    - destruct (has_column_getitem _ _ E1) as [nprl Hnprl].
      destruct (has_column_getitem _ _ E2) as [rhob Hrhob].
      rewrite (calculate_porosity_rows df nprl rhob Hnprl Hrhob). cbn [bind].
      eexists. split; [reflexivity|]. split; split; eauto; try discriminate.
      intro H. exfalso. apply H. split; reflexivity.
    - eexists. split; [reflexivity|]. split; split; try reflexivity.
      + intros [pr H]. discriminate.
      + intros [_ H]. discriminate.
      + intros _ [_ H]. discriminate.
    - eexists. split; [reflexivity|]. split; split; try reflexivity.
      + intros [pr H]. discriminate.
      + intros [H _]. discriminate.
      + intros _ [H _]. discriminate.
    - eexists. split; [reflexivity|]. split; split; try reflexivity.
      + intros [pr H]. discriminate.
      + intros [H _]. discriminate.
      + intros _ [H _]. discriminate. }
  destruct Hphi as (rp & Hrp & Hp1 & Hp2).
  rewrite Hrp. cbn [bind].
  assert (Hsw : exists rs,
             (if has_column df RTAT
              then match rp with
                   | Some pd => r <- _calculate_water_saturation pow_half df pd ;; Ok (Some r)
                   | None => Ok None
                   end
              else Ok None) = Ok rs /\
             ((exists ws, rs = Some (Some ws)) <->
              has_column df RTAT = true /\ exists pr, rp = Some (Some pr)) /\
             (rs = None <-> ~ (has_column df RTAT = true /\ exists pr, rp = Some (Some pr)))).
  { destruct (has_column df RTAT) eqn:E3.
    - destruct (has_column_getitem _ _ E3) as [rt Hrt].
      destruct rp as [[pr|]|].
      + rewrite (calculate_water_saturation_rows pow_half df rt _ Hrt). cbn [bind].
        eexists. split; [reflexivity|]. split; split; eauto; try discriminate.
        intro H. exfalso. apply H. eauto.
      + exfalso. assert (H : (None : option PorosityResult) = None -> False).
        { intros _.
          assert (Hx : Some (@None PorosityResult) = None \/
                       exists pr, Some (@None PorosityResult) = Some (Some pr)).
          { destruct (has_column df NPRL), (has_column df DEN);
              first [ right; apply Hp1; split; reflexivity
                    | left; apply Hp2; intros [? ?]; discriminate ]. }
          destruct Hx as [Hx | [pr Hx]]; discriminate. }
        now apply H.
      + eexists. split; [reflexivity|]. split; split; try reflexivity.
        * intros [ws H]. discriminate.
        * intros [_ [pr H]]. discriminate.
        * intros _ [_ [pr H]]. discriminate.
    - eexists. split; [reflexivity|]. split; split; try reflexivity.
      + intros [ws H]. discriminate.
      + intros [H _]. discriminate.
      + intros _ [H _]. discriminate. }
  destruct Hsw as (rs & Hrs & Hs1 & Hs2).
  rewrite Hrs. cbn [bind].
  assert (Hk : exists rk,
             match rp with
             | Some pd => r <- _estimate_permeability pow_4_4 pd ;; Ok (Some r)
             | None => Ok None
             end = Ok rk /\
             ((exists k, rk = Some k) <-> exists pr, rp = Some (Some pr))).
  { destruct rp as [[pr|]|].
    - rewrite estimate_permeability_rows. cbn [bind].
      eexists. split; [reflexivity|]. split; eauto.
    - exfalso.
      assert (Hx : Some (@None PorosityResult) = None \/
                   exists pr, Some (@None PorosityResult) = Some (Some pr)).
      { destruct (has_column df NPRL), (has_column df DEN);
          first [ right; apply Hp1; split; reflexivity
                | left; apply Hp2; intros [? ?]; discriminate ]. }
      destruct Hx as [Hx | [pr Hx]]; discriminate.
    - eexists. split; [reflexivity|]. split; intros [? H]; discriminate. }
  destruct Hk as (rk & Hrk & Hk1).
  rewrite Hrk. cbn [bind]. rewrite Hrn. cbn [bind].
  eexists. split; [reflexivity|].
  cbn [all_porosity all_water_saturation all_permeability all_net_to_gross].
  split; [exact Hp1|]. split; [exact Hp2|].
  split; [rewrite Hk1; exact Hp1|].
  split; [rewrite Hs1, Hp1; tauto|].
  split; [rewrite Hs2, Hp1; tauto|].
  split; [exact Hn1|]. split; [exact Hn2|].
  reflexivity.
Qed.

End PropertyPassProperties.

(** ** Photoelectric-factor method: the labels a value can get *)

Ltac decide_Qle_bool :=
  repeat match goal with
         | |- context [Qle_bool ?a ?b] =>
             first [ replace (Qle_bool a b) with true
                       by (symmetry; apply Qle_bool_iff; lra)
                   | replace (Qle_bool a b) with false
                       by (symmetry; apply Qle_bool_false_iff; lra) ]
         end.

Ltac settle_table :=
  unfold last_match, in_pe_range, fgeb; cbn [rev pe_ranges app find fst snd fleb];
  decide_Qle_bool; cbn [andb];
  repeat split; intros; try discriminate; try reflexivity; try lra.

Lemma last_match_table (q : Q) :
  (last_match (Fin q) = QuartzSandstone <-> 18#10 <= q <= 19#10) /\
  (last_match (Fin q) = ClayShale <-> 28#10 <= q <= 33#10) /\
  (last_match (Fin q) = Salt <-> 46#10 <= q <= 48#10) /\
  (last_match (Fin q) = Anhydrite <-> 50#10 <= q <= 51#10) /\
  (last_match (Fin q) = CalciteLimestone <-> 51#10 < q <= 52#10) /\
  last_match (Fin q) <> Dolomite /\
  (last_match (Fin q) = Unknown <->
   q < 18#10 \/ 19#10 < q < 28#10 \/ 33#10 < q < 46#10 \/ 48#10 < q < 50#10 \/ 52#10 < q).
Proof.
  destruct (Qlt_le_dec q (18#10)); [settle_table|].
  destruct (Qlt_le_dec (19#10) q); [|settle_table].
  destruct (Qlt_le_dec q (28#10)); [settle_table|].
  destruct (Qlt_le_dec (33#10) q); [|settle_table].
  destruct (Qlt_le_dec q (46#10)); [settle_table|].
  destruct (Qlt_le_dec (48#10) q); [|settle_table].
  destruct (Qlt_le_dec q (50#10)); [settle_table|].
  destruct (Qlt_le_dec (51#10) q); [|settle_table].
  destruct (Qlt_le_dec (52#10) q); settle_table.
Qed.

(** X8: the labels of the photoelectric-factor method by PE value: a
    finite reading is labeled Quartz/Sandstone on [1.8, 1.9], Clay/Shale on
    the whole of [2.8, 3.3], Salt on [4.6, 4.8], Anhydrite on [5.0, 5.1],
    Calcite/Limestone only on (5.1, 5.2], Unknown elsewhere, and never
    Dolomite. *)
Theorem photoelectric_label_table (df : DataFrame) (col : string) (s : Series)
        (i : nat) (q : Q) :
  getitem df col = Ok s -> nth_error s i = Some (Fin q) ->
  exists r l,
    _photoelectric_lithology df col = Ok r /\
    In (i, l) (pe_lithology r) /\
    (forall l', In (i, l') (pe_lithology r) -> l' = l) /\
    (l = QuartzSandstone <-> 18#10 <= q <= 19#10) /\
    (l = ClayShale <-> 28#10 <= q <= 33#10) /\
    (l = Salt <-> 46#10 <= q <= 48#10) /\
    (l = Anhydrite <-> 50#10 <= q <= 51#10) /\
    (l = CalciteLimestone <-> 51#10 < q <= 52#10) /\
    l <> Dolomite /\
    (l = Unknown <->
     q < 18#10 \/ 19#10 < q < 28#10 \/ 33#10 < q < 46#10 \/ 48#10 < q < 50#10 \/ 52#10 < q).
Proof.
  intros Hget Hq.
  assert (Hin : In (i, Fin q) (dropna s)) by (apply dropna_In; split; [exact Hq | reflexivity]).
  eexists. exists (last_match (Fin q)).
  split; [apply photoelectric_rowwise; exact Hget|].
  cbn [pe_lithology].
  split; [apply in_map_iff; exists (i, Fin q); split; [reflexivity | exact Hin]|].
  split; [|apply last_match_table].
  intros l' Hl'. apply in_map_iff in Hl'. destruct Hl' as ([j y] & Heq & Hy).
  cbn [fst snd] in Heq. inversion Heq; subst j l'.
  apply dropna_In in Hy. destruct Hy as [Hy _].
  assert (y = Fin q) by congruence. now subst y.
Qed.

Lemma photoelectric_label_table_witness :
  exists r l,
    _photoelectric_lithology frame_c1 PDPE = Ok r /\
    In (0%nat, l) (pe_lithology r) /\
    (forall l', In (0%nat, l') (pe_lithology r) -> l' = l) /\
    (l = QuartzSandstone <-> 18#10 <= 31#10 <= 19#10) /\
    (l = ClayShale <-> 28#10 <= 31#10 <= 33#10) /\
    (l = Salt <-> 46#10 <= 31#10 <= 48#10) /\
    (l = Anhydrite <-> 50#10 <= 31#10 <= 51#10) /\
    (l = CalciteLimestone <-> 51#10 < 31#10 <= 52#10) /\
    l <> Dolomite /\
    (l = Unknown <->
     31#10 < 18#10 \/ 19#10 < 31#10 < 28#10 \/ 33#10 < 31#10 < 46#10 \/
     48#10 < 31#10 < 50#10 \/ 52#10 < 31#10).
Proof.
  apply (photoelectric_label_table frame_c1 PDPE [Fin (31#10); NaN; Fin 4] 0 (31#10));
    reflexivity.
Defined.

(** ** Neutron-density method: skip, labels and the role of the density *)

Lemma min_by_In {A : Type} (key : A -> fval) (l : list A) (best : A) :
  In (min_by key best l) (best :: l).
Proof.
  revert best. induction l as [|y l IH]; intro best; [now left|].
  cbn [min_by]. destruct (fltb (key y) (key best)).
  - right. apply IH.
  - destruct (IH best) as [H | H]; [now left | right; now right].
Qed.

Section NeutronDensityMore.

Variable np_sqrt : Q -> Q.

Lemma nd_label_vocabulary (nphi rhob : fval) :
  In (nd_label np_sqrt nphi rhob) [Sandstone; Limestone; Dolomite; Anhydrite; GasSand].
Proof.
  unfold nd_label.
  destruct (fltb rhob (Fin (23 # 10)) && fltb nphi (Fin (15 # 100))); [simpl; tauto|].
  set (D := map (fun km : label * Matrix =>
                   (fst km, matrix_distance np_sqrt nphi rhob (snd km))) matrices).
  assert (HD : forall d, In d D -> In (fst d) [Sandstone; Limestone; Dolomite; Anhydrite]).
  { intros d Hd. unfold D in Hd. apply in_map_iff in Hd. destruct Hd as (km & <- & Hkm).
    cbn [fst]. simpl in Hkm.
    repeat (destruct Hkm as [<- | Hkm]; [simpl; tauto|]). contradiction. }
  destruct D as [|d0 rest] eqn:ED; [discriminate ED|].
  pose proof (HD _ (min_by_In snd rest d0)) as H. simpl in H. simpl. tauto.
Qed.

(** X9: the neutron-density method returns None exactly when no sample has
    both readings; otherwise its lithology series has one label for each
    jointly valid sample, in the order of the index, and every label is one
    of Sandstone, Limestone, Dolomite, Anhydrite and Gas Sand. *)
Theorem neutron_density_skip (df : DataFrame) (nphi_col rhob_col : string) (a b : Series) :
  getitem df nphi_col = Ok a -> getitem df rhob_col = Ok b ->
  exists res,
    _neutron_density_lithology np_sqrt df nphi_col rhob_col = Ok res /\
    (res = None <->
     forall i x y, nth_error a i = Some x -> nth_error b i = Some y ->
                   isna x = true \/ isna y = true) /\
    (forall r, res = Some r ->
       map fst (nd_lithology r) = map fst (dropna2 a b) /\
       map fst (nphi_data r) = map fst (dropna2 a b) /\
       map fst (rhob_data r) = map fst (dropna2 a b) /\
       forall i l, In (i, l) (nd_lithology r) ->
                   In l [Sandstone; Limestone; Dolomite; Anhydrite; GasSand]).
Proof.
  intros Ha Hb. unfold _neutron_density_lithology. rewrite Ha, Hb. cbn [bind].
  destruct (length (dropna2 a b) =? 0)%nat eqn:E.
  - apply Nat.eqb_eq, length_zero_iff_nil in E.
    exists None. split; [reflexivity|]. split; [|discriminate].
    split; [|reflexivity]. intros _ i x y Hx Hy.
    destruct (isna x) eqn:Nx; [now left|]. destruct (isna y) eqn:Ny; [now right|].
    exfalso. assert (Hin : In (i, (x, y)) (dropna2 a b)) by (apply dropna2_In; tauto).
    rewrite E in Hin. contradiction.
  - apply Nat.eqb_neq in E. eexists. split; [reflexivity|]. split.
    + split; [discriminate|]. intro H. exfalso. apply E.
      destruct (dropna2 a b) as [|[i [x y]] rest] eqn:ED; [reflexivity|].
      assert (Hin : In (i, (x, y)) (dropna2 a b)) by (rewrite ED; now left).
      apply dropna2_In in Hin. destruct Hin as (Hx & Hy & Nx & Ny).
      destruct (H i x y Hx Hy); congruence.
    + intros r Hr. injection Hr as <-. cbn [nd_lithology nphi_data rhob_data].
      rewrite !map_map. cbn [fst].
      repeat (split; [reflexivity|]).
      intros i l Hl. apply in_map_iff in Hl. destruct Hl as (p & Hp & _).
      inversion Hp; subst. apply nd_label_vocabulary.
Qed.

(** X10: with an increasing square root the nearest-matrix label of a
    sample with finite readings that the gas rule leaves alone is decided by
    the bulk density alone (the four reference points share their neutron
    coordinate): Sandstone below 2.68, Limestone between 2.68 and 2.79,
    Dolomite between 2.79 and 2.915, Anhydrite above 2.915. *)
Theorem nearest_matrix_by_density (df : DataFrame) (nphi_col rhob_col : string)
        (a b : Series) (i : nat) (qn qd : Q) :
  (forall x y, 0 <= x -> x < y -> np_sqrt x < np_sqrt y) ->
  getitem df nphi_col = Ok a -> getitem df rhob_col = Ok b ->
  nth_error a i = Some (Fin qn) -> nth_error b i = Some (Fin qd) ->
  ~ (qd < 23#10 /\ qn / 100 < 15#100) ->
  exists r l,
    _neutron_density_lithology np_sqrt df nphi_col rhob_col = Ok (Some r) /\
    In (i, l) (nd_lithology r) /\
    (forall l', In (i, l') (nd_lithology r) -> l' = l) /\
    (qd < 268#100 -> l = Sandstone) /\
    (268#100 < qd < 279#100 -> l = Limestone) /\
    (279#100 < qd < 2915#1000 -> l = Dolomite) /\
    (2915#1000 < qd -> l = Anhydrite).
Proof.
  intros Hmono Ha Hb Hx Hy Hgas.
  destruct (neutron_density_rowwise np_sqrt df nphi_col rhob_col a b i (Fin qn) (Fin qd)
              Ha Hb Hx Hy eq_refl eq_refl) as (r & Hr & Hin & Huniq).
  rewrite fdiv_fin in Hin, Huniq by lra.
  destruct (nd_label_nearest np_sqrt (qn / 100) qd Hgas) as (m & Hm & Hmin).
  pose proof (nearest_matrix_nearest_density np_sqrt (qn / 100) qd _ m Hmono Hm Hmin) as Hd.
  exists r, (nd_label np_sqrt (Fin (qn / 100)) (Fin qd)).
  split; [exact Hr|]. split; [exact Hin|]. split; [exact Huniq|].
  set (l := nd_label np_sqrt (Fin (qn / 100)) (Fin qd)) in *.
  pose proof (Hd Sandstone (mkMatrix 0 (265#100))) as H1.
  pose proof (Hd Limestone (mkMatrix 0 (271#100))) as H2.
  pose proof (Hd Dolomite (mkMatrix 0 (287#100))) as H3.
  pose proof (Hd Anhydrite (mkMatrix 0 (296#100))) as H4.
  cbn [m_rhob] in H1, H2, H3, H4.
  assert (H1' := H1 ltac:(simpl; tauto)). assert (H2' := H2 ltac:(simpl; tauto)).
  assert (H3' := H3 ltac:(simpl; tauto)). assert (H4' := H4 ltac:(simpl; tauto)).
  clear H1 H2 H3 H4 Hd Hmin.
  simpl in Hm.
  destruct Hm as [Hm | [Hm | [Hm | [Hm | []]]]]; inversion Hm; subst m;
    cbn [m_rhob] in *; repeat split; intros; try reflexivity; exfalso; lra.
Qed.

End NeutronDensityMore.

(** ** Quantiles stay within the data; the gamma-ray method on null and
    constant curves *)

Lemma nth_In_default_free {A : Type} (l : list A) (i : nat) (d : A) :
  (i < length l)%nat -> In (nth i l d) l.
Proof. apply nth_In. Qed.

Lemma convex_between (a b f lo hi : Q) :
  lo <= a <= hi -> lo <= b <= hi -> 0 <= f <= 1 ->
  lo <= a + (b + - a) * f <= hi.
Proof.
  intros [Ha1 Ha2] [Hb1 Hb2] [Hf1 Hf2].
  assert (E1 : a + (b + - a) * f - lo == (a - lo) * (1 - f) + (b - lo) * f) by ring.
  assert (E2 : hi - (a + (b + - a) * f) == (hi - a) * (1 - f) + (hi - b) * f) by ring.
  assert (P1 : 0 <= (a - lo) * (1 - f)) by (apply Qmult_le_0_compat; lra).
  assert (P2 : 0 <= (b - lo) * f) by (apply Qmult_le_0_compat; lra).
  assert (P3 : 0 <= (hi - a) * (1 - f)) by (apply Qmult_le_0_compat; lra).
  assert (P4 : 0 <= (hi - b) * f) by (apply Qmult_le_0_compat; lra).
  split; lra.
Qed.

(** The interpolation position of a quantile is inside the values. *)
Lemma lerp_position_indices (q : Q) (n : nat) :
  0 <= q <= 1 -> (0 < n)%nat ->
  let pos := q * Qnat (n - 1) in
  let lo := Z.to_nat (Qfloor pos) in
  (lo < n)%nat /\ (Nat.min (lo + 1) (n - 1) < n)%nat /\ 0 <= pos - Qnat lo <= 1.
Proof.
  intros [Hq0 Hq1] Hn. cbv zeta.
  set (pos := q * Qnat (n - 1)).
  assert (Hm : 0 <= Qnat (n - 1)) by (apply (Qnat_le 0); lia).
  assert (Hpos0 : 0 <= pos) by (unfold pos; apply Qmult_le_0_compat; assumption).
  assert (Hpos1 : pos <= Qnat (n - 1)).
  { unfold pos. rewrite <- (Qmult_1_l (Qnat (n - 1))) at 2.
    apply Qmult_le_compat_r; assumption. }
  assert (Hf0 : (0 <= Qfloor pos)%Z).
  { change 0%Z with (Qfloor 0). now apply Qfloor_resp_le. }
  assert (Hf1 : (Qfloor pos <= Z.of_nat (n - 1))%Z).
  { rewrite <- (Qfloor_Z (Z.of_nat (n - 1))). now apply Qfloor_resp_le. }
  assert (Hlo : Qnat (Z.to_nat (Qfloor pos)) = inject_Z (Qfloor pos)).
  { unfold Qnat. now rewrite Z2Nat.id. }
  split; [lia|]. split; [lia|].
  rewrite Hlo.
  pose proof (Qfloor_le pos) as H1. pose proof (Qlt_floor pos) as H2.
  rewrite inject_Z_plus in H2. change (inject_Z 1) with 1 in H2. lra.
Qed.

(** A quantile of finite values lies between any two bounds of the values. *)
Lemma quantile_range (q lo hi : Q) (vs : list fval) :
  0 <= q <= 1 -> vs <> [] ->
  (forall x, In x vs -> exists a, x = Fin a /\ lo <= a <= hi) ->
  exists r, quantile q vs = Fin r /\ lo <= r <= hi.
Proof.
  intros Hq Hne Hall. unfold quantile.
  destruct vs as [|v vs']; [congruence|].
  set (vs := v :: vs') in *.
  assert (HL : forall x, In x (sort vs) -> exists a, x = Fin a /\ lo <= a <= hi).
  { intros x Hx. apply Hall. apply (Permutation_in _ (sort_perm vs) Hx). }
  assert (Hn : (0 < length (sort vs))%nat).
  { rewrite (Permutation_length (sort_perm vs)). simpl. lia. }
  unfold lerp_position.
  destruct (lerp_position_indices q (length (sort vs)) Hq Hn) as (H1 & H2 & H3).
  cbv zeta in H1, H2, H3.
  destruct (HL _ (nth_In (sort vs) NaN H1)) as (a & Ea & Ra).
  destruct (HL _ (nth_In (sort vs) NaN H2)) as (b & Eb & Rb).
  rewrite Ea, Eb. cbn [fsub fneg fadd fmul].
  eexists. split; [reflexivity|]. now apply convex_between.
Qed.

Lemma dropna_all_null (s : Series) :
  (forall x, In x s -> isna x = true) -> dropna s = [].
Proof.
  intro H. unfold dropna. apply filter_nil_iff. intros [i x] Hx. cbn [snd].
  apply indexed_In in Hx. apply nth_error_In in Hx. now rewrite (H x Hx).
Qed.

Section GammaRayEdges.

Variable exp2 : Q -> Q.

(** X11: a fully-null curve is not a skip for the gamma-ray and the
    photoelectric methods: each returns a result whose series are empty (the
    gamma-ray baselines being NaN), where the neutron-density method returns
    None. *)
Theorem null_curve_gives_empty_result (df : DataFrame) (col : string) (s : Series) :
  getitem df col = Ok s ->
  (forall x, In x s -> isna x = true) ->
  _gamma_ray_lithology exp2 df col = Ok (mkGammaRayResult [] [] [] NaN NaN) /\
  _photoelectric_lithology df col = Ok (mkPEResult [] []).
Proof.
  intros Hget Hnull. pose proof (dropna_all_null s Hnull) as E. split.
  - rewrite (gamma_ray_rowwise exp2 df col s Hget), E. reflexivity.
  - rewrite (photoelectric_rowwise df col s Hget), E. reflexivity.
Qed.

(** The normalized value of a reading that equals both baselines is 0/0. *)
Lemma gr_index_degenerate (s : Series) (a c : Q) :
  a == c ->
  (exists r1, quantile (5#100) (values (dropna s)) = Fin r1 /\ r1 == c) ->
  (exists r2, quantile (95#100) (values (dropna s)) = Fin r2 /\ r2 == c) ->
  gr_index s (Fin a) = NaN.
Proof.
  intros Ha (r1 & E1 & H1) (r2 & E2 & H2). unfold gr_index. rewrite E1, E2.
  cbn [fsub fneg fadd]. unfold fdiv.
  assert (Ed : Qeq_bool (r2 + - r1) 0 = true) by (apply Qeq_bool_iff; lra).
  rewrite Ed.
  assert (En : (a + - r1 ?= 0) = Eq) by (apply Qeq_alt; lra).
  rewrite En. reflexivity.
Qed.

(** X12: on a gamma-ray curve whose valid readings are all equal the two
    percentile baselines coincide with them, the normalization is 0/0, and
    the method labels no sample: every valid sample gets a NaN shale
    fraction and no lithology. *)
Theorem constant_curve_unlabeled (df : DataFrame) (col : string) (s : Series) (c : Q) :
  getitem df col = Ok s ->
  (forall x, In x s -> isna x = true \/ exists a, x = Fin a /\ a == c) ->
  exists r,
    _gamma_ray_lithology exp2 df col = Ok r /\
    map fst (gr_lithology r) = map fst (dropna s) /\
    (forall i l, In (i, l) (gr_lithology r) -> l = None) /\
    (forall i v, In (i, v) (v_shale_tertiary r) -> v = NaN) /\
    (forall i v, In (i, v) (v_shale_older r) -> v = NaN).
Proof.
  intros Hget Hc.
  assert (Hvals : forall x, In x (values (dropna s)) -> exists a, x = Fin a /\ c <= a <= c).
  { intros x Hx. rewrite values_dropna in Hx. apply filter_In in Hx.
    destruct Hx as [Hx Hna]. destruct (Hc x Hx) as [Hn | (a & -> & Ha)].
    - rewrite Hn in Hna. discriminate.
    - exists a. split; [reflexivity | lra]. }
  assert (Hrow : forall p, In p (dropna s) -> gr_index s (snd p) = NaN).
  { intros [i x] Hp. cbn [snd].
    assert (Hx : In x (values (dropna s))) by (apply in_map_iff; exists (i, x); tauto).
    assert (Hne : values (dropna s) <> []) by (intro E; rewrite E in Hx; contradiction).
    destruct (Hvals x Hx) as (a & -> & Ha).
    destruct (quantile_range (5#100) c c _ ltac:(lra) Hne Hvals) as (r1 & E1 & R1).
    destruct (quantile_range (95#100) c c _ ltac:(lra) Hne Hvals) as (r2 & E2 & R2).
    apply (gr_index_degenerate s a c); [lra | exists r1 | exists r2]; split; auto; lra. }
  eexists. split; [apply gamma_ray_rowwise; exact Hget|].
  cbn [gr_lithology v_shale_tertiary v_shale_older].
  split; [rewrite map_map; reflexivity|].
  repeat split; intros i v Hv; apply in_map_iff in Hv; destruct Hv as (p & Hp & Hin);
    inversion Hp; subst; rewrite (Hrow p Hin); reflexivity.
Qed.

End GammaRayEdges.

(** ** Clustering: the number of clusters chosen and the shape of the result *)

Lemma nth_error_range2 (stop i k : nat) :
  nth_error (range2 stop) i = Some k -> k = (2 + i)%nat /\ (i < stop - 2)%nat.
Proof.
  unfold range2. intro H.
  assert (Hi : (i < length (seq 2 (stop - 2)))%nat)
    by (apply nth_error_Some; congruence).
  rewrite length_seq in Hi. split; [|exact Hi].
  apply (nth_error_nth _ _ 0%nat) in H. rewrite seq_nth in H by exact Hi. lia.
Qed.

Lemma set_iloc_app {A : Type} (pre rest : list (option A)) (x : option A) (v : A) :
  set_iloc (pre ++ x :: rest) (length pre) v = Ok (pre ++ Some v :: rest).
Proof.
  induction pre as [|y pre IH]; [reflexivity|].
  cbn [app length set_iloc]. rewrite IH. reflexivity.
Qed.

(** The loop over [enumerate(clusters)] writes one facies label per sample. *)
Lemma assign_clusters_app (cs : list nat) (pre rest : list (option label)) :
  length cs = length rest ->
  assign_clusters (pre ++ rest) (length pre) cs =
  Ok (pre ++ map (fun c => Some (Facies c)) cs).
Proof.
  revert pre rest. induction cs as [|c cs IH]; intros pre rest Hlen.
  - destruct rest; [|discriminate]. reflexivity.
  - destruct rest as [|x rest]; [discriminate|].
    cbn [assign_clusters]. rewrite set_iloc_app. cbn [bind].
    replace (pre ++ Some (Facies c) :: rest) with ((pre ++ [Some (Facies c)]) ++ rest)
      by (rewrite <- app_assoc; reflexivity).
    replace (S (length pre)) with (length (pre ++ [Some (Facies c)]))
      by (rewrite length_app; simpl; lia).
    rewrite IH by (simpl in Hlen; lia).
    rewrite <- app_assoc. reflexivity.
Qed.

(** The elbow rule on the inertias of [range(2, min(8, n // 5))]. *)
Lemma optimal_k_bounds (n : nat) (inertias : list Q) :
  (10 <= n)%nat ->
  length inertias = length (range2 (Nat.min 8 (n / 5))) ->
  exists k,
    (if (2 <? length inertias)%nat then
       i <- argmax (diff (diff inertias)) ;;
       range_getitem (range2 (Nat.min 8 (n / 5))) i
     else Ok 3%nat) = Ok k /\
    (k <= n)%nat /\
    ((n < 25)%nat -> k = 3%nat) /\
    ((25 <= n)%nat -> (2 <= k <= 5)%nat /\ (k + 3 <= Nat.min 8 (n / 5))%nat).
Proof.
  intros Hn Hlen.
  pose proof (Nat.div_mod_eq n 5) as Hdm.
  pose proof (Nat.mod_upper_bound n 5 ltac:(lia)) as Hmod.
  unfold range2 in Hlen. rewrite length_seq in Hlen.
  destruct (2 <? length inertias)%nat eqn:E.
  - apply Nat.ltb_lt in E.
    destruct (argmax_total (diff (diff inertias))) as (i & Hi & Hbound).
    { intro H0. apply (f_equal (@length Q)) in H0.
      rewrite !diff_length in H0. simpl in H0. lia. }
    rewrite Hi. cbn [bind]. rewrite !diff_length in Hbound.
    unfold range_getitem.
    destruct (nth_error (range2 (Nat.min 8 (n / 5))) i) as [k|] eqn:Ek.
    + exists k. split; [reflexivity|].
      apply nth_error_range2 in Ek. destruct Ek as [-> Hi2]. lia.
    + apply nth_error_None in Ek. unfold range2 in Ek. rewrite length_seq in Ek. lia.
  - apply Nat.ltb_ge in E. exists 3%nat. split; [reflexivity|]. lia.
Qed.

Section ClusteringShape.

Variable standardize : list (list Q) -> list (list Q).
Variable kmeans : nat -> list (list Q) -> list nat * Q.

Hypothesis standardize_length : forall M, length (standardize M) = length M.
Hypothesis kmeans_length : forall k X, length (fst (kmeans k X)) = length X.

(** X13: when at least two candidate curves are present and at least 10
    joint valid samples exist, on a frame of finite or null readings, the
    clustering method returns the fit of k-means on the standardized joint
    samples for a number of clusters k that is 3 whenever fewer than 25
    joint samples exist (fewer than three candidate counts are then tried)
    and between 2 and 5 otherwise: the counts 6 and 7 are fitted but never
    chosen.  The result names the present candidate curves and labels each
    joint sample [Facies_c] with c its cluster. *)
Theorem clustering_result_shape (df : DataFrame) :
  frame_finite df ->
  (2 <= length (present_candidates df))%nat ->
  (10 <= length (joint_rows df))%nat ->
  exists res k M,
    _ml_lithology_clustering standardize kmeans df = Ok (Some res) /\
    finite_matrix (values (joint_rows df)) = Some M /\
    clusters res = fst (kmeans k (standardize M)) /\
    features res = present_candidates df /\
    ml_lithology res =
      combine (map fst (joint_rows df)) (map (fun c => Some (Facies c)) (clusters res)) /\
    length (ml_lithology res) = length (joint_rows df) /\
    ((length (joint_rows df) < 25)%nat -> k = 3%nat) /\
    ((25 <= length (joint_rows df))%nat -> (2 <= k <= 5)%nat).
Proof.
  intros Hfin Hc Hrows. unfold _ml_lithology_clustering. fold (present_candidates df).
  assert (E1 : (length (present_candidates df) <? 2)%nat = false) by (apply Nat.ltb_ge; lia).
  rewrite E1.
  unfold present_candidates at 1. rewrite getitems_present. cbn [bind].
  fold (present_candidates df). fold (joint_rows df).
  assert (E2 : (length (joint_rows df) <? 10)%nat = false) by (apply Nat.ltb_ge; lia).
  rewrite E2.
  destruct (finite_matrix_total (values (joint_rows df))) as (M & HM & HlenM).
  { intros row Hrow. unfold values in Hrow. apply in_map_iff in Hrow.
    destruct Hrow as (p & <- & Hp).
    apply (dropna_rows_finite (nrows df) (select_columns df (present_candidates df))).
    - intros c Hcin. apply select_columns_In in Hcin. destruct Hcin as [n Hcin].
      apply (Hfin _ Hcin).
    - exact Hp. }
  unfold values in HlenM. rewrite length_map in HlenM.
  unfold StandardScaler_fit_transform. rewrite HM. cbn [bind].
  assert (Hscaled : length (standardize M) = length (joint_rows df))
    by (rewrite standardize_length; exact HlenM).
  destruct (inertias_of_total kmeans (range2 (Nat.min 8 (length (joint_rows df) / 5)))
                              (standardize M)) as (inertias & Hi & Hleni).
  { intros k Hk. apply range2_In in Hk. rewrite Hscaled.
    pose proof (Nat.div_mod_eq (length (joint_rows df)) 5). lia. }
  rewrite Hi. cbn [bind].
  destruct (optimal_k_bounds (length (joint_rows df)) inertias Hrows Hleni)
    as (k & Hk & Hkn & Hk3 & Hk5).
  rewrite Hk. cbn [bind].
  assert (Hfit : KMeans_fit kmeans k (standardize M) = Ok (kmeans k (standardize M))).
  { unfold KMeans_fit.
    assert (E : (length (standardize M) <? k)%nat = false) by (apply Nat.ltb_ge; lia).
    now rewrite E. }
  rewrite Hfit. cbn [bind].
  assert (Hcl : length (fst (kmeans k (standardize M))) = length (joint_rows df))
    by (rewrite kmeans_length; exact Hscaled).
  pose proof (assign_clusters_app (fst (kmeans k (standardize M))) []
                (map (fun _ => None) (joint_rows df))) as Hassign.
  cbn [app length] in Hassign. rewrite Hassign by (rewrite length_map; exact Hcl).
  cbn [bind].
  eexists _, k, M. split; [reflexivity|].
  cbn [clusters features ml_lithology].
  split; [reflexivity|]. split; [reflexivity|]. split; [reflexivity|].
  split; [reflexivity|].
  split; [rewrite length_combine, !length_map, Hcl; lia|].
  split; [exact Hk3 | intro H; exact (proj1 (Hk5 H))].
Qed.

End ClusteringShape.

(** ** Porosity: where the clips saturate, the gas flag, and nulls *)

(** The density porosity as a function of the bulk density: linear between
    the fluid-side bound 1.825 and the matrix density 2.65, clipped outside. *)
Lemma density_porosity_value (d : Q) :
  exists qd,
    density_porosity (Fin d) = Fin qd /\
    (rho_matrix <= d -> qd == 0) /\
    (1825#1000 <= d <= rho_matrix -> qd == (rho_matrix - d) / (rho_matrix - rho_fluid)) /\
    (d <= 1825#1000 -> qd == 1#2).
Proof.
  unfold density_porosity. cbn [fsub fneg fadd].
  rewrite fdiv_fin by (unfold rho_matrix, rho_fluid; lra).
  destruct (fclip_fin 0 (1#2) ((rho_matrix + - d) / (rho_matrix - rho_fluid)))
    as (c & Hc & Hr & Hlo & Hhi & Hmid); [lra|].
  exists c. split; [exact Hc|].
  unfold rho_matrix, rho_fluid in *.
  assert (Hdiv : ((265 # 100) + - d) / ((265 # 100) - 1) == ((265 # 100) - d) * (100 # 165)).
  { assert (E : (265 # 100) - 1 == 165 # 100) by lra.
    rewrite E. unfold Qdiv, Qminus. apply Qmult_comp; reflexivity. }
  assert (Hdiv' : ((265 # 100) - d) / ((265 # 100) - 1) == ((265 # 100) - d) * (100 # 165)).
  { rewrite <- Hdiv. reflexivity. }
  rewrite Hdiv in Hlo, Hhi, Hmid. rewrite Hdiv'.
  repeat split; intros; [apply Hlo | apply Hmid | apply Hhi]; lra.
Qed.

Lemma neutron_porosity_value (n : Q) :
  exists qn,
    neutron_porosity (Fin n) = Fin qn /\
    (n <= 0 -> qn == 0) /\
    (0 <= n <= 50 -> qn == n / 100) /\
    (50 <= n -> qn == 1#2).
Proof.
  unfold neutron_porosity. rewrite fdiv_fin by lra.
  destruct (fclip_fin 0 (1#2) (n / 100)) as (c & Hc & Hr & Hlo & Hhi & Hmid); [lra|].
  exists c. split; [exact Hc|].
  assert (Hdiv : n / 100 == n * (1 # 100)) by (unfold Qdiv; reflexivity).
  rewrite Hdiv in Hlo, Hhi, Hmid. rewrite Hdiv.
  repeat split; intros; [apply Hlo | apply Hmid | apply Hhi]; lra.
Qed.

Lemma porosity_entry (rhob nprl : Series) (i : nat) (x y : fval) :
  nth_error nprl i = Some x -> nth_error rhob i = Some y ->
  nth_error (combine (map density_porosity rhob) (map neutron_porosity nprl)) i
  = Some (density_porosity y, neutron_porosity x).
Proof.
  intros Hx Hy. apply nth_error_combine.
  - now rewrite nth_error_map, Hy.
  - now rewrite nth_error_map, Hx.
Qed.

(** X14: the two porosities as functions of the readings: the density
    porosity is (2.65 - DEN) / 1.65 for a bulk density between 1.825 and
    2.65, 0 above and 0.5 below; the neutron porosity is NPRL / 100 for a
    reading between 0 and 50, 0 below and 0.5 above. *)
Theorem porosity_saturation (df : DataFrame) (nprl rhob : Series) (i : nat) (n d : Q) :
  getitem df NPRL = Ok nprl -> getitem df DEN = Ok rhob ->
  nth_error nprl i = Some (Fin n) -> nth_error rhob i = Some (Fin d) ->
  exists r qd qn,
    _calculate_porosity df = Ok (Some r) /\
    nth_error (phi_density r) i = Some (Fin qd) /\
    nth_error (phi_neutron r) i = Some (Fin qn) /\
    (rho_matrix <= d -> qd == 0) /\
    (1825#1000 <= d <= rho_matrix -> qd == (rho_matrix - d) / (rho_matrix - rho_fluid)) /\
    (d <= 1825#1000 -> qd == 1#2) /\
    (n <= 0 -> qn == 0) /\
    (0 <= n <= 50 -> qn == n / 100) /\
    (50 <= n -> qn == 1#2).
Proof.
  intros Hn Hd Hin Hid.
  destruct (density_porosity_value d) as (qd & Ed & D1 & D2 & D3).
  destruct (neutron_porosity_value n) as (qn & En & N1 & N2 & N3).
  eexists _, qd, qn.
  split; [apply calculate_porosity_rows; eassumption|].
  cbn [phi_density phi_neutron].
  split; [rewrite nth_error_map, Hid; simpl; now rewrite Ed|].
  split; [rewrite nth_error_map, Hin; simpl; now rewrite En|].
  repeat (split; [assumption|]). assumption.
Qed.

(** X15: the gas correction never lowers the porosity: at a sample with
    finite readings that is flagged as gas-affected the bulk density is below
    2.584 and the corrected porosity exceeds the combined one by more than
    0.02; at a sample that is not flagged the two are the same value. *)
Theorem gas_correction_raises (df : DataFrame) (nprl rhob : Series) (i : nat) (n d : Q) :
  getitem df NPRL = Ok nprl -> getitem df DEN = Ok rhob ->
  nth_error nprl i = Some (Fin n) -> nth_error rhob i = Some (Fin d) ->
  exists r qc qk g,
    _calculate_porosity df = Ok (Some r) /\
    nth_error (phi_combined r) i = Some (Fin qc) /\
    nth_error (phi_corrected r) i = Some (Fin qk) /\
    nth_error (gas_flag r) i = Some g /\
    qc <= qk /\
    (g = true -> d < 2584#1000 /\ qc + (2#100) < qk) /\
    (g = false -> qk = qc).
Proof.
  intros Hn Hd Hin Hid.
  destruct (density_porosity_value d) as (qd & Ed & D1 & D2 & D3).
  destruct (neutron_porosity_fin n) as (qn & En & Rn & _).
  assert (Hc : combined_porosity (Fin qd) (Fin qn) = Fin ((qd + qn) / 2)).
  { unfold combined_porosity. cbn [fadd]. apply fdiv_fin. lra. }
  assert (Hhalf : (qd + qn) / 2 == (qd + qn) * (1 # 2)) by (unfold Qdiv; reflexivity).
  assert (Hg : gas_effect (Fin qd) (Fin qn) = true <-> qn < qd - (4#100)).
  { unfold gas_effect. cbn [fsub fneg fadd]. rewrite fltb_fin. split; intro H; lra. }
  pose proof (porosity_entry rhob nprl i _ _ Hin Hid) as Hrow.
  rewrite Ed, En in Hrow.
  assert (Hk : exists qk, corrected_porosity (Fin qd) (Fin qn) = Fin qk /\
                 (qd + qn) / 2 <= qk /\
                 (gas_effect (Fin qd) (Fin qn) = true ->
                  d < 2584#1000 /\ (qd + qn) / 2 + (2#100) < qk) /\
                 (gas_effect (Fin qd) (Fin qn) = false -> qk = (qd + qn) / 2)).
  { unfold corrected_porosity. rewrite Hc.
    destruct (gas_effect (Fin qd) (Fin qn)) eqn:G.
    - assert (Hlt : qn < qd - (4#100)) by now apply Hg.
      exists qd. split; [reflexivity|]. split; [lra|]. split; [|discriminate].
      intros _. split; [|lra].
      destruct (Qlt_le_dec d (2584#1000)) as [H|H]; [exact H|]. exfalso.
      unfold rho_matrix, rho_fluid in *.
      destruct (Qlt_le_dec (265#100) d) as [Hbig|Hsmall].
      + assert (qd == 0) by (apply D1; lra). lra.
      + assert (E : qd == ((265#100) - d) / ((265#100) - 1)) by (apply D2; lra).
        assert (E2 : ((265#100) - d) / ((265#100) - 1) == ((265#100) - d) * (100#165)).
        { assert (E3 : (265 # 100) - 1 == 165 # 100) by lra.
          rewrite E3. unfold Qdiv. apply Qmult_comp; reflexivity. }
        lra.
    - exists ((qd + qn) / 2). split; [reflexivity|]. split; [lra|].
      split; [discriminate | reflexivity]. }
  destruct Hk as (qk & Ek & Hle & Hgt & Hng).
  eexists _, ((qd + qn) / 2), qk, (gas_effect (Fin qd) (Fin qn)).
  split; [apply calculate_porosity_rows; eassumption|].
  cbn [phi_combined phi_corrected gas_flag].
  split; [rewrite nth_error_map, Hrow; simpl; now rewrite Hc|].
  split; [rewrite nth_error_map, Hrow; simpl; now rewrite Ek|].
  split; [rewrite nth_error_map, Hrow; reflexivity|].
  split; [exact Hle|]. split; assumption.
Qed.

Lemma porosity_saturation_witness :
  exists r qd qn,
    _calculate_porosity frame_c4 = Ok (Some r) /\
    nth_error (phi_density r) 1 = Some (Fin qd) /\
    nth_error (phi_neutron r) 1 = Some (Fin qn) /\
    (rho_matrix <= 22#10 -> qd == 0) /\
    (1825#1000 <= 22#10 <= rho_matrix ->
     qd == (rho_matrix - (22#10)) / (rho_matrix - rho_fluid)) /\
    (22#10 <= 1825#1000 -> qd == 1#2) /\
    (10 <= 0 -> qn == 0) /\
    (0 <= 10 <= 50 -> qn == 10 / 100) /\
    (50 <= 10 -> qn == 1#2).
Proof.
  apply (porosity_saturation frame_c4 [Fin 20; Fin 10] [Fin (24#10); Fin (22#10)]
           1 10 (22#10)); reflexivity.
Defined.

Lemma gas_correction_raises_witness :
  exists r qc qk g,
    _calculate_porosity frame_c4 = Ok (Some r) /\
    nth_error (phi_combined r) 1 = Some (Fin qc) /\
    nth_error (phi_corrected r) 1 = Some (Fin qk) /\
    nth_error (gas_flag r) 1 = Some g /\
    qc <= qk /\
    (g = true -> 22#10 < 2584#1000 /\ qc + (2#100) < qk) /\
    (g = false -> qk = qc).
Proof.
  apply (gas_correction_raises frame_c4 [Fin 20; Fin 10] [Fin (24#10); Fin (22#10)]
           1 10 (22#10)); reflexivity.
Defined.

(** ** The property chain at null and at zero-porosity samples *)

Section PropertyChain.

Variable pow_half : Q -> Q.
Variable pow_4_4 : Q -> Q.

(** With the three curves present, the entries of the property pass. *)
Lemma property_pass_rows (df : DataFrame) (nprl rhob rt : Series) :
  getitem df NPRL = Ok nprl -> getitem df DEN = Ok rhob -> getitem df RTAT = Ok rt ->
  exists pr ws perm ntg,
    petrophysical_calculations_all pow_half pow_4_4 df =
      Ok (mkPetroResultsAll (Some (Some pr)) (Some (Some ws)) (Some perm) ntg) /\
    phi_corrected pr =
      map (fun r => corrected_porosity (fst r) (snd r))
          (combine (map density_porosity rhob) (map neutron_porosity nprl)) /\
    phi_combined pr =
      map (fun r => combined_porosity (fst r) (snd r))
          (combine (map density_porosity rhob) (map neutron_porosity nprl)) /\
    gas_flag pr =
      map (fun r => gas_effect (fst r) (snd r))
          (combine (map density_porosity rhob) (map neutron_porosity nprl)) /\
    sw ws = map (fun r => water_saturation_of pow_half (fst r) (snd r))
                (combine (map formation_factor_of (phi_corrected pr)) rt) /\
    sh ws = map (fun s => fsub (Fin 1) s) (sw ws) /\
    formation_factor ws = map formation_factor_of (phi_corrected pr) /\
    k_kozeny perm = map kozeny_carman (phi_corrected pr) /\
    k_average perm =
      map (fun k => fdiv (fadd (fst k) (snd k)) (Fin 2))
          (combine (k_kozeny perm) (map (timur pow_4_4) (phi_corrected pr))).
Proof.
  intros Hn Hd Hrt.
  destruct (calculate_net_to_gross_total df) as [rn Hrn].
  unfold petrophysical_calculations_all.
  rewrite (getitem_has_column _ _ _ Hn), (getitem_has_column _ _ _ Hd),
    (getitem_has_column _ _ _ Hrt), (calculate_porosity_rows df nprl rhob Hn Hd).
  cbn [andb bind].
  rewrite (calculate_water_saturation_rows pow_half df rt _ Hrt). cbn [bind].
  rewrite estimate_permeability_rows. cbn [bind].
  exists (mkPorosityResult
            (map density_porosity rhob) (map neutron_porosity nprl)
            (map (fun r => combined_porosity (fst r) (snd r))
                 (combine (map density_porosity rhob) (map neutron_porosity nprl)))
            (map (fun r => corrected_porosity (fst r) (snd r))
                 (combine (map density_porosity rhob) (map neutron_porosity nprl)))
            (map (fun r => gas_effect (fst r) (snd r))
                 (combine (map density_porosity rhob) (map neutron_porosity nprl)))).
  do 2 eexists. exists (if has_column df GGCE then Some rn else None).
  split; [destruct (has_column df GGCE); [rewrite Hrn|]; reflexivity|].
  cbn [phi_corrected phi_combined gas_flag sw sh formation_factor k_kozeny k_average].
  repeat (split; [reflexivity|]). reflexivity.
Qed.

Lemma gas_effect_null (pd pn : fval) :
  isna pd = true \/ isna pn = true -> gas_effect pd pn = false.
Proof.
  unfold gas_effect. intros [H | H].
  - destruct pd; try discriminate. cbn [fsub fneg fadd]. apply fltb_nan_r.
  - destruct pn; try discriminate. reflexivity.
Qed.

Lemma combined_porosity_null (pd pn : fval) :
  isna pd = true \/ isna pn = true -> combined_porosity pd pn = NaN.
Proof.
  unfold combined_porosity. intros [H | H].
  - destruct pd; try discriminate. reflexivity.
  - destruct pn; try discriminate. destruct pd; reflexivity.
Qed.

Lemma water_saturation_null (rt : fval) :
  water_saturation_of pow_half (formation_factor_of NaN) rt = NaN.
Proof. destruct rt; reflexivity. Qed.

(** X16: a null reading propagates down the whole chain: at a sample where
    the neutron or the density reading is null, the combined and the
    corrected porosity, the water and the hydrocarbon saturation and the
    Kozeny-Carman and mean permeability are all NaN, and the sample is never
    flagged as gas-affected. *)
Theorem null_propagates_down_the_chain (df : DataFrame) (nprl rhob rt : Series)
        (i : nat) (x y z : fval) :
  getitem df NPRL = Ok nprl -> getitem df DEN = Ok rhob -> getitem df RTAT = Ok rt ->
  nth_error nprl i = Some x -> nth_error rhob i = Some y -> nth_error rt i = Some z ->
  isna x = true \/ isna y = true ->
  exists res pr ws perm,
    petrophysical_calculations_all pow_half pow_4_4 df = Ok res /\
    all_porosity res = Some (Some pr) /\
    all_water_saturation res = Some (Some ws) /\
    all_permeability res = Some perm /\
    nth_error (phi_combined pr) i = Some NaN /\
    nth_error (phi_corrected pr) i = Some NaN /\
    nth_error (gas_flag pr) i = Some false /\
    nth_error (sw ws) i = Some NaN /\
    nth_error (sh ws) i = Some NaN /\
    nth_error (k_kozeny perm) i = Some NaN /\
    nth_error (k_average perm) i = Some NaN.
Proof.
  intros Hn Hd Hrt Hx Hy Hz Hnull.
  destruct (property_pass_rows df nprl rhob rt Hn Hd Hrt)
    as (pr & ws & perm & ntg & Hres & Hphi & Hcomb & Hgas & Hsw & Hsh & _ & Hkz & Hka).
  assert (Hnull' : isna (density_porosity y) = true \/ isna (neutron_porosity x) = true).
  { destruct Hnull as [H | H]; [right | left].
    - destruct x; try discriminate. reflexivity.
    - destruct y; try discriminate. reflexivity. }
  pose proof (porosity_entry rhob nprl i x y Hx Hy) as Hrow.
  assert (Ec : nth_error (phi_combined pr) i = Some NaN).
  { rewrite Hcomb, nth_error_map, Hrow. cbn [option_map fst snd].
    now rewrite combined_porosity_null. }
  assert (Ek : nth_error (phi_corrected pr) i = Some NaN).
  { rewrite Hphi, nth_error_map, Hrow. cbn [option_map fst snd].
    unfold corrected_porosity. rewrite gas_effect_null, combined_porosity_null by assumption.
    reflexivity. }
  assert (Es : nth_error (sw ws) i = Some NaN).
  { rewrite Hsw, nth_error_map.
    rewrite (nth_error_combine _ _ i (formation_factor_of NaN) z).
    - cbn [option_map fst snd]. now rewrite water_saturation_null.
    - now rewrite nth_error_map, Ek.
    - exact Hz. }
  assert (Ekz : nth_error (k_kozeny perm) i = Some NaN)
    by (rewrite Hkz, nth_error_map, Ek; reflexivity).
  eexists _, pr, ws, perm. split; [exact Hres|].
  cbn [all_porosity all_water_saturation all_permeability].
  do 3 (split; [reflexivity|]).
  split; [exact Ec|]. split; [exact Ek|].
  split; [rewrite Hgas, nth_error_map, Hrow; cbn [option_map fst snd];
          now rewrite gas_effect_null|].
  split; [exact Es|].
  split; [rewrite Hsh, nth_error_map, Es; reflexivity|].
  split; [exact Ekz|].
  rewrite Hka, nth_error_map.
  rewrite (nth_error_combine _ _ i NaN (timur pow_4_4 NaN)).
  - reflexivity.
  - exact Ekz.
  - now rewrite nth_error_map, Ek.
Qed.

(** X17: zero porosity reads as fully water saturated: at a sample whose
    bulk density is at least 2.65 and whose neutron reading is at most 0,
    with a finite non-negative resistivity, the formation factor is
    +infinity by the division by zero, the clip brings the water saturation
    to exactly 1, the hydrocarbon saturation is 0 and the Kozeny-Carman
    permeability is 0; nothing is raised. *)
Theorem zero_porosity_fully_water_saturated (df : DataFrame) (nprl rhob rt : Series)
        (i : nat) (n d r : Q) :
  getitem df NPRL = Ok nprl -> getitem df DEN = Ok rhob -> getitem df RTAT = Ok rt ->
  nth_error nprl i = Some (Fin n) -> nth_error rhob i = Some (Fin d) ->
  nth_error rt i = Some (Fin r) ->
  n <= 0 -> rho_matrix <= d -> 0 <= r ->
  exists res pr ws perm h k,
    petrophysical_calculations_all pow_half pow_4_4 df = Ok res /\
    all_porosity res = Some (Some pr) /\
    all_water_saturation res = Some (Some ws) /\
    all_permeability res = Some perm /\
    nth_error (formation_factor ws) i = Some PInf /\
    nth_error (sw ws) i = Some (Fin 1) /\
    nth_error (sh ws) i = Some (Fin h) /\ h == 0 /\
    nth_error (k_kozeny perm) i = Some (Fin k) /\ k == 0.
Proof.
  intros Hn Hd Hrt Hx Hy Hz Hn0 Hd0 Hr0.
  destruct (property_pass_rows df nprl rhob rt Hn Hd Hrt)
    as (pr & ws & perm & ntg & Hres & Hphi & _ & _ & Hsw & Hsh & HFws & Hkz & _).
  destruct (porosity_row n d)
    as (qd & qn & qc & qk & Ed & En & Ec & Ek & Rd & Rn & Rc & Rk & Hc & Hg & Hg1 & Hg0 & Hzero).
  assert (Hqk : qk == 0) by (apply Hzero; split; assumption).
  pose proof (porosity_entry rhob nprl i _ _ Hx Hy) as Hrow. rewrite Ed, En in Hrow.
  assert (Hphi_i : nth_error (phi_corrected pr) i = Some (Fin qk)).
  { rewrite Hphi, nth_error_map, Hrow. cbn [option_map fst snd]. now rewrite Ek. }
  destruct (formation_factor_of_fin qk) as [HF _]. specialize (HF Hqk).
  assert (HFi : nth_error (map formation_factor_of (phi_corrected pr)) i = Some PInf).
  { rewrite nth_error_map, Hphi_i. cbn [option_map]. now rewrite HF. }
  assert (Hsw1 : water_saturation_of pow_half PInf (Fin r) = Fin 1).
  { unfold water_saturation_of. change (fmul (Fin rw) PInf) with PInf.
    cbn [fdiv fneg].
    assert (E : Qlt_bool r 0 = false) by now apply Qlt_bool_false_iff.
    rewrite E. reflexivity. }
  destruct (kozeny_carman_range qk Rk) as (k & Hk & _ & Hk0).
  assert (Hswi : nth_error (sw ws) i = Some (Fin 1)).
  { rewrite Hsw, nth_error_map, (nth_error_combine _ _ i PInf (Fin r) HFi Hz).
    cbn [option_map fst snd]. now rewrite Hsw1. }
  eexists _, pr, ws, perm, (1 + - 1), k.
  split; [exact Hres|].
  cbn [all_porosity all_water_saturation all_permeability].
  do 3 (split; [reflexivity|]).
  split; [rewrite HFws; exact HFi|]. split; [exact Hswi|].
  split; [rewrite Hsh, nth_error_map, Hswi; reflexivity|].
  split; [reflexivity|].
  split; [rewrite Hkz, nth_error_map, Hphi_i; cbn [option_map]; now rewrite Hk|].
  now apply Hk0.
Qed.

End PropertyChain.

(** ** The gamma-ray curve the two passes read *)

Section GammaSource.

Variables exp2 np_sqrt : Q -> Q.
Variable standardize : list (list Q) -> list (list Q).
Variable kmeans : nat -> list (list Q) -> list nat * Q.

Hypothesis standardize_length : forall M, length (standardize M) = length M.
Hypothesis kmeans_length : forall k X, length (fst (kmeans k X)) = length X.

(** After the gamma-ray entry the pass goes through without raising. *)
Lemma lithology_pass_after_gamma (df : DataFrame) :
  frame_finite df ->
  exists rn rp rm,
    forall rg : option GammaRayResult,
      (r_nd <-
         (if has_column df NPRL && has_column df DEN then
            r <- _neutron_density_lithology np_sqrt df NPRL DEN ;; Ok (Some r)
          else Ok None) ;;
       r_pe <-
         (if has_column df PDPE then
            r <- _photoelectric_lithology df PDPE ;; Ok (Some r)
          else Ok None) ;;
       r_ml <-
         (if (3 <=? numeric_columns df)%nat then
            r <- _ml_lithology_clustering standardize kmeans df ;; Ok (Some r)
          else Ok None) ;;
       Ok (mkLithologyResults rg r_nd r_pe r_ml))
      = Ok (mkLithologyResults rg rn rp rm).
Proof.
  intro Hfin.
  destruct (ml_clustering_total standardize kmeans standardize_length kmeans_length df Hfin)
    as (m & Hm & _).
  assert (Hn : exists rn,
             (if has_column df NPRL && has_column df DEN
              then r <- _neutron_density_lithology np_sqrt df NPRL DEN ;; Ok (Some r)
              else Ok None) = Ok rn).
  { destruct (has_column df NPRL) eqn:E1, (has_column df DEN) eqn:E2; cbn [andb]; eauto.
    destruct (neutron_density_total np_sqrt df NPRL DEN E1 E2) as [r Hr].
    rewrite Hr. cbn [bind]. eauto. }
  assert (Hp : exists rp,
             (if has_column df PDPE
              then r <- _photoelectric_lithology df PDPE ;; Ok (Some r)
              else Ok None) = Ok rp).
  { destruct (has_column df PDPE) eqn:E1; eauto.
    destruct (photoelectric_total df PDPE E1) as [r Hr]. rewrite Hr. cbn [bind]. eauto. }
  destruct Hn as [rn Hn]. destruct Hp as [rp Hp].
  exists rn, rp, (if (3 <=? numeric_columns df)%nat then Some m else None).
  intro rg. rewrite Hn, Hp, Hm. cbn [bind].
  destruct (3 <=? numeric_columns df)%nat; reflexivity.
Qed.

(** X18: the classification pass reads GGCE when it is present, whether
    or not GR is, and falls back on GR only when GGCE is absent; the
    net-to-gross method has no such fallback, so a frame with GR and without
    GGCE gets a gamma-ray lithology and no net-to-gross. *)
Theorem gamma_ray_source (df : DataFrame) :
  frame_finite df ->
  exists r,
    lithology_identification exp2 np_sqrt standardize kmeans df = Ok r /\
    (has_column df GGCE = true ->
     exists g, _gamma_ray_lithology exp2 df GGCE = Ok g /\ gamma_ray r = Some g) /\
    (has_column df GGCE = false -> has_column df GR = true ->
     exists g, _gamma_ray_lithology exp2 df GR = Ok g /\ gamma_ray r = Some g /\
               _calculate_net_to_gross df = Ok None).
Proof.
  intro Hfin.
  destruct (lithology_pass_after_gamma df Hfin) as (rn & rp & rm & Hrest).
  unfold lithology_identification.
  destruct (has_column df GGCE) eqn:E1.
  - destruct (gamma_ray_total exp2 df GGCE E1) as [g Hg].
    rewrite Hg. cbn [bind]. rewrite Hrest.
    eexists. split; [reflexivity|]. cbn [gamma_ray].
    split; [intros _; eauto | discriminate].
  - destruct (has_column df GR) eqn:E2.
    + destruct (gamma_ray_total exp2 df GR E2) as [g Hg].
      rewrite Hg. cbn [bind]. rewrite Hrest.
      eexists. split; [reflexivity|]. cbn [gamma_ray].
      split; [discriminate|]. intros _ _. exists g.
      split; [reflexivity|]. split; [reflexivity|].
      unfold _calculate_net_to_gross. now rewrite E1.
    + cbn [bind]. rewrite Hrest.
      eexists. split; [reflexivity|]. split; discriminate.
Qed.

End GammaSource.

(** ** Ingestion *)







Section LasParseProperties.

Variable py_float : string -> option fval.





End LasParseProperties.

(** * Instances for the further operations *)

(** [x ** 4.4] with the exponent rounded down. *)
Definition pow_4 (x : Q) : Q := Qpower x 4.

(** One Newton step from 1 towards the square root: increasing. *)
Definition sqrt_newton (x : Q) : Q := (x + 1) * (1#2).

Lemma permeability_of_calculated_porosity_witness :
  exists pr perm k t,
    _calculate_porosity frame_c4 = Ok (Some pr) /\
    _estimate_permeability pow_4 (Some pr) = Ok perm /\
    nth_error (k_kozeny perm) 1 = Some (Fin k) /\
    nth_error (k_timur perm) 1 = Some (Fin t) /\
    nth_error (k_average perm) 1 = Some (Fin ((k + t) / 2)) /\
    0 <= k <= 2500 /\
    (k == 0 <-> rho_matrix <= 22#10 /\ 10 <= 0).
Proof.
  apply (permeability_of_calculated_porosity pow_4 frame_c4
           [Fin 20; Fin 10] [Fin (24#10); Fin (22#10)] 1 10 (22#10)); reflexivity.
Defined.



Definition porosity_x22 : PorosityResult :=
  mkPorosityResult [Fin (1#10); Fin (3#10)] [Fin (1#10); Fin (3#10)]
                   [Fin (1#10); Fin (3#10)] [Fin (1#10); Fin (3#10)] [false; false].

Lemma kozeny_carman_increasing_witness :
  exists perm kp kq,
    _estimate_permeability pow_4 (Some porosity_x22) = Ok perm /\
    nth_error (k_kozeny perm) 0 = Some (Fin kp) /\
    nth_error (k_kozeny perm) 1 = Some (Fin kq) /\
    kp <= kq.
Proof.
  apply (kozeny_carman_increasing pow_4 porosity_x22 0 1 (1#10) (3#10));
    [reflexivity | reflexivity | vm_compute; discriminate | vm_compute; discriminate
     | reflexivity].
Defined.

Lemma neutron_density_skip_witness :
  exists res,
    _neutron_density_lithology sqrt_floor frame_c6 NPRL DEN = Ok res /\
    (res = None <->
     forall i x y, nth_error [Fin 10; Fin 30] i = Some x ->
                   nth_error [Fin (22#10); Fin (27#10)] i = Some y ->
                   isna x = true \/ isna y = true) /\
    (forall r, res = Some r ->
       map fst (nd_lithology r) = map fst (dropna2 [Fin 10; Fin 30] [Fin (22#10); Fin (27#10)]) /\
       map fst (nphi_data r) = map fst (dropna2 [Fin 10; Fin 30] [Fin (22#10); Fin (27#10)]) /\
       map fst (rhob_data r) = map fst (dropna2 [Fin 10; Fin 30] [Fin (22#10); Fin (27#10)]) /\
       forall i l, In (i, l) (nd_lithology r) ->
                   In l [Sandstone; Limestone; Dolomite; Anhydrite; GasSand]).
Proof.
  apply (neutron_density_skip sqrt_floor frame_c6 NPRL DEN
           [Fin 10; Fin 30] [Fin (22#10); Fin (27#10)]); reflexivity.
Defined.

Lemma nearest_matrix_by_density_witness :
  exists r l,
    _neutron_density_lithology sqrt_newton frame_c6 NPRL DEN = Ok (Some r) /\
    In (1%nat, l) (nd_lithology r) /\
    (forall l', In (1%nat, l') (nd_lithology r) -> l' = l) /\
    (27#10 < 268#100 -> l = Sandstone) /\
    (268#100 < 27#10 < 279#100 -> l = Limestone) /\
    (279#100 < 27#10 < 2915#1000 -> l = Dolomite) /\
    (2915#1000 < 27#10 -> l = Anhydrite).
Proof.
  apply (nearest_matrix_by_density sqrt_newton frame_c6 NPRL DEN
           [Fin 10; Fin 30] [Fin (22#10); Fin (27#10)] 1 30 (27#10));
    [ | reflexivity | reflexivity | reflexivity | reflexivity | ].
  - intros x y _ Hxy. unfold sqrt_newton. lra.
  - intros [H _]. vm_compute in H. discriminate H.
Defined.

Definition frame_x11 : DataFrame := mkDataFrame 2 [(GGCE, [NaN; NaN])].

Lemma null_curve_gives_empty_result_witness :
  _gamma_ray_lithology exp2_interp frame_x11 GGCE = Ok (mkGammaRayResult [] [] [] NaN NaN) /\
  _photoelectric_lithology frame_x11 GGCE = Ok (mkPEResult [] []).
Proof.
  apply (null_curve_gives_empty_result exp2_interp frame_x11 GGCE [NaN; NaN]);
    [reflexivity|].
  intros x [<- | [<- | []]]; reflexivity.
Defined.

Definition frame_x12 : DataFrame := mkDataFrame 3 [(GGCE, [Fin 60; NaN; Fin 60])].

Lemma constant_curve_unlabeled_witness :
  exists r,
    _gamma_ray_lithology exp2_interp frame_x12 GGCE = Ok r /\
    map fst (gr_lithology r) = map fst (dropna [Fin 60; NaN; Fin 60]) /\
    (forall i l, In (i, l) (gr_lithology r) -> l = None) /\
    (forall i v, In (i, v) (v_shale_tertiary r) -> v = NaN) /\
    (forall i v, In (i, v) (v_shale_older r) -> v = NaN).
Proof.
  apply (constant_curve_unlabeled exp2_interp frame_x12 GGCE [Fin 60; NaN; Fin 60] 60);
    [reflexivity|].
  intros x [<- | [<- | [<- | []]]];
    [right; exists 60; split; reflexivity | left; reflexivity
     | right; exists 60; split; reflexivity].
Defined.

Lemma clustering_result_shape_witness :
  exists res k M,
    _ml_lithology_clustering unscaled single_cluster frame_c8 = Ok (Some res) /\
    finite_matrix (values (joint_rows frame_c8)) = Some M /\
    clusters res = fst (single_cluster k (unscaled M)) /\
    features res = present_candidates frame_c8 /\
    ml_lithology res =
      combine (map fst (joint_rows frame_c8))
              (map (fun c => Some (Facies c)) (clusters res)) /\
    length (ml_lithology res) = length (joint_rows frame_c8) /\
    ((length (joint_rows frame_c8) < 25)%nat -> k = 3%nat) /\
    ((25 <= length (joint_rows frame_c8))%nat -> (2 <= k <= 5)%nat).
Proof.
  apply (clustering_result_shape unscaled single_cluster).
  - intro M. reflexivity.
  - intros k X. apply length_map.
  - exact frame_c8_finite.
  - vm_compute. lia.
  - vm_compute. lia.
Defined.

Definition frame_x16 : DataFrame :=
  mkDataFrame 2 [(NPRL, [NaN; Fin 20]); (DEN, [Fin (24#10); Fin (24#10)]);
                 (RTAT, [Fin 1; Fin 5])].

Lemma null_propagates_down_the_chain_witness :
  exists res pr ws perm,
    petrophysical_calculations_all sqrt_floor pow_4 frame_x16 = Ok res /\
    all_porosity res = Some (Some pr) /\
    all_water_saturation res = Some (Some ws) /\
    all_permeability res = Some perm /\
    nth_error (phi_combined pr) 0 = Some NaN /\
    nth_error (phi_corrected pr) 0 = Some NaN /\
    nth_error (gas_flag pr) 0 = Some false /\
    nth_error (sw ws) 0 = Some NaN /\
    nth_error (sh ws) 0 = Some NaN /\
    nth_error (k_kozeny perm) 0 = Some NaN /\
    nth_error (k_average perm) 0 = Some NaN.
Proof.
  apply (null_propagates_down_the_chain sqrt_floor pow_4 frame_x16
           [NaN; Fin 20] [Fin (24#10); Fin (24#10)] [Fin 1; Fin 5] 0 NaN (Fin (24#10)) (Fin 1));
    try reflexivity.
  left. reflexivity.
Defined.

Lemma zero_porosity_fully_water_saturated_witness :
  exists res pr ws perm h k,
    petrophysical_calculations_all sqrt_floor pow_4 frame_c2 = Ok res /\
    all_porosity res = Some (Some pr) /\
    all_water_saturation res = Some (Some ws) /\
    all_permeability res = Some perm /\
    nth_error (formation_factor ws) 0 = Some PInf /\
    nth_error (sw ws) 0 = Some (Fin 1) /\
    nth_error (sh ws) 0 = Some (Fin h) /\ h == 0 /\
    nth_error (k_kozeny perm) 0 = Some (Fin k) /\ k == 0.
Proof.
  apply (zero_porosity_fully_water_saturated sqrt_floor pow_4 frame_c2
           [Fin 0; Fin 20] [Fin (265#100); Fin (24#10)] [Fin 1; Fin 5] 0 0 (265#100) 1);
    try reflexivity; vm_compute; discriminate.
Defined.

(** A frame with GR and without GGCE. *)
Definition frame_x18 : DataFrame := mkDataFrame 3 [(GR, [Fin 20; Fin 60; Fin 120])].

Lemma gamma_ray_source_witness :
  exists r,
    lithology_identification exp2_interp sqrt_floor unscaled single_cluster frame_x18 = Ok r /\
    (has_column frame_x18 GGCE = true ->
     exists g, _gamma_ray_lithology exp2_interp frame_x18 GGCE = Ok g /\
               gamma_ray r = Some g) /\
    (has_column frame_x18 GGCE = false -> has_column frame_x18 GR = true ->
     exists g, _gamma_ray_lithology exp2_interp frame_x18 GR = Ok g /\
               gamma_ray r = Some g /\
               _calculate_net_to_gross frame_x18 = Ok None).
Proof.
  apply (gamma_ray_source exp2_interp sqrt_floor unscaled single_cluster).
  - intro M. reflexivity.
  - intros k X. apply length_map.
  - intros c [<- | []]. reflexivity.
Defined.








